(** * JerryBoree generic containers: linked list, key-value pair, hash table,
      multi-value hash table, and the table-size policy.

    A shallow embedding of LinkedList.c, KeyValuePair.c, HashTable.c,
    MultiValueHashTable.c and, from the main program, of the two
    prime-number helpers and of the callbacks for keys that are strings,
    followed by the properties established about them. *)

From Stdlib Require Import ZArith Lia.
From Stdlib Require Ascii.
From stdpp Require Import gmap list.

Local Open Scope Z_scope.

(** ** C [int]: 32-bit two's complement, with the wrap-around written out *)

Definition INT_MIN : Z := - 2 ^ 31.
Definition INT_MAX : Z := 2 ^ 31 - 1.

Definition wrap_int (z : Z) : Z := (z + 2 ^ 31) mod 2 ^ 32 - 2 ^ 31.

Definition in_int (z : Z) : Prop := INT_MIN <= z <= INT_MAX.

(** ** C [size_t]: 64 bits without sign, and pointers of 8 bytes, as on the
    64-bit platforms that the program is built for *)

Definition to_size_t (z : Z) : Z := z mod 2 ^ 64.
Definition sizeof_pointer : Z := 8.

(** No object has more than [PTRDIFF_MAX] bytes. *)
Definition PTRDIFF_MAX : Z := 2 ^ 63 - 1.


(** ** Defs.h *)

Inductive status : Set :=
  | success | Memory_Problem | Invalid_input | no_PhyChar | planet_exist
  | fail | Phychar_exist | file_read_fail | planet_not_exist
  | jerry_not_exist | failure | no_element | element_exist | failure_reading.

#[global] Instance status_eq_dec : EqDecision status.
Proof. solve_decision. Defined.

(** ** Memory and computations

    Pointers are [option loc], with [None] for [NULL].  A C function is a
    state transformer that may be undefined: the result [None] stands for a
    run that the C standard gives no meaning to (a null or dangling pointer
    is dereferenced, an array is read out of bounds, a division by zero) or
    that does not terminate. *)

Abbreviation loc := positive.

Definition M (S A : Type) : Type := S -> option (A * S).

Definition ret {S A} (a : A) : M S A := fun s => Some (a, s).

Definition bind {S A B} (m : M S A) (k : A -> M S B) : M S B :=
  fun s => match m s with Some (a, s') => k a s' | None => None end.

Definition undef {S A} : M S A := fun _ => None.

(** Dereference: the pointer must not be [NULL]. *)
Definition deref {S A} (p : option A) : M S A :=
  fun s => match p with Some a => Some (a, s) | None => None end.

Notation "'let*' x ':=' c1 'in' c2" := (bind c1 (fun x => c2))
  (at level 10, x name, c1 at level 100, c2 at level 200).

(** Each [malloc] call consumes one entry of a schedule that says whether
    the call succeeds; once the schedule is used up, every call succeeds. *)
Definition malloc_outcome (schedule : list bool) : bool * list bool :=
  match schedule with
  | [] => (true, [])
  | ok :: rest => (ok, rest)
  end.

(** The function pointer types of Defs.h.  An [Element] that points to an
    [E] is an [option E]; [W] is the memory that the function works on.  The
    two arguments of an equality function are both [void *] in C and need
    not point to the same kind of object.  Equality and hash functions only
    read the memory. *)
Definition CopyFunction (E W : Type) : Type := option E -> M W (option E).
Definition FreeFunction (E W : Type) : Type := option E -> M W status.
Definition PrintFunction (E W : Type) : Type := option E -> M W status.
Definition EqualFunction (E P W : Type) : Type :=
  option E -> option P -> W -> option bool.
Definition TransformIntoNumberFunction (E W : Type) : Type :=
  option E -> W -> option Z.

(** ** LinkedList.c *)

Module LinkedList.

(** [Node] and [LinkedList] are pointers. *)
Abbreviation Node := (option loc).
Abbreviation LinkedList := (option loc).

Section LinkedList.

(** [E] is what an [Element] stored in the list points to, [P] what the
    probe given to the equality function points to, and [W] is the memory
    that the callbacks of the list work on. *)
Context {E P W : Type}.

Record node_s : Type := mkNode {
  next : option loc;
  prev : option loc;
  data : option E
}.

(** [nodes] is the part of the heap that holds the nodes allocated for this
    list: [struct node_s] is private to LinkedList.c and a node is only ever
    reached from the list it was created for. *)
Record LinkedList_s : Type := mkList {
  nodes : gmap loc node_s;
  head : Node;
  tail : Node;
  count_elements : Z;
  copyElement : CopyFunction E W;
  freeElement : FreeFunction E W;
  printElement : PrintFunction E W;
  equal : EqualFunction E P W
}.

(** The heap of lists, the memory of the callbacks and the [malloc]
    schedule. *)
Record lstate : Type := mkLstate {
  lists : gmap loc LinkedList_s;
  world : W;
  mallocs : list bool
}.

(** What a function that was handed a (non-null) list works on: the
    structure [*list] with its nodes, and the rest as above. *)
Record focus : Type := mkFocus {
  self : LinkedList_s;
  env : W;
  budget : list bool
}.

Definition with_list {A} (l : loc) (m : M focus A) : M lstate A :=
  fun s =>
    match lists s !! l with
    | None => None
    | Some L =>
        match m (mkFocus L (world s) (mallocs s)) with
        | None => None
        | Some (a, c) =>
            Some (a, mkLstate (<[l := self c]> (lists s)) (env c) (budget c))
        end
    end.

(** Run a function that works on the memory of the callbacks. *)
Definition in_world {A} (m : M W A) : M lstate A :=
  fun s => match m (world s) with
           | Some (a, w) => Some (a, mkLstate (lists s) w (mallocs s))
           | None => None
           end.

Definition set_next (v : Node) (n : node_s) : node_s :=
  mkNode v (prev n) (data n).
Definition set_prev (v : Node) (n : node_s) : node_s :=
  mkNode (next n) v (data n).

Definition set_nodes (v : gmap loc node_s) (L : LinkedList_s) :=
  mkList v (head L) (tail L) (count_elements L)
         (copyElement L) (freeElement L) (printElement L) (equal L).
Definition set_head (v : Node) (L : LinkedList_s) :=
  mkList (nodes L) v (tail L) (count_elements L)
         (copyElement L) (freeElement L) (printElement L) (equal L).
Definition set_tail (v : Node) (L : LinkedList_s) :=
  mkList (nodes L) (head L) v (count_elements L)
         (copyElement L) (freeElement L) (printElement L) (equal L).
Definition set_count (v : Z) (L : LinkedList_s) :=
  mkList (nodes L) (head L) (tail L) v
         (copyElement L) (freeElement L) (printElement L) (equal L).

Definition malloc : M focus bool :=
  fun c => let '(ok, rest) := malloc_outcome (budget c) in
           Some (ok, mkFocus (self c) (env c) rest).

(** Call a callback. *)
Definition call {A} (m : M W A) : M focus A :=
  fun c => match m (env c) with
           | Some (a, w) => Some (a, mkFocus (self c) w (budget c))
           | None => None
           end.

Definition call_equal (f : W -> option bool) : M focus bool :=
  fun c => match f (env c) with Some a => Some (a, c) | None => None end.

(** [*list] *)
Definition get_self : M focus LinkedList_s := fun c => Some (self c, c).

(** [list->field = v] *)
Definition upd_self (f : LinkedList_s -> LinkedList_s) : M focus unit :=
  fun c => Some (tt, mkFocus (f (self c)) (env c) (budget c)).

(** [*node] *)
Definition node_at (a : loc) : M focus node_s :=
  fun c => match nodes (self c) !! a with
           | Some n => Some (n, c)
           | None => None
           end.

(** [node->field = v] *)
Definition upd_node (a : loc) (f : node_s -> node_s) : M focus unit :=
  let* n := node_at a in
  upd_self (fun L => set_nodes (<[a := f n]> (nodes L)) L).

(** [free(node)] *)
Definition free_node (a : loc) : M focus unit :=
  let* _ := node_at a in
  upd_self (fun L => set_nodes (delete a (nodes L)) L).

Definition createLinkedList (copyFunc : option (CopyFunction E W))
    (freeFunc : option (FreeFunction E W))
    (printFunc : option (PrintFunction E W))
    (equalFunc : option (EqualFunction E P W)) : M lstate LinkedList :=
  match copyFunc, freeFunc, printFunc, equalFunc with
  | Some copyFunc, Some freeFunc, Some printFunc, Some equalFunc =>
      fun s =>
        let '(ok, rest) := malloc_outcome (mallocs s) in
        if ok : bool then
          let list := fresh (dom (lists s)) in
          Some (Some list,
                mkLstate (<[list := mkList ∅ None None 0 copyFunc freeFunc
                                           printFunc equalFunc]> (lists s))
                         (world s) rest)
        else Some (None, mkLstate (lists s) (world s) rest)
  | _, _, _, _ => ret None
  end.

(** [while (curr != NULL)] of [destroyList].  Every turn frees a node, so
    the number of nodes bounds the number of turns. *)
Fixpoint destroyList_while (fuel : nat) (curr : Node) : M focus unit :=
  match curr with
  | None => ret tt
  | Some c =>
      match fuel with
      | O => undef
      | S fuel' =>
          let* L := get_self in
          let* n := node_at c in
          let tmp := next n in
          let* _ := call (freeElement L (data n)) in
          let* _ := free_node c in
          destroyList_while fuel' tmp
      end
  end.

Definition destroyList (list : LinkedList) : M lstate status :=
  match list with
  | None => ret Invalid_input
  | Some l =>
      let* _ := with_list l (
        let* L := get_self in
        destroyList_while (size (nodes L)) (head L)) in
      (* free(list) *)
      fun s => Some (success,
                     mkLstate (delete l (lists s)) (world s) (mallocs s))
  end.

Definition createNode (data : option E) (list : LinkedList) : M focus Node :=
  match data, list with
  | Some _, Some _ =>
      let* ok := malloc in
      if ok : bool then
        let* L := get_self in
        let node := fresh (dom (nodes L)) in
        let* d := call (copyElement L data) in
        match d with
        | None => ret None
        | Some _ =>
            let* _ := upd_self (fun L =>
                        set_nodes (<[node := mkNode None None d]> (nodes L))
                                  L) in
            ret (Some node)
        end
      else ret None
  | _, _ => ret None
  end.

Definition appendNode (list : LinkedList) (element : option E)
  : M lstate status :=
  match list, element with
  | Some l, Some _ =>
      with_list l (
        let* L := get_self in
        match head L with
        | None =>
            let* node := createNode element list in
            let* _ := upd_self (set_head node) in
            match node with
            | None => ret Memory_Problem
            | Some h =>
                let* _ := upd_node h (set_next None) in
                let* _ := upd_node h (set_prev None) in
                let* _ := upd_self (set_count 1) in
                let* _ := upd_self (set_tail (Some h)) in
                let* _ := upd_node h (set_next None) in
                let* _ := upd_node h (set_prev None) in
                ret success
            end
        | Some _ =>
            let* node := createNode element list in
            let* t := deref (tail L) in
            let* _ := upd_node t (set_next node) in
            match node with
            | None => ret Memory_Problem
            | Some n =>
                let* _ := upd_node n (set_next None) in
                let* _ := upd_node n (set_prev (Some t)) in
                let* _ := upd_self (set_tail (Some n)) in
                let* _ := upd_self (fun L =>
                            set_count (wrap_int (count_elements L + 1)) L) in
                ret success
            end
        end)
  | _, _ => ret Invalid_input
  end.

(** The relinking that [deleteNode] does once [curr] (the node [c], whose
    fields are [n]) has been found equal to the probe. *)
Definition deleteNode_unlink (c : loc) (n : node_s) : M focus unit :=
  let* L := get_self in
  if bool_decide (Some c = head L) then
    match next n with
    | Some nx =>
        let* _ := upd_node nx (set_prev None) in
        upd_self (set_head (next n))
    | None => ret tt
    end
  else if bool_decide (Some c = tail L) then
    let* p := deref (prev n) in
    let* _ := upd_node p (set_next None) in
    upd_self (set_tail (prev n))
  else
    let* p := deref (prev n) in
    let* _ := upd_node p (set_next (next n)) in
    let* nx := deref (next n) in
    upd_node nx (set_prev (prev n)).

(** [while (curr != NULL)] of [deleteNode]; a walk over a list without a
    cycle takes at most as many turns as the list has nodes. *)
Fixpoint deleteNode_while (fuel : nat) (PrameterToEqual : option P)
    (curr : Node) : M focus status :=
  match curr with
  | None => ret no_element
  | Some c =>
      match fuel with
      | O => undef
      | S fuel' =>
          let* L := get_self in
          let* n := node_at c in
          let* eq := call_equal (equal L (data n) PrameterToEqual) in
          if eq : bool then
            let* _ := deleteNode_unlink c n in
            let* _ := call (freeElement L (data n)) in
            let* _ := free_node c in
            let* _ := upd_self (fun L =>
                        set_count (wrap_int (count_elements L - 1)) L) in
            let* L' := get_self in
            let* _ := (if count_elements L' =? 0 then
                         let* _ := upd_self (set_head None) in
                         upd_self (set_tail None)
                       else ret tt) in
            ret success
          else deleteNode_while fuel' PrameterToEqual (next n)
      end
  end.

Definition deleteNode (list : LinkedList) (PrameterToEqual : option P)
  : M lstate status :=
  match list, PrameterToEqual with
  | Some l, Some _ =>
      with_list l (
        let* L := get_self in
        deleteNode_while (S (size (nodes L))) PrameterToEqual (head L))
  | _, _ => ret Invalid_input
  end.

Fixpoint displayList_while (fuel : nat) (curr : Node) : M focus unit :=
  match curr with
  | None => ret tt
  | Some c =>
      match fuel with
      | O => undef
      | S fuel' =>
          let* L := get_self in
          let* n := node_at c in
          let* _ := call (printElement L (data n)) in
          displayList_while fuel' (next n)
      end
  end.

Definition displayList (list : LinkedList) : M lstate status :=
  match list with
  | None => ret Invalid_input
  | Some l =>
      with_list l (
        let* L := get_self in
        let* _ := displayList_while (S (size (nodes L))) (head L) in
        ret success)
  end.

(** [for (int i = 1; i < index; i++) curr = curr->next;] *)
Fixpoint getDataByIndex_for (turns : nat) (curr : Node) : M focus Node :=
  match turns with
  | O => ret curr
  | S turns' =>
      let* c := deref curr in
      let* n := node_at c in
      getDataByIndex_for turns' (next n)
  end.

Definition getDataByIndex (list : LinkedList) (index : Z)
  : M lstate (option E) :=
  match list with
  | None => ret None
  | Some l =>
      with_list l (
        let* L := get_self in
        if (index <? 1) || (index >? count_elements L) then ret None
        else
          let* curr := getDataByIndex_for (Z.to_nat (index - 1)) (head L) in
          let* c := deref curr in
          let* n := node_at c in
          let* copyData := call (copyElement L (data n)) in
          match copyData with
          | None => ret None
          | Some _ => ret copyData
          end)
  end.

Definition getLengthList (list : LinkedList) : M lstate Z :=
  match list with
  | None => ret (-1)
  | Some l => with_list l (let* L := get_self in ret (count_elements L))
  end.

Fixpoint searchByKeyInList_while (fuel : nat) (key : option P) (curr : Node)
  : M focus (option E) :=
  match curr with
  | None => ret None
  | Some c =>
      match fuel with
      | O => undef
      | S fuel' =>
          let* L := get_self in
          let* n := node_at c in
          let* eq := call_equal (equal L (data n) key) in
          if eq : bool then
            let* copyData := call (copyElement L (data n)) in
            match copyData with
            | None => ret None
            | Some _ => ret copyData
            end
          else searchByKeyInList_while fuel' key (next n)
      end
  end.

Definition searchByKeyInList (list : LinkedList) (key : option P)
  : M lstate (option E) :=
  match list, key with
  | Some l, Some _ =>
      with_list l (
        let* L := get_self in
        searchByKeyInList_while (S (size (nodes L))) key (head L))
  | _, _ => ret None
  end.

End LinkedList.

Arguments node_s : clear implicits.
Arguments LinkedList_s : clear implicits.
Arguments lstate : clear implicits.
Arguments focus : clear implicits.

End LinkedList.

(** ** KeyValuePair.c *)

Module KeyValuePair.

Abbreviation KeyValuePair := (option loc).

Section KeyValuePair.

(** [K] and [V] are what a key and a value point to, and [W] is the memory
    that their callbacks work on. *)
Context {K V W : Type}.

Record KeyValuePair_s : Type := mkPair {
  key : option K;
  value : option V;
  copyKey : CopyFunction K W;
  copyValue : CopyFunction V W;
  freeKey : FreeFunction K W;
  freeValue : FreeFunction V W;
  printKey : PrintFunction K W;
  printValue : PrintFunction V W;
  equalKey : EqualFunction K K W
}.

(** The heap of pairs, the memory of the callbacks and the [malloc]
    schedule. *)
Record kvstate : Type := mkKvstate {
  pairs : gmap loc KeyValuePair_s;
  user : W;
  kv_mallocs : list bool
}.

Definition malloc : M kvstate bool :=
  fun s => let '(ok, rest) := malloc_outcome (kv_mallocs s) in
           Some (ok, mkKvstate (pairs s) (user s) rest).

(** Call a callback. *)
Definition in_user {A} (m : M W A) : M kvstate A :=
  fun s => match m (user s) with
           | Some (a, w) => Some (a, mkKvstate (pairs s) w (kv_mallocs s))
           | None => None
           end.

(** [*kvPair] *)
Definition get_pair (p : loc) : M kvstate KeyValuePair_s :=
  fun s => match pairs s !! p with Some kv => Some (kv, s) | None => None end.

Definition createKeyValuePair (key : option K) (value : option V)
    (copyKey : option (CopyFunction K W)) (freeKey : option (FreeFunction K W))
    (printKey : option (PrintFunction K W))
    (copyValue : option (CopyFunction V W))
    (freeValue : option (FreeFunction V W))
    (printValue : option (PrintFunction V W))
    (equalKey : option (EqualFunction K K W)) : M kvstate KeyValuePair :=
  match key, value, copyKey, freeKey, printKey, equalKey,
        copyValue, freeValue, printValue with
  | Some _, Some _, Some copyKey, Some freeKey, Some printKey, Some equalKey,
    Some copyValue, Some freeValue, Some printValue =>
      let* ok := malloc in
      if ok : bool then
        let* k := in_user (copyKey key) in
        match k with
        | None => ret None
        | Some _ =>
            let* v := in_user (copyValue value) in
            match v with
            | None => let* _ := in_user (freeKey k) in ret None
            | Some _ =>
                fun s =>
                  let keyValPair := fresh (dom (pairs s)) in
                  Some (Some keyValPair,
                        mkKvstate (<[keyValPair :=
                                     mkPair k v copyKey copyValue freeKey
                                            freeValue printKey printValue
                                            equalKey]> (pairs s))
                                  (user s) (kv_mallocs s))
            end
        end
      else ret None
  | _, _, _, _, _, _, _, _, _ => ret None
  end.

Definition destroyKeyValuePair (kvPair : KeyValuePair) : M kvstate status :=
  match kvPair with
  | None => ret Invalid_input
  | Some p =>
      let* kv := get_pair p in
      let* _ := in_user (freeKey kv (key kv)) in
      let* _ := in_user (freeValue kv (value kv)) in
      fun s => Some (success,
                     mkKvstate (delete p (pairs s)) (user s) (kv_mallocs s))
  end.

Definition displayValue (kvPair : KeyValuePair) : M kvstate status :=
  match kvPair with
  | None => ret Invalid_input
  | Some p =>
      let* kv := get_pair p in
      let* _ := in_user (printValue kv (value kv)) in
      ret success
  end.

Definition displayKey (kvPair : KeyValuePair) : M kvstate status :=
  match kvPair with
  | None => ret Invalid_input
  | Some p =>
      let* kv := get_pair p in
      let* _ := in_user (printKey kv (key kv)) in
      ret success
  end.

Definition getValue (kvPair : KeyValuePair) : M kvstate (option V) :=
  match kvPair with
  | None => ret None
  | Some p =>
      let* kv := get_pair p in
      let* ValueCopy := in_user (copyValue kv (value kv)) in
      match ValueCopy with
      | None => ret None
      | Some _ => ret ValueCopy
      end
  end.

Definition getKey (kvPair : KeyValuePair) : M kvstate (option K) :=
  match kvPair with
  | None => ret None
  | Some p =>
      let* kv := get_pair p in
      let* KeyCopy := in_user (copyKey kv (key kv)) in
      match KeyCopy with
      | None => ret None
      | Some _ => ret KeyCopy
      end
  end.

Definition isEqualKey (kvPair : KeyValuePair) (key' : option K)
  : kvstate -> option bool :=
  match kvPair, key' with
  | Some p, Some _ =>
      fun s =>
        match pairs s !! p with
        | None => None
        | Some kv =>
            match equalKey kv (key kv) key' (user s) with
            | None => None
            | Some true => Some true
            | Some false => Some false
            end
        end
  | _, _ => fun _ => Some false
  end.

End KeyValuePair.

Arguments KeyValuePair_s : clear implicits.
Arguments kvstate : clear implicits.

End KeyValuePair.

(** ** HashTable.c *)

Module HashTable.
Import LinkedList KeyValuePair.

Abbreviation hashTable := (option loc).

Section HashTable.

Context {K V W : Type}.

Record hashTable_s : Type := mkTable {
  table : option loc;
  tableSize : Z;
  numberOfElements : Z;
  transIntoNumber : TransformIntoNumberFunction K W;
  copyKey : CopyFunction K W;
  freeKey : FreeFunction K W;
  printKey : PrintFunction K W;
  copyValue : CopyFunction V W;
  freeValue : FreeFunction V W;
  printValue : PrintFunction V W;
  equalKey : EqualFunction K K W
}.

(** The heap of table structures, the heap of bucket arrays (an array is
    the sequence of its cells), the [malloc] schedule of this file, and the
    lists of pairs with all that lies below them. *)
Record htstate : Type := mkHtstate {
  tables : gmap loc hashTable_s;
  arrays : gmap loc (list LinkedList);
  ht_mallocs : list bool;
  buckets : lstate loc K (kvstate K V W)
}.

Definition malloc : M htstate bool :=
  fun s => let '(ok, rest) := malloc_outcome (ht_mallocs s) in
           Some (ok, mkHtstate (tables s) (arrays s) rest (buckets s)).

(** [malloc(size)] for a size that the code computes: a request for more
    than [PTRDIFF_MAX] bytes fails whatever memory is left, and the
    schedule decides on the others. *)
Definition malloc_bytes (size : Z) : M htstate bool :=
  fun s => let '(ok, rest) := malloc_outcome (ht_mallocs s) in
           Some (ok && (size <=? PTRDIFF_MAX),
                 mkHtstate (tables s) (arrays s) rest (buckets s)).

(** Call a function of LinkedList.c. *)
Definition in_buckets {A} (m : M (lstate loc K (kvstate K V W)) A)
  : M htstate A :=
  fun s => match m (buckets s) with
           | Some (a, b) =>
               Some (a, mkHtstate (tables s) (arrays s) (ht_mallocs s) b)
           | None => None
           end.

(** Call a function of KeyValuePair.c. *)
Definition in_pairs {A} (m : M (kvstate K V W) A) : M htstate A :=
  in_buckets (in_world m).

(** Call a callback of the table. *)
Definition in_callback {A} (m : M W A) : M htstate A :=
  in_pairs (in_user m).

Definition read_callback {A} (f : W -> option A) : M htstate A :=
  fun s => match f (user (world (buckets s))) with
           | Some a => Some (a, s)
           | None => None
           end.

(** [*HashTable] *)
Definition get_table (t : loc) : M htstate hashTable_s :=
  fun s => match tables s !! t with Some T => Some (T, s) | None => None end.

(** [array[i]]; the index must be within the array. *)
Definition array_read (a : option loc) (i : Z) : M htstate LinkedList :=
  fun s =>
    match a with
    | None => None
    | Some al =>
        match arrays s !! al with
        | None => None
        | Some cells =>
            if (0 <=? i) && (i <? Z.of_nat (length cells)) then
              match cells !! Z.to_nat i with
              | Some l => Some (l, s)
              | None => None
              end
            else None
        end
    end.

(** [array[i] = l] *)
Definition array_write (a : option loc) (i : Z) (l : LinkedList)
  : M htstate unit :=
  fun s =>
    match a with
    | None => None
    | Some al =>
        match arrays s !! al with
        | None => None
        | Some cells =>
            if (0 <=? i) && (i <? Z.of_nat (length cells)) then
              Some (tt, mkHtstate (tables s)
                                  (<[al := <[Z.to_nat i := l]> cells]>
                                     (arrays s))
                                  (ht_mallocs s) (buckets s))
            else None
        end
    end.

(** [a % b] on [int]: undefined when [b] is 0 and when the quotient
    overflows. *)
Definition int_rem (a b : Z) : M htstate Z :=
  if (b =? 0) || ((a =? INT_MIN) && (b =? -1)) then undef
  else ret (Z.rem a b).

Definition copyKeyValuePairs : CopyFunction loc (kvstate K V W) :=
  fun element =>
    match element with
    | None => ret None
    | Some keyValuePair => ret (Some keyValuePair)
    end.

Definition PrintKeyValPair : PrintFunction loc (kvstate K V W) :=
  fun element =>
    match element with
    | None => ret Invalid_input
    | Some _ =>
        let* _ := displayKey element in
        let* _ := displayValue element in
        ret success
    end.

Definition equalForInnerList : EqualFunction loc K (kvstate K V W) :=
  fun kvp key =>
    match kvp, key with
    | Some _, Some _ =>
        fun s =>
          match isEqualKey kvp key s with
          | None => None
          | Some false => Some false
          | Some true => Some true
          end
    | _, _ => fun _ => Some false
    end.

Definition destroyKeyValuePairhash : FreeFunction loc (kvstate K V W) :=
  fun element =>
    match element with
    | None => ret Invalid_input
    | Some _ =>
        let* freeStatus := destroyKeyValuePair element in
        if decide (freeStatus = Invalid_input) then ret Invalid_input
        else ret success
    end.

(** [for (int i = 0; i < HashTable->tableSize; i++)] of [createHashTable],
    with [turns] turns left; the result says whether every list was
    created. *)
Fixpoint createHashTable_for (turns : nat) (a : option loc) (i : Z)
  : M htstate bool :=
  match turns with
  | O => ret true
  | S turns' =>
      let* l := in_buckets (createLinkedList (Some copyKeyValuePairs)
                              (Some destroyKeyValuePairhash)
                              (Some PrintKeyValPair)
                              (Some equalForInnerList)) in
      let* _ := array_write a i l in
      match l with
      | None => ret false
      | Some _ => createHashTable_for turns' a (i + 1)
      end
  end.

Definition createHashTable (copyKey : option (CopyFunction K W))
    (freeKey : option (FreeFunction K W))
    (printKey : option (PrintFunction K W))
    (copyValue : option (CopyFunction V W))
    (freeValue : option (FreeFunction V W))
    (printValue : option (PrintFunction V W))
    (equalKey : option (EqualFunction K K W))
    (transformIntoNumber : option (TransformIntoNumberFunction K W))
    (hashNumber : Z) : M htstate hashTable :=
  match copyKey, freeKey, printKey, equalKey, transformIntoNumber,
        copyValue, freeValue, printValue with
  | Some copyKey, Some freeKey, Some printKey, Some equalKey,
    Some transformIntoNumber, Some copyValue, Some freeValue,
    Some printValue =>
      let* ok := malloc in
      if ok : bool then
        (* malloc((HashTable->tableSize)*sizeof(LinkedList)): the [int] is
           converted to [size_t] and the product is taken in [size_t] *)
        let* ok' :=
          malloc_bytes (to_size_t (to_size_t hashNumber * sizeof_pointer)) in
        if ok' : bool then
          fun s =>
            let HashTable := fresh (dom (tables s)) in
            let a := fresh (dom (arrays s)) in
            let s1 :=
              mkHtstate
                (<[HashTable := mkTable (Some a) hashNumber 0
                     transformIntoNumber copyKey freeKey printKey copyValue
                     freeValue printValue equalKey]> (tables s))
                (<[a := replicate (Z.to_nat hashNumber) None]> (arrays s))
                (ht_mallocs s) (buckets s) in
            match createHashTable_for (Z.to_nat hashNumber) (Some a) 0 s1 with
            | None => None
            | Some (true, s2) => Some (Some HashTable, s2)
            | Some (false, s2) =>
                Some (None,
                      mkHtstate (delete HashTable (tables s2))
                                (delete a (arrays s2))
                                (ht_mallocs s2) (buckets s2))
            end
        else ret None
      else ret None
  | _, _, _, _, _, _, _, _ => ret None
  end.

Fixpoint destroyHashTable_for (turns : nat) (a : option loc) (i : Z)
  : M htstate unit :=
  match turns with
  | O => ret tt
  | S turns' =>
      let* l := array_read a i in
      let* _ := in_buckets (destroyList l) in
      destroyHashTable_for turns' a (i + 1)
  end.

Definition destroyHashTable (HashTable : hashTable) : M htstate status :=
  match HashTable with
  | None => ret Invalid_input
  | Some t =>
      let* T := get_table t in
      let* _ := destroyHashTable_for (Z.to_nat (tableSize T)) (table T) 0 in
      let* a := deref (table T) in
      fun s => Some (success,
                     mkHtstate (delete t (tables s)) (delete a (arrays s))
                               (ht_mallocs s) (buckets s))
  end.

Definition addToHashTable (HashTable : hashTable) (key : option K)
    (value : option V) : M htstate status :=
  match HashTable, key, value with
  | Some t, Some _, Some _ =>
      let* T := get_table t in
      let* key_num := read_callback (transIntoNumber T key) in
      let* index := int_rem key_num (tableSize T) in
      let* bucket := array_read (table T) index in
      let* result := in_buckets (searchByKeyInList bucket key) in
      match result with
      | None =>
          let* new_key_value_pair :=
            in_pairs (createKeyValuePair key value
                        (Some (copyKey T)) (Some (freeKey T))
                        (Some (printKey T)) (Some (copyValue T))
                        (Some (freeValue T)) (Some (printValue T))
                        (Some (equalKey T))) in
          match new_key_value_pair with
          | None => ret Memory_Problem
          | Some _ =>
              let* appendResult :=
                in_buckets (appendNode bucket new_key_value_pair) in
              if decide (appendResult = success) then ret success
              else if decide (appendResult = Memory_Problem)
                   then ret Memory_Problem
                   else ret Invalid_input
          end
      | Some _ => ret element_exist
      end
  | _, _, _ => ret Invalid_input
  end.

Definition lookupInHashTable (HashTable : hashTable) (key : option K)
  : M htstate (option V) :=
  match HashTable, key with
  | Some t, Some _ =>
      let* T := get_table t in
      let* key_num := read_callback (transIntoNumber T key) in
      let* index := int_rem key_num (tableSize T) in
      let* bucket := array_read (table T) index in
      let* element := in_buckets (searchByKeyInList bucket key) in
      match element with
      | None => ret None
      | Some _ => in_pairs (getValue element)
      end
  | _, _ => ret None
  end.

Definition removeFromHashTable (HashTable : hashTable) (key : option K)
  : M htstate status :=
  match HashTable, key with
  | Some t, Some _ =>
      let* T := get_table t in
      let* key_num := read_callback (transIntoNumber T key) in
      let* index := int_rem key_num (tableSize T) in
      let* bucket := array_read (table T) index in
      let* result := in_buckets (deleteNode bucket key) in
      if decide (result = no_element) then ret no_element
      else if decide (result = Invalid_input) then ret Invalid_input
      else ret success
  | _, _ => ret Invalid_input
  end.

Fixpoint displayHashElements_for (turns : nat) (a : option loc) (i : Z)
  : M htstate unit :=
  match turns with
  | O => ret tt
  | S turns' =>
      let* l := array_read a i in
      let* _ := in_buckets (displayList l) in
      displayHashElements_for turns' a (i + 1)
  end.

Definition displayHashElements (HashTable : hashTable) : M htstate status :=
  match HashTable with
  | None => ret Invalid_input
  | Some t =>
      let* T := get_table t in
      let* _ := displayHashElements_for (Z.to_nat (tableSize T)) (table T) 0 in
      ret success
  end.

End HashTable.

Arguments hashTable_s : clear implicits.
Arguments htstate : clear implicits.

End HashTable.

(** ** MultiValueHashTable.c *)

Module MultiValueHashTable.
Import LinkedList KeyValuePair HashTable.

Abbreviation multiHashTable := (option loc).

Section MultiValueHashTable.

(** [K] and [V] are what a key and a value point to, and [U] is the memory
    that the callbacks given by the caller work on.  The values of the
    underlying hash table are lists of values, so the memory that its value
    callbacks work on is the heap of these lists. *)
Context {K V U : Type}.

Definition values : Type := lstate V V U.

Record MultiHashTable_s : Type := mkMulti {
  HashTable : hashTable;
  transIntoNumber : TransformIntoNumberFunction K U;
  copyKey : CopyFunction K U;
  freeKey : FreeFunction K U;
  printKey : PrintFunction K U;
  copyValue : CopyFunction V U;
  freeValue : FreeFunction V U;
  printValue : PrintFunction V U;
  equalKey : EqualFunction K K U;
  equalVal : EqualFunction V V U
}.

Record mstate : Type := mkMstate {
  multis : gmap loc MultiHashTable_s;
  m_mallocs : list bool;
  under : htstate K loc values
}.

Definition malloc : M mstate bool :=
  fun s => let '(ok, rest) := malloc_outcome (m_mallocs s) in
           Some (ok, mkMstate (multis s) rest (under s)).

(** Call a function of HashTable.c. *)
Definition in_table {A} (m : M (htstate K loc values) A) : M mstate A :=
  fun s => match m (under s) with
           | Some (a, h) => Some (a, mkMstate (multis s) (m_mallocs s) h)
           | None => None
           end.

(** Call a function of LinkedList.c on a list of values. *)
Definition in_values {A} (m : M values A) : M mstate A :=
  in_table (in_callback m).

(** [*MultiHashTable] *)
Definition get_multi (m : loc) : M mstate MultiHashTable_s :=
  fun s => match multis s !! m with Some T => Some (T, s) | None => None end.

(** The key callbacks of the caller, seen from the underlying table: they
    work on the caller's memory, which lies below the lists of values. *)
Definition key_copy (f : CopyFunction K U) : CopyFunction K values :=
  fun k => in_world (f k).
Definition key_free (f : FreeFunction K U) : FreeFunction K values :=
  fun k => in_world (f k).
Definition key_print (f : PrintFunction K U) : PrintFunction K values :=
  fun k => in_world (f k).
Definition key_equal (f : EqualFunction K K U) : EqualFunction K K values :=
  fun a b s => f a b (world s).
Definition key_number (f : TransformIntoNumberFunction K U)
  : TransformIntoNumberFunction K values :=
  fun k s => f k (world s).

Definition copyLinkListVal : CopyFunction loc values :=
  fun element =>
    match element with
    | None => ret None
    | Some _ => ret element
    end.

Definition createMultiValueHashTable (copyKey : option (CopyFunction K U))
    (freeKey : option (FreeFunction K U))
    (printKey : option (PrintFunction K U))
    (copyValue : option (CopyFunction V U))
    (freeValue : option (FreeFunction V U))
    (printValue : option (PrintFunction V U))
    (equalKey : option (EqualFunction K K U))
    (equalVal : option (EqualFunction V V U))
    (transformIntoNumber : option (TransformIntoNumberFunction K U))
    (MultiHashNumber : Z) : M mstate multiHashTable :=
  match copyKey, freeKey, printKey, equalKey, transformIntoNumber,
        copyValue, freeValue, printValue, equalVal with
  | Some copyKey, Some freeKey, Some printKey, Some equalKey,
    Some transformIntoNumber, Some copyValue, Some freeValue,
    Some printValue, Some equalVal =>
      let* ok := malloc in
      if ok : bool then
        let* HashTable :=
          in_table (createHashTable
                      (Some (key_copy copyKey)) (Some (key_free freeKey))
                      (Some (key_print printKey)) (Some copyLinkListVal)
                      (Some destroyList) (Some displayList)
                      (Some (key_equal equalKey))
                      (Some (key_number transformIntoNumber))
                      MultiHashNumber) in
        match HashTable with
        | None => ret None
        | Some _ =>
            fun s =>
              let MultiHashTable := fresh (dom (multis s)) in
              Some (Some MultiHashTable,
                    mkMstate (<[MultiHashTable :=
                                mkMulti HashTable transformIntoNumber copyKey
                                        freeKey printKey copyValue freeValue
                                        printValue equalKey equalVal]>
                                (multis s))
                             (m_mallocs s) (under s))
        end
      else ret None
  | _, _, _, _, _, _, _, _, _ => ret None
  end.

Definition destroyMultiValueHashTable (MultiHashTable : multiHashTable)
  : M mstate status :=
  match MultiHashTable with
  | None => ret Invalid_input
  | Some m =>
      let* T := get_multi m in
      let* _ := in_table (destroyHashTable (HashTable T)) in
      fun s => Some (success,
                     mkMstate (delete m (multis s)) (m_mallocs s) (under s))
  end.

Definition addToMultiValueHashTable (MultiHashTable : multiHashTable)
    (key : option K) (value : option V) : M mstate status :=
  match MultiHashTable, key, value with
  | Some m, Some _, Some _ =>
      let* T := get_multi m in
      let* ValInKeyVal := in_table (lookupInHashTable (HashTable T) key) in
      match ValInKeyVal with
      | None =>
          let* valuesLinkedList :=
            in_values (createLinkedList (Some (copyValue T))
                         (Some (freeValue T)) (Some (printValue T))
                         (Some (equalVal T))) in
          match valuesLinkedList with
          | None => ret failure
          | Some _ =>
              let* result := in_values (appendNode valuesLinkedList value) in
              if decide (result = Memory_Problem) then
                let* _ := in_values (destroyList valuesLinkedList) in
                ret Memory_Problem
              else if decide (result = Invalid_input) then
                let* _ := in_values (destroyList valuesLinkedList) in
                ret Invalid_input
              else
                let* addResult :=
                  in_table (addToHashTable (HashTable T) key
                              valuesLinkedList) in
                if decide (addResult = Memory_Problem) then
                  let* _ := in_values (destroyList valuesLinkedList) in
                  ret Memory_Problem
                else if decide (addResult = Invalid_input) then
                  let* _ := in_values (destroyList valuesLinkedList) in
                  ret success
                else ret success
          end
      | Some _ =>
          let link_to_add := ValInKeyVal in
          let* appedResult := in_values (appendNode link_to_add value) in
          if decide (appedResult = Memory_Problem) then ret Memory_Problem
          else if decide (appedResult = Invalid_input) then ret Invalid_input
          else ret success
      end
  | _, _, _ => ret Invalid_input
  end.

Definition lookupInMultiValueHashTable (MultiHashTable : multiHashTable)
    (key : option K) : M mstate (option loc) :=
  match MultiHashTable, key with
  | Some m, Some _ =>
      let* T := get_multi m in
      let* ValInKeyVal := in_table (lookupInHashTable (HashTable T) key) in
      match ValInKeyVal with
      | None => ret None
      | Some _ => ret ValInKeyVal
      end
  | _, _ => ret None
  end.

Definition removeFromMultiValueHashTable (MultiHashTable : multiHashTable)
    (key : option K) (compareVal : option V) : M mstate status :=
  match MultiHashTable, key, compareVal with
  | Some m, Some _, Some _ =>
      let* T := get_multi m in
      let* ValInKeyVal := in_table (lookupInHashTable (HashTable T) key) in
      match ValInKeyVal with
      | None => ret no_element
      | Some _ =>
          let valuesLinkedList := ValInKeyVal in
          let* ValueEqual :=
            in_values (searchByKeyInList valuesLinkedList compareVal) in
          match ValueEqual with
          | None => ret no_element
          | Some _ =>
              let* deleteResult :=
                in_values (deleteNode valuesLinkedList compareVal) in
              if decide (deleteResult = Invalid_input) then ret Invalid_input
              else
                let* len := in_values (getLengthList valuesLinkedList) in
                if len =? 0 then
                  let* removeFromHash :=
                    in_table (removeFromHashTable (HashTable T) key) in
                  if decide (removeFromHash = Invalid_input)
                  then ret Invalid_input
                  else ret success
                else ret success
          end
      end
  | _, _, _ => ret Invalid_input
  end.

Definition displayMultiValueHashElementsByKey
    (MultiHashTable : multiHashTable) (key : option K) : M mstate status :=
  match MultiHashTable, key with
  | Some m, Some _ =>
      let* T := get_multi m in
      let* ValInKeyVal := in_table (lookupInHashTable (HashTable T) key) in
      match ValInKeyVal with
      | None => ret no_element
      | Some _ =>
          let* _ := in_values (in_world (printKey T key)) in
          let valuesLinkedList := ValInKeyVal in
          let* printResult := in_values (displayList valuesLinkedList) in
          if decide (printResult = Invalid_input) then ret Invalid_input
          else ret success
      end
  | _, _ => ret Invalid_input
  end.

End MultiValueHashTable.

Arguments MultiHashTable_s : clear implicits.
Arguments mstate : clear implicits.
Arguments values : clear implicits.

End MultiValueHashTable.

(** ** The callbacks of the main program for keys that are strings *)

Module StringKeys.

(** A string is the list of the characters that its pointer refers to, from
    the first on.  It ends at the first character of code 0, or with the
    list: the zero that ends it is then understood. *)
Definition code (c : Ascii.ascii) : Z := Z.of_N (Ascii.N_of_ascii c).

(** [strlen], [strcpy] (the characters written, without the zero that ends
    them) and [strcmp] (characters are compared as [unsigned char]; only
    the sign of the result is given by the C standard). *)
Fixpoint strlen (str : list Ascii.ascii) : Z :=
  match str with
  | [] => 0
  | c :: rest => if code c =? 0 then 0 else 1 + strlen rest
  end.

Fixpoint strcpy (src : list Ascii.ascii) : list Ascii.ascii :=
  match src with
  | [] => []
  | c :: rest => if code c =? 0 then [] else c :: strcpy rest
  end.

Fixpoint strcmp (s1 s2 : list Ascii.ascii) : Z :=
  match s1, s2 with
  | [], [] => 0
  | [], c2 :: _ => 0 - code c2
  | c1 :: _, [] => code c1 - 0
  | c1 :: rest1, c2 :: rest2 =>
      if code c1 =? code c2 then
        if code c1 =? 0 then 0 else strcmp rest1 rest2
      else code c1 - code c2
  end.

Definition ShallowCopy {E W} : CopyFunction E W :=
  fun element =>
    match element with
    | None => ret None
    | Some _ => ret element
    end.

Definition ShallowFree {E W} : FreeFunction E W :=
  fun element =>
    match element with
    | None => ret Invalid_input
    | Some _ => ret success
    end.

(** The memory of these callbacks is the [malloc] schedule. *)
Definition CopyKeyString : CopyFunction (list Ascii.ascii) (list bool) :=
  fun element schedule =>
    match element with
    | None => Some (None, schedule)
    | Some str =>
        let '(ok, rest) := malloc_outcome schedule in
        if ok && (to_size_t ((strlen str + 1) * 1) <=? PTRDIFF_MAX)
        then Some (Some (strcpy str), rest)
        else Some (None, rest)
    end.

Definition FreeKeyString {W} : FreeFunction (list Ascii.ascii) W :=
  fun element =>
    match element with
    | None => ret Invalid_input
    | Some _ => ret success
    end.

Definition EqualKeyString {W}
  : EqualFunction (list Ascii.ascii) (list Ascii.ascii) W :=
  fun keyStr StrToEqual _ =>
    match keyStr, StrToEqual with
    | Some s1, Some s2 => Some (strcmp s1 s2 =? 0)
    | _, _ => Some false
    end.

Section Chars.
(** Whether [char] has a sign is up to the platform. *)
Variable char_is_signed : bool.

(** [(int) str[i]] *)
Definition char_to_int (c : Ascii.ascii) : Z :=
  if char_is_signed && (128 <=? code c) then code c - 256 else code c.

(** [for (int i = 0; i < strlen(str); i++) AsciiCounter += (int) str[i];]
    where [i] is compared as a [size_t]. *)
Fixpoint transStrToInt_for (fuel : nat) (str : list Ascii.ascii)
    (i AsciiCounter : Z) : option Z :=
  match fuel with
  | O => None
  | S fuel' =>
      if to_size_t i <? strlen str then
        match (if 0 <=? i then str !! Z.to_nat i else None) with
        | Some c =>
            transStrToInt_for fuel' str (wrap_int (i + 1))
              (wrap_int (AsciiCounter + char_to_int c))
        | None => None
        end
      else Some AsciiCounter
  end.

Definition transStrToInt {W}
  : TransformIntoNumberFunction (list Ascii.ascii) W :=
  fun element _ =>
    match element with
    | None => Some (-1)
    | Some str => transStrToInt_for (S (Z.to_nat (strlen str))) str 0 0
    end.
End Chars.

End StringKeys.

(** ** A client of the containers, used for examples

    Elements and keys are numbers; the memory of the callbacks is a count of
    the copies that are alive. *)

Module Examples.
Import LinkedList.

Definition copy_nat : CopyFunction nat Z :=
  fun d live => Some (d, live + 1).
Definition free_nat : FreeFunction nat Z :=
  fun d live => Some (success, live - 1).
Definition print_nat : PrintFunction nat Z :=
  fun d live => Some (success, live).
Definition equal_nat : EqualFunction nat nat Z :=
  fun a b _ =>
    match a, b with
    | Some x, Some y => Some (Nat.eqb x y)
    | _, _ => Some false
    end.

(** The state a computation ends in. *)
Definition after {S A} (m : M S A) (s : S) : S :=
  match m s with Some (_, s') => s' | None => s end.

Definition list_s0 : lstate nat nat Z := mkLstate ∅ 0 [].
Definition list_l : loc := 1%positive.
Definition list_s1 :=
  after (createLinkedList (Some copy_nat) (Some free_nat) (Some print_nat)
                          (Some equal_nat)) list_s0.
Definition list_s2 := after (appendNode (Some list_l) (Some 10%nat)) list_s1.
Definition list_s3 := after (appendNode (Some list_l) (Some 20%nat)) list_s2.

(** A list of three elements, laid out by hand. *)
Definition three_nodes : gmap loc (node_s nat) :=
  list_to_map [(1%positive, mkNode (Some 2%positive) None (Some 10%nat));
               (2%positive, mkNode (Some 3%positive) (Some 1%positive)
                                   (Some 20%nat));
               (3%positive, mkNode None (Some 2%positive) (Some 30%nat))].
Definition three : LinkedList_s nat nat Z :=
  mkList three_nodes (Some 1%positive) (Some 3%positive) 3
         copy_nat free_nat print_nat equal_nat.
Definition three_seq : list (loc * option nat) :=
  [(1%positive, Some 10%nat); (2%positive, Some 20%nat);
   (3%positive, Some 30%nat)].
Definition three_state : lstate nat nat Z :=
  mkLstate {[ 5%positive := three ]} 3 [].

(** A table of numbers: thirteen buckets, a key is hashed to itself. *)
Import KeyValuePair HashTable.

Definition number_nat : TransformIntoNumberFunction nat Z :=
  fun k _ =>
    match k with
    | Some n => Some (Z.of_nat n)
    | None => Some (-1)
    end.

(** The memory in which the second allocation of a list fails. *)
Definition leak_s0 : htstate nat nat Z :=
  mkHtstate ∅ ∅ [] (mkLstate ∅ (mkKvstate ∅ 0 []) [true; false]).

Definition table_s0 : htstate nat nat Z :=
  mkHtstate ∅ ∅ [] (mkLstate ∅ (mkKvstate ∅ 0 []) []).
Definition table_t : loc := 1%positive.
Definition table_T : hashTable_s nat nat Z :=
  mkTable (Some (fresh (dom (arrays table_s0)))) 13 0 number_nat
          copy_nat free_nat print_nat copy_nat free_nat print_nat equal_nat.
Definition table_s1 :=
  after (createHashTable (Some copy_nat) (Some free_nat) (Some print_nat)
           (Some copy_nat) (Some free_nat) (Some print_nat) (Some equal_nat)
           (Some number_nat) 13) table_s0.
Definition table_s2 :=
  after (addToHashTable (Some table_t) (Some 5%nat) (Some 50%nat)) table_s1.
Definition table_s3 :=
  after (removeFromHashTable (Some table_t) (Some 5%nat)) table_s2.

(** A table of lists of numbers: the key 5 is given the values 50 and 51,
    which are then removed one after the other. *)
Import MultiValueHashTable.

Definition multi_s0 : mstate nat nat Z :=
  mkMstate ∅ []
    (mkHtstate ∅ ∅ [] (mkLstate ∅ (mkKvstate ∅ (mkLstate ∅ 0 []) []) [])).
Definition multi_m : loc := 1%positive.
Definition multi_s1 :=
  after (createMultiValueHashTable (Some copy_nat) (Some free_nat)
           (Some print_nat) (Some copy_nat) (Some free_nat) (Some print_nat)
           (Some equal_nat) (Some equal_nat) (Some number_nat) 13) multi_s0.
Definition multi_s2 :=
  after (addToMultiValueHashTable (Some multi_m) (Some 5%nat) (Some 50%nat))
        multi_s1.
Definition multi_s3 :=
  after (addToMultiValueHashTable (Some multi_m) (Some 5%nat) (Some 51%nat))
        multi_s2.
Definition multi_s4 :=
  after (removeFromMultiValueHashTable (Some multi_m) (Some 5%nat)
           (Some 50%nat)) multi_s3.
Definition multi_s5 :=
  after (removeFromMultiValueHashTable (Some multi_m) (Some 5%nat)
           (Some 51%nat)) multi_s4.

(** The list of the values of the key 5 once 50 has been removed. *)
Definition multi_vl : loc := 1%positive.
Definition multi_VL : LinkedList_s nat nat Z :=
  mkList {[ 2%positive := mkNode None None (Some 51%nat) ]}
         (Some 2%positive) (Some 2%positive) 1
         copy_nat free_nat print_nat equal_nat.

Import LinkedList.
(** The list of three elements when no memory is left. *)
Definition three_no_memory : lstate nat nat Z :=
  mkLstate {[ 5%positive := three ]} 3 [false].
(** 10 and 20 are appended and 10 is deleted. *)
Definition list_s3d :=
  after (deleteNode (Some list_l) (Some 10%nat)) list_s3.

(** Pairs of numbers. *)
Import KeyValuePair.
Definition pair_s0 : kvstate nat nat Z := mkKvstate ∅ 0 [].
Definition pair_s1 :=
  after (createKeyValuePair (Some 5%nat) (Some 50%nat) (Some copy_nat)
           (Some free_nat) (Some print_nat) (Some copy_nat) (Some free_nat)
           (Some print_nat) (Some equal_nat)) pair_s0.

(** The table of numbers after 5 and 18, which share a bucket, are added,
    5 is removed and 5 is added with another value. *)
Import HashTable.
Definition table_s4 :=
  after (addToHashTable (Some table_t) (Some 18%nat) (Some 180%nat)) table_s2.
Definition table_s5 :=
  after (removeFromHashTable (Some table_t) (Some 5%nat)) table_s4.
Definition table_s6 :=
  after (addToHashTable (Some table_t) (Some 5%nat) (Some 51%nat)) table_s5.
(** The lists of the values of the key 5 when 50 has been added, and when
    50 and 51 have been added; 51 is then removed. *)
Import MultiValueHashTable.
Definition multi_VL50 : LinkedList_s nat nat Z :=
  mkList {[ 1%positive := mkNode None None (Some 50%nat) ]}
         (Some 1%positive) (Some 1%positive) 1
         copy_nat free_nat print_nat equal_nat.
Definition multi_VL2 : LinkedList_s nat nat Z :=
  mkList {[ 1%positive := mkNode (Some 2%positive) None (Some 50%nat);
            2%positive := mkNode None (Some 1%positive) (Some 51%nat) ]}
         (Some 1%positive) (Some 2%positive) 2
         copy_nat free_nat print_nat equal_nat.
(** 18 shares the bucket of 5. *)
Definition multi_s3c :=
  after (addToMultiValueHashTable (Some multi_m) (Some 18%nat)
           (Some 180%nat)) multi_s2.
Definition multi_s4b :=
  after (removeFromMultiValueHashTable (Some multi_m) (Some 5%nat)
           (Some 51%nat)) multi_s3.


Import LinkedList KeyValuePair HashTable.
(** Keys that are strings: two strings of the same characters, the first
    with characters after its end, and a string of two characters above
    127.  The memory of the callbacks is the [malloc] schedule. *)
Definition string_cat : list Ascii.ascii :=
  Ascii.ascii_of_nat <$> [99; 97; 116; 0; 120]%nat.
Definition string_act : list Ascii.ascii :=
  Ascii.ascii_of_nat <$> [97; 99; 116]%nat.
Definition string_high : list Ascii.ascii :=
  Ascii.ascii_of_nat <$> [195; 169]%nat.
Definition print_quiet {E} : PrintFunction E (list bool) :=
  fun _ => ret success.
Definition strings_s0 : htstate (list Ascii.ascii) nat (list bool) :=
  mkHtstate ∅ ∅ [] (mkLstate ∅ (mkKvstate ∅ [] []) []).
Definition strings_t : loc := 1%positive.
Definition strings_T : hashTable_s (list Ascii.ascii) nat (list bool) :=
  mkTable (Some (fresh (dom (arrays strings_s0)))) 13 0
          (StringKeys.transStrToInt true)
          StringKeys.CopyKeyString StringKeys.FreeKeyString print_quiet
          StringKeys.ShallowCopy StringKeys.ShallowFree print_quiet
          StringKeys.EqualKeyString.
Definition strings_s1 :=
  after (createHashTable (Some StringKeys.CopyKeyString)
           (Some StringKeys.FreeKeyString) (Some print_quiet)
           (Some StringKeys.ShallowCopy) (Some StringKeys.ShallowFree)
           (Some print_quiet) (Some StringKeys.EqualKeyString)
           (Some (StringKeys.transStrToInt true)) 13) strings_s0.


Import LinkedList KeyValuePair HashTable.
(** The table that holds the key 5 is destroyed. *)
Definition table_s2_destroyed :=
  after (destroyHashTable (Some table_t)) table_s2.
(** The new table when there is no memory for a node, and what adding the
    key 5 leaves of it. *)
Definition table_no_node : htstate nat nat Z :=
  mkHtstate (tables table_s1) (arrays table_s1) (ht_mallocs table_s1)
    (mkLstate (lists (buckets table_s1)) (world (buckets table_s1)) [false]).
Definition table_leaked :=
  after (addToHashTable (Some table_t) (Some 5%nat) (Some 50%nat))
        table_no_node.

End Examples.

(** ** Table-size policy (main program) *)

Module TableSize.

(** The body of [for (int i = 2; i <= sqrt(number); i++)]: [i] is compared
    with the double [sqrt(number)]; for a 32-bit [number] the comparison
    [i <= sqrt(number)] holds exactly when [i <= floor(sqrt number)], which
    is [Z.sqrt].  The loop runs at most [Z.sqrt number] times. *)
Fixpoint CheckPrimeNumber_for (fuel : nat) (number i : Z) : bool :=
  match fuel with
  | O => true
  | S fuel' =>
      if i <=? Z.sqrt number then
        if Z.rem number i =? 0 then false
        else CheckPrimeNumber_for fuel' number (i + 1)
      else true
  end.

Definition CheckPrimeNumber (number : Z) : bool :=
  if number <=? 1 then false
  else if number =? 2 then true
  else CheckPrimeNumber_for (Z.to_nat (Z.sqrt number)) number 2.

(** One turn of [while (!isPrime) { i++; isPrime = CheckPrimeNumber(i); }]:
    [inr i] when the loop exits with [i], [inl i] when it goes on. *)
Definition FindBigger_body (i : Z) : Z + Z :=
  let i' := wrap_int (i + 1) in
  if CheckPrimeNumber i' then inr i' else inl i'.

(** The loop, run for at most [fuel] turns and then continued by [k];
    the fuel is binary so that 2^32 turns can be granted. *)
Fixpoint FindBigger_while (fuel : positive) (k : Z -> option Z) (i : Z)
  : option Z :=
  match fuel with
  | xH =>
      match FindBigger_body i with inr r => Some r | inl i' => k i' end
  | xO fuel' => FindBigger_while fuel' (FindBigger_while fuel' k) i
  | xI fuel' =>
      match FindBigger_body i with
      | inr r => Some r
      | inl i' => FindBigger_while fuel' (FindBigger_while fuel' k) i'
      end
  end.

(** [None] would mean that the loop has not stopped after 2^32 turns,
    that is after [i] has taken every [int] value. *)
Definition FindBiggerPrimeNumber (number : Z) : option Z :=
  if number <? 13 then Some 13
  else FindBigger_while 4294967296%positive (fun _ => None) number.

(** The same loop with unary fuel, used to reason about it. *)
Fixpoint FindBigger_turns (n : nat) (k : Z -> option Z) (i : Z) : option Z :=
  match n with
  | O => k i
  | S n' =>
      match FindBigger_body i with
      | inr r => Some r
      | inl i' => FindBigger_turns n' k i'
      end
  end.

End TableSize.

(** * Properties *)

Lemma wrap_int_id z : in_int z -> wrap_int z = z.
Proof.
  unfold in_int, INT_MIN, INT_MAX, wrap_int. intros Hz.
  rewrite Z.mod_small; lia.
Qed.

Lemma wrap_int_add_l z k : wrap_int (wrap_int z + k) = wrap_int (z + k).
Proof.
  unfold wrap_int.
  replace ((z + 2 ^ 31) mod 2 ^ 32 - 2 ^ 31 + k + 2 ^ 31)
    with ((z + 2 ^ 31) mod 2 ^ 32 + k) by lia.
  rewrite Zplus_mod_idemp_l. f_equal. f_equal. lia.
Qed.

Lemma wrap_int_sub_l z k : wrap_int (wrap_int z - k) = wrap_int (z - k).
Proof. apply (wrap_int_add_l z (- k)). Qed.

Lemma wrap_int_0 : wrap_int 0 = 0.
Proof. reflexivity. Qed.

Module TableSizeFacts.
Import TableSize.

Lemma CheckPrimeNumber_for_true fuel number i :
  CheckPrimeNumber_for fuel number i = true ->
  Z.sqrt number - i < Z.of_nat fuel ->
  forall j, i <= j <= Z.sqrt number -> Z.rem number j <> 0.
Proof.
  revert i. induction fuel as [|fuel IH]; intros i Hrun Hfuel j Hj.
  - lia.
  - simpl in Hrun.
    destruct (Z.leb_spec i (Z.sqrt number)); [|lia].
    destruct (Z.eqb_spec (Z.rem number i) 0); [discriminate|].
    destruct (Z.eq_dec j i) as [->|Hne]; [assumption|].
    apply (IH (i + 1)); [assumption|lia|lia].
Qed.

Lemma CheckPrimeNumber_for_false fuel number i :
  CheckPrimeNumber_for fuel number i = false ->
  exists j, i <= j <= Z.sqrt number /\ Z.rem number j = 0.
Proof.
  revert i. induction fuel as [|fuel IH]; intros i Hrun; [discriminate|].
  simpl in Hrun.
  destruct (Z.leb_spec i (Z.sqrt number)); [|discriminate].
  destruct (Z.eqb_spec (Z.rem number i) 0) as [Hz|Hnz].
  - exists i. split; [lia|assumption].
  - destruct (IH _ Hrun) as (j & Hj & Hr). exists j. split; [lia|assumption].
Qed.

(** A proper divisor of [n] comes with a cofactor, and one of the two is at
    most the square root. *)
Lemma small_divisor n d :
  1 < d < n -> (d | n) ->
  exists e, 2 <= e <= Z.sqrt n /\ (e | n).
Proof.
  intros Hd [q Hq].
  assert (Hn : 0 <= n) by lia.
  pose proof (Z.sqrt_spec n Hn) as Hs. cbv zeta in Hs.
  assert (Hs0 : 0 <= Z.sqrt n) by apply Z.sqrt_nonneg.
  assert (Hq1 : 1 < q) by nia.
  destruct (Z.le_gt_cases d (Z.sqrt n)) as [Hle|Hgt].
  - exists d. split; [lia|]. exists q. assumption.
  - exists q. split.
    + split; [lia|]. nia.
    + exists d. lia.
Qed.

Lemma CheckPrimeNumber_prime n : CheckPrimeNumber n = true <-> Z.prime n.
Proof.
  unfold CheckPrimeNumber, Z.prime.
  destruct (Z.leb_spec n 1) as [Hle|Hgt].
  - split; [discriminate|]. intros [H _]. lia.
  - destruct (Z.eqb_spec n 2) as [->|Hne].
    + split; [|reflexivity]. intros _. split; [lia|]. intros m Hm. lia.
    + assert (Hs : 0 <= Z.sqrt n) by apply Z.sqrt_nonneg.
      split.
      * intros Hrun. split; [assumption|]. intros d Hd Hdiv.
        destruct (small_divisor n d Hd Hdiv) as (e & He & Hediv).
        apply (CheckPrimeNumber_for_true _ _ _ Hrun) with (j := e); [lia|lia|].
        apply Z.rem_divide; [lia|assumption].
      * intros [_ Hp].
        destruct (CheckPrimeNumber_for (Z.to_nat (Z.sqrt n)) n 2) eqn:Hrun;
          [reflexivity|].
        destruct (CheckPrimeNumber_for_false _ _ _ Hrun) as (j & Hj & Hr).
        exfalso. apply (Hp j).
        -- pose proof (Z.sqrt_spec n ltac:(lia)) as Hsq. cbv zeta in Hsq. nia.
        -- apply Z.rem_divide; [lia|assumption].
Qed.

Lemma FindBigger_turns_ext n k k' i :
  (forall j, k j = k' j) -> FindBigger_turns n k i = FindBigger_turns n k' i.
Proof.
  intros Hk. revert i. induction n as [|n IH]; intros i; simpl; [apply Hk|].
  destruct (FindBigger_body i); [apply IH|reflexivity].
Qed.

Lemma FindBigger_turns_add a b k i :
  FindBigger_turns (a + b) k i = FindBigger_turns a (FindBigger_turns b k) i.
Proof.
  revert i. induction a as [|a IH]; intros i; simpl; [reflexivity|].
  destruct (FindBigger_body i); [apply IH|reflexivity].
Qed.

Lemma FindBigger_while_turns fuel k i :
  FindBigger_while fuel k i = FindBigger_turns (Pos.to_nat fuel) k i.
Proof.
  revert k i. induction fuel as [fuel IH|fuel IH|]; intros k i.
  - rewrite Pos2Nat.inj_xI. simpl.
    destruct (FindBigger_body i) as [i'|r]; [|reflexivity].
    rewrite IH, Nat.add_0_r, FindBigger_turns_add.
    apply FindBigger_turns_ext. intros j. apply IH.
  - rewrite Pos2Nat.inj_xO. simpl.
    rewrite IH, Nat.add_0_r, FindBigger_turns_add.
    apply FindBigger_turns_ext. intros j. apply IH.
  - reflexivity.
Qed.

(** From [i], the loop stops at the first [p > i] that passes the test,
    provided no increment on the way overflows. *)
Lemma FindBigger_turns_reach n k i p :
  INT_MIN <= i -> i < p -> p <= INT_MAX ->
  CheckPrimeNumber p = true ->
  (forall j, i < j < p -> CheckPrimeNumber j = false) ->
  p - i <= Z.of_nat n ->
  FindBigger_turns n k i = Some p.
Proof.
  revert i. induction n as [|n IH]; intros i Hlo Hip Hhi Hp Hbelow Hfuel.
  - lia.
  - simpl. unfold FindBigger_body.
    rewrite wrap_int_id by (unfold in_int; lia).
    destruct (Z.eq_dec (i + 1) p) as [->|Hne].
    + rewrite Hp. reflexivity.
    + rewrite (Hbelow (i + 1)) by lia.
      apply IH; try lia; [assumption|].
      intros j Hj. apply Hbelow. lia.
Qed.

(** Below a number that passes the test there is a first one that does. *)
Lemma first_CheckPrimeNumber m : forall n b,
  n < b -> b - n <= Z.of_nat m -> CheckPrimeNumber b = true ->
  exists p, n < p <= b /\ CheckPrimeNumber p = true /\
            forall j, n < j < p -> CheckPrimeNumber j = false.
Proof.
  induction m as [|m IH]; intros n b Hnb Hm Hb; [lia|].
  destruct (CheckPrimeNumber (n + 1)) eqn:Hn1.
  - exists (n + 1). split; [lia|]. split; [assumption|]. intros j Hj. lia.
  - assert (n + 1 < b).
    { destruct (Z.eq_dec (n + 1) b) as [E|E]; [congruence|lia]. }
    destruct (IH (n + 1) b) as (p & Hp & Hpp & Hlt); [lia|lia|assumption|].
    exists p. split; [lia|]. split; [assumption|].
    intros j Hj. destruct (Z.eq_dec j (n + 1)) as [->|E]; [assumption|].
    apply Hlt. lia.
Qed.

Lemma INT_MAX_prime : CheckPrimeNumber INT_MAX = true.
Proof. vm_compute. reflexivity. Qed.

Lemma FindBiggerPrimeNumber_next n :
  13 <= n < INT_MAX ->
  exists p, FindBiggerPrimeNumber n = Some p /\ n < p <= INT_MAX /\
            CheckPrimeNumber p = true /\
            forall j, n < j < p -> CheckPrimeNumber j = false.
Proof.
  intros Hn.
  destruct (first_CheckPrimeNumber (Z.to_nat (INT_MAX - n)) n INT_MAX)
    as (p & Hp & Hpp & Hlt); [lia|lia|apply INT_MAX_prime|].
  exists p. split; [|split; [lia|split; assumption]].
  unfold FindBiggerPrimeNumber.
  destruct (Z.ltb_spec n 13); [lia|].
  rewrite FindBigger_while_turns.
  apply FindBigger_turns_reach; try lia; try assumption.
  - unfold INT_MIN. lia.
  - rewrite positive_nat_Z. unfold INT_MAX in *. lia.
Qed.

Lemma CheckPrimeNumber_small j : j <= 1 -> CheckPrimeNumber j = false.
Proof.
  intros Hj. unfold CheckPrimeNumber. destruct (Z.leb_spec j 1); [reflexivity|lia].
Qed.

(** C1 (as amended). Below 13 the result is 13; from 13 on, and as long as
    [i++] cannot overflow, the result is the smallest prime number strictly
    greater than the argument. *)
Theorem FindBiggerPrimeNumber_next_prime N :
  N < INT_MAX ->
  exists p, FindBiggerPrimeNumber N = Some p /\
            (N < 13 -> p = 13) /\
            (13 <= N ->
             Z.prime p /\ N < p /\ forall q, Z.prime q -> N < q -> p <= q).
Proof.
  intros HN. destruct (Z.lt_ge_cases N 13) as [Hlt|Hge].
  - exists 13. unfold FindBiggerPrimeNumber.
    destruct (Z.ltb_spec N 13); [|lia].
    split; [reflexivity|]. split; [reflexivity|]. lia.
  - destruct (FindBiggerPrimeNumber_next N) as (p & Hrun & Hp & Hpp & Hlt);
      [lia|].
    exists p. split; [assumption|]. split; [lia|]. intros _.
    split; [apply CheckPrimeNumber_prime; assumption|]. split; [lia|].
    intros q Hq HNq. destruct (Z.le_gt_cases p q) as [Hle|Hgt]; [assumption|].
    apply CheckPrimeNumber_prime in Hq. rewrite (Hlt q) in Hq by lia.
    discriminate.
Qed.

Lemma FindBiggerPrimeNumber_next_prime_witness :
  exists p, FindBiggerPrimeNumber 24 = Some p /\
            (24 < 13 -> p = 13) /\
            (13 <= 24 ->
             Z.prime p /\ 24 < p /\ forall q, Z.prime q -> 24 < q -> p <= q).
Proof. apply (FindBiggerPrimeNumber_next_prime 24). unfold INT_MAX. lia. Defined.

(** C1 (as stated) fails at every prime argument from 13 on: at 13 the
    smallest prime greater than or equal to the argument is 13 itself, and
    the function returns 17. *)
Lemma FindBiggerPrimeNumber_13_skips_13 :
  FindBiggerPrimeNumber 13 = Some 17 /\ Z.prime 13 /\ 13 <= 13 < 17.
Proof.
  split; [vm_compute; reflexivity|].
  split; [apply CheckPrimeNumber_prime; vm_compute; reflexivity|lia].
Qed.

Lemma FindBigger_body_INT_MAX : FindBigger_body INT_MAX = inl INT_MIN.
Proof. vm_compute. reflexivity. Qed.

(** C8. The three sample values are as the policy states them; at
    [INT_MAX] the increment [i++] wraps around to [INT_MIN], the loop walks
    up through the negative numbers and stops at 2, which is not
    [>= max(INT_MAX, 13)]. *)
Theorem FindBiggerPrimeNumber_at_INT_MAX :
  FindBiggerPrimeNumber 1 = Some 13 /\
  FindBiggerPrimeNumber 13 = Some 17 /\
  FindBiggerPrimeNumber 25 = Some 29 /\
  FindBiggerPrimeNumber INT_MAX = Some 2 /\
  ~ Z.max INT_MAX 13 <= 2.
Proof.
  split; [vm_compute; reflexivity|].
  split; [vm_compute; reflexivity|].
  split; [vm_compute; reflexivity|].
  split; [|unfold INT_MAX; lia].
  unfold FindBiggerPrimeNumber.
  replace (INT_MAX <? 13) with false by (vm_compute; reflexivity).
  rewrite FindBigger_while_turns.
  destruct (Pos2Nat.is_succ 4294967296) as [m Hm]. rewrite Hm.
  cbn [FindBigger_turns]. rewrite FindBigger_body_INT_MAX.
  apply FindBigger_turns_reach.
  - lia.
  - unfold INT_MIN. lia.
  - unfold INT_MAX. lia.
  - vm_compute. reflexivity.
  - intros j Hj. apply CheckPrimeNumber_small. lia.
  - apply (f_equal Z.of_nat) in Hm. rewrite positive_nat_Z, Nat2Z.inj_succ in Hm.
    unfold INT_MIN. lia.
Qed.

(** Everywhere else the policy holds: below [INT_MAX] the result is a prime
    number that is at least [max(n, 13)]. *)
Lemma FindBiggerPrimeNumber_ge n :
  n < INT_MAX ->
  exists p, FindBiggerPrimeNumber n = Some p /\ Z.prime p /\ Z.max n 13 <= p.
Proof.
  intros Hn. destruct (Z.lt_ge_cases n 13) as [Hlt|Hge].
  - exists 13. unfold FindBiggerPrimeNumber.
    destruct (Z.ltb_spec n 13); [|lia].
    split; [reflexivity|]. split; [|lia].
    apply CheckPrimeNumber_prime. vm_compute. reflexivity.
  - destruct (FindBiggerPrimeNumber_next n) as (p & Hrun & Hp & Hpp & _);
      [lia|].
    exists p. split; [assumption|].
    split; [apply CheckPrimeNumber_prime; assumption|lia].
Qed.

End TableSizeFacts.

(** ** The linked list as a sequence *)

Module LinkedListFacts.
Import LinkedList.

Section Representation.
Context {E : Type}.
Implicit Types (ns : gmap loc (node_s E)) (xs : list (loc * option E)).

(** [dseg ns pv cur xs last nxt]: in the node heap [ns], following [next]
    from [cur] visits exactly the nodes [xs] (address and element) and then
    reaches [nxt]; [pv] is what the first node has for [prev], and [last] is
    the address of the last node visited ([pv] when there is none). *)
Fixpoint dseg ns (pv cur : option loc) xs (last nxt : option loc) : Prop :=
  match xs with
  | [] => cur = nxt /\ last = pv
  | (a, d) :: xs' =>
      cur = Some a /\
      exists nx, ns !! a = Some (mkNode nx pv d) /\
                 dseg ns (Some a) nx xs' last nxt
  end.

Lemma dseg_lookup ns pv cur xs last nxt a :
  dseg ns pv cur xs last nxt -> a ∈ xs.*1 -> is_Some (ns !! a).
Proof.
  revert pv cur. induction xs as [|[b d] xs IH]; intros pv cur Hseg Ha.
  - inversion Ha.
  - destruct Hseg as (_ & nx & Hb & Hrest). cbn in Ha.
    apply elem_of_cons in Ha as [->|Ha]; [eauto|].
    eapply IH; eassumption.
Qed.

(** Writes outside the segment do not disturb it. *)
Lemma dseg_frame ns ns' pv cur xs last nxt :
  (forall a, a ∈ xs.*1 -> ns' !! a = ns !! a) ->
  dseg ns pv cur xs last nxt -> dseg ns' pv cur xs last nxt.
Proof.
  revert pv cur. induction xs as [|[b d] xs IH]; intros pv cur Hsame Hseg.
  - exact Hseg.
  - destruct Hseg as (Hcur & nx & Hb & Hrest). split; [assumption|].
    exists nx. split.
    + rewrite Hsame; [assumption|]. cbn. left.
    + apply IH; [|assumption]. intros a Ha. apply Hsame. cbn. by right.
Qed.

Lemma dseg_app ns pv cur xs ys last nxt :
  dseg ns pv cur (xs ++ ys) last nxt <->
  exists lastx mid, dseg ns pv cur xs lastx mid /\ dseg ns lastx mid ys last nxt.
Proof.
  revert pv cur. induction xs as [|[b d] xs IH]; intros pv cur; cbn.
  - split.
    + intros Hseg. exists pv, cur. by split.
    + intros (lastx & mid & [-> ->] & Hseg). exact Hseg.
  - split.
    + intros (Hcur & nx & Hb & Hrest).
      apply IH in Hrest as (lastx & mid & Hxs & Hys).
      exists lastx, mid. split; [|assumption]. split; [assumption|]. eauto.
    + intros (lastx & mid & (Hcur & nx & Hb & Hxs) & Hys).
      split; [assumption|]. exists nx. split; [assumption|].
      apply IH. eauto.
Qed.

(** The last node of a non-empty segment. *)
Lemma dseg_last ns pv cur xs a d last nxt :
  dseg ns pv cur (xs ++ [(a, d)]) last nxt ->
  last = Some a /\
  exists p, ns !! a = Some (mkNode nxt p d) /\ dseg ns pv cur xs p (Some a).
Proof.
  intros Hseg. apply dseg_app in Hseg as (lastx & mid & Hxs & Hlast).
  destruct Hlast as (-> & nx & Ha & -> & ->).
  split; [reflexivity|]. eauto.
Qed.

Lemma dseg_nil_cur ns pv xs last nxt :
  dseg ns pv None xs last nxt -> xs = [] /\ nxt = None /\ last = pv.
Proof.
  destruct xs as [|[a d] xs]; cbn.
  - by intros [<- ->].
  - intros [? _]. discriminate.
Qed.

(** Redirecting [next] of the last node. *)
Lemma dseg_set_next_last ns pv cur xs a d last nxt nxt' :
  NoDup (xs ++ [(a, d)]).*1 ->
  dseg ns pv cur (xs ++ [(a, d)]) last nxt ->
  exists n, ns !! a = Some n /\
    dseg (<[a := set_next nxt' n]> ns) pv cur (xs ++ [(a, d)]) last nxt'.
Proof.
  intros Hnd Hseg. apply dseg_last in Hseg as (-> & p & Ha & Hxs).
  exists (mkNode nxt p d). split; [assumption|].
  apply dseg_app. exists p, (Some a). split.
  - eapply dseg_frame; [|exact Hxs]. intros b Hb.
    rewrite lookup_insert_ne; [reflexivity|]. intros <-.
    rewrite fmap_app in Hnd. apply NoDup_app in Hnd as (_ & Hnd & _).
    apply (Hnd a Hb). cbn. left.
  - cbn. split; [reflexivity|]. exists nxt'.
    rewrite lookup_insert_eq. by split.
Qed.

(** Redirecting [prev] of the first node. *)
Lemma dseg_set_prev_first ns pv pv' a d xs last nxt :
  NoDup ((a, d) :: xs).*1 ->
  dseg ns pv (Some a) ((a, d) :: xs) last nxt ->
  exists n, ns !! a = Some n /\
    dseg (<[a := set_prev pv' n]> ns) pv' (Some a) ((a, d) :: xs) last nxt.
Proof.
  intros Hnd (_ & nx & Ha & Hrest). apply NoDup_cons in Hnd as [Hnotin Hnd].
  exists (mkNode nx pv d). split; [assumption|].
  split; [reflexivity|]. exists nx. rewrite lookup_insert_eq.
  split; [reflexivity|].
  eapply dseg_frame; [|exact Hrest]. intros b Hb.
  rewrite lookup_insert_ne; [reflexivity|]. by intros <-.
Qed.

(** Distinct nodes of a heap are at most as many as the heap has. *)
Lemma NoDup_length_le_size ns (l : list loc) :
  NoDup l -> (forall a, a ∈ l -> is_Some (ns !! a)) ->
  (length l <= size ns)%nat.
Proof.
  revert ns. induction l as [|a l IH]; intros ns Hnd Hin; cbn; [lia|].
  apply NoDup_cons in Hnd as [Hnotin Hnd].
  destruct (Hin a) as [n Hn]; [left|].
  pose proof (map_size_delete a ns) as Hsize. rewrite Hn in Hsize.
  assert (size ns <> 0%nat).
  { intros Hz. apply map_size_empty_inv in Hz. subst ns.
    by rewrite lookup_empty in Hn. }
  specialize (IH (delete a ns) Hnd).
  assert (length l <= size (delete a ns))%nat; [|lia].
  apply IH. intros b Hb. rewrite lookup_delete_ne; [|by intros <-].
  apply Hin. by right.
Qed.

Lemma dseg_first_in ns pv cur xs last nxt :
  dseg ns pv cur xs last nxt -> xs <> [] ->
  exists a, cur = Some a /\ a ∈ xs.*1.
Proof.
  destruct xs as [|[a d] xs]; [done|]. intros (-> & _) _.
  exists a. split; [reflexivity|]. cbn. left.
Qed.

Lemma dseg_last_in ns pv cur xs last nxt :
  dseg ns pv cur xs last nxt -> xs <> [] ->
  exists a, last = Some a /\ a ∈ xs.*1.
Proof.
  destruct xs as [|x xs _] using rev_ind; [done|]. destruct x as [a d].
  intros Hseg _. apply dseg_last in Hseg as (-> & _).
  exists a. split; [reflexivity|]. rewrite fmap_app. cbn.
  apply elem_of_app. right. left.
Qed.

(** A sequence laid out without repetition, cut at one of its nodes. *)
Lemma dseg_split ns pv cur xs1 c d xs2 last nxt :
  dseg ns pv cur (xs1 ++ (c, d) :: xs2) last nxt ->
  NoDup (xs1 ++ (c, d) :: xs2).*1 ->
  exists pc nx,
    dseg ns pv cur xs1 pc (Some c) /\
    ns !! c = Some (mkNode nx pc d) /\
    dseg ns (Some c) nx xs2 last nxt /\
    (c ∉ xs1.*1) /\ (c ∉ xs2.*1) /\ NoDup xs1.*1 /\ NoDup xs2.*1 /\
    (forall a, a ∈ xs1.*1 -> a ∉ xs2.*1).
Proof.
  intros Hseg Hnd. apply dseg_app in Hseg as (pc & mid & Hxs1 & Hrest).
  destruct Hrest as (-> & nx & Hc & Hxs2).
  rewrite fmap_app in Hnd. cbn in Hnd.
  apply NoDup_app in Hnd as (Hnd1 & Hdisj & Hnd2).
  apply NoDup_cons in Hnd2 as [Hc2 Hnd2].
  exists pc, nx. repeat split; try assumption.
  - intros Hin. apply (Hdisj c Hin). left.
  - intros a Ha Ha2. apply (Hdisj a Ha). by right.
Qed.

End Representation.

(** What is left of [xs1 ++ x :: xs2] once [deleteNode] has removed [x]:
    the other elements, unless the decremented [int] counter reads 0, in
    which case [head] and [tail] are reset.  For a list of at most
    [INT_MAX] elements the counter reads 0 only when nothing is left. *)
Definition after_delete {A} (xs1 xs2 : list A) : list A :=
  if wrap_int (Z.of_nat (length xs1 + S (length xs2)) - 1) =? 0 then []
  else xs1 ++ xs2.

Lemma after_delete_small {A} (xs1 xs2 : list A) :
  Z.of_nat (length xs1 + S (length xs2)) <= INT_MAX ->
  after_delete xs1 xs2 = xs1 ++ xs2.
Proof.
  intros Hlen. unfold after_delete.
  rewrite wrap_int_id by (unfold in_int, INT_MIN, INT_MAX in *; lia).
  destruct (Z.eqb_spec (Z.of_nat (length xs1 + S (length xs2)) - 1) 0) as [Hz|];
    [|reflexivity].
  destruct xs1; [|cbn in Hz; lia]. destruct xs2; [reflexivity|cbn in Hz; lia].
Qed.

Lemma after_delete_fmap {A B} (f : A -> B) (xs1 xs2 : list A) :
  after_delete (f <$> xs1) (f <$> xs2) = f <$> after_delete xs1 xs2.
Proof.
  unfold after_delete. rewrite !length_fmap.
  destruct (_ =? 0); [reflexivity|]. by rewrite fmap_app.
Qed.

Lemma after_delete_elem {A} (xs1 xs2 : list A) x :
  x ∈ after_delete xs1 xs2 -> x ∈ xs1 ++ xs2.
Proof.
  unfold after_delete. destruct (_ =? 0); [|done]. intros H. inversion H.
Qed.

Lemma after_delete_NoDup {A B} (f : A -> B) (xs1 xs2 : list A) x :
  NoDup (f <$> xs1 ++ x :: xs2) -> NoDup (f <$> after_delete xs1 xs2).
Proof.
  intros Hnd. unfold after_delete. destruct (_ =? 0); [apply NoDup_nil_2|].
  rewrite fmap_app in *. rewrite fmap_cons in Hnd.
  apply NoDup_app in Hnd as (H1 & H2 & H3).
  apply NoDup_cons in H3 as [_ H3].
  apply NoDup_app. split; [done|]. split; [|done].
  intros y Hy Hy'. apply (H2 y Hy). by right.
Qed.

Lemma after_delete_cases {A} (xs1 xs2 : list A) :
  after_delete xs1 xs2 = [] \/ after_delete xs1 xs2 = xs1 ++ xs2.
Proof. unfold after_delete. destruct (_ =? 0); auto. Qed.

(** Symbolic execution of the straight-line parts. *)
Ltac run :=
  repeat (progress (
    unfold bind, ret, undef, deref, get_self, upd_self, node_at, upd_node,
           free_node, call, call_equal, malloc;
    cbn [self env budget
         nodes head tail count_elements copyElement freeElement printElement
         equal set_nodes set_head set_tail set_count set_next set_prev
         next prev data lists world mallocs])).

Section Specs.
Context {E P W : Type}.
Implicit Types (L : LinkedList_s E P W) (xs : list (loc * option E)).
Implicit Types (w : W) (b : list bool) (s : lstate E P W).

(** The structure [L] represents the sequence [xs]; the counter is kept in
    an [int]. *)
Definition list_rep L xs : Prop :=
  dseg (nodes L) None (head L) xs (tail L) None /\
  NoDup xs.*1 /\
  count_elements L = wrap_int (Z.of_nat (length xs)).

Definition same_ops L L' : Prop :=
  copyElement L' = copyElement L /\ freeElement L' = freeElement L /\
  printElement L' = printElement L /\ equal L' = equal L.

Lemma same_ops_refl L : same_ops L L.
Proof. by repeat split. Qed.

Lemma list_rep_length_le_size L xs :
  list_rep L xs -> (length xs <= size (nodes L))%nat.
Proof.
  intros (Hseg & Hnd & _). rewrite <- (length_fmap fst xs).
  apply NoDup_length_le_size; [assumption|].
  intros a Ha. eapply dseg_lookup; eassumption.
Qed.

(** *** searchByKeyInList *)

Lemma searchByKeyInList_while_miss fuel L w b key xs pv cur last :
  dseg (nodes L) pv cur xs last None ->
  (length xs < fuel)%nat ->
  Forall (fun x => equal L x.2 key w = Some false) xs ->
  searchByKeyInList_while fuel key cur (mkFocus L w b)
  = Some (None, mkFocus L w b).
Proof.
  revert fuel pv cur. induction xs as [|[a d] xs IH];
    intros fuel pv cur Hseg Hfuel Hall.
  - destruct Hseg as [-> _]. by destruct fuel.
  - destruct Hseg as (-> & nx & Ha & Hrest).
    destruct fuel as [|fuel]; [cbn in Hfuel; lia|].
    apply Forall_cons in Hall as [Hd Hall]. cbn in Hd.
    cbn [searchByKeyInList_while]. run. rewrite Ha. run. rewrite Hd.
    eapply IH; [eassumption| cbn in Hfuel; lia |assumption].
Qed.

Lemma searchByKeyInList_while_hit fuel L w b key xs1 c d xs2 pv cur last nxt :
  dseg (nodes L) pv cur (xs1 ++ (c, d) :: xs2) last nxt ->
  (length xs1 < fuel)%nat ->
  Forall (fun x => equal L x.2 key w = Some false) xs1 ->
  equal L d key w = Some true ->
  searchByKeyInList_while fuel key cur (mkFocus L w b)
  = match copyElement L d w with
    | Some (r, w') => Some (r, mkFocus L w' b)
    | None => None
    end.
Proof.
  revert fuel pv cur. induction xs1 as [|[a e] xs1 IH];
    intros fuel pv cur Hseg Hfuel Hall Hd.
  - destruct Hseg as (-> & nx & Hc & Hrest).
    destruct fuel as [|fuel]; [cbn in Hfuel; lia|].
    cbn [searchByKeyInList_while]. run. rewrite Hc. run. rewrite Hd. run.
    destruct (copyElement L d w) as [[[r|] w']|]; reflexivity.
  - destruct Hseg as (-> & nx & Ha & Hrest).
    destruct fuel as [|fuel]; [cbn in Hfuel; lia|].
    apply Forall_cons in Hall as [He Hall]. cbn in He.
    cbn [searchByKeyInList_while]. run. rewrite Ha. run. rewrite He.
    eapply IH; [eassumption| cbn in Hfuel; lia |assumption|assumption].
Qed.

Lemma lstate_eta s : mkLstate (lists s) (world s) (mallocs s) = s.
Proof. by destruct s. Qed.

Lemma searchByKeyInList_miss l key s L xs :
  lists s !! l = Some L -> list_rep L xs ->
  Forall (fun x => equal L x.2 (Some key) (world s) = Some false) xs ->
  searchByKeyInList (Some l) (Some key) s = Some (None, s).
Proof.
  intros Hl Hrep Hall. unfold searchByKeyInList, with_list. rewrite Hl. run.
  rewrite (searchByKeyInList_while_miss _ _ _ _ _ xs None (head L) (tail L));
    [|apply Hrep|pose proof (list_rep_length_le_size _ _ Hrep); lia|assumption].
  run. rewrite insert_id by assumption. by rewrite lstate_eta.
Qed.

Lemma searchByKeyInList_hit l key s L xs1 c d xs2 :
  lists s !! l = Some L -> list_rep L (xs1 ++ (c, d) :: xs2) ->
  Forall (fun x => equal L x.2 (Some key) (world s) = Some false) xs1 ->
  equal L d (Some key) (world s) = Some true ->
  searchByKeyInList (Some l) (Some key) s
  = match copyElement L d (world s) with
    | Some (r, w') => Some (r, mkLstate (lists s) w' (mallocs s))
    | None => None
    end.
Proof.
  intros Hl Hrep Hall Hd. unfold searchByKeyInList, with_list. rewrite Hl. run.
  rewrite (searchByKeyInList_while_hit _ _ _ _ _ xs1 c d xs2 None (head L)
             (tail L) None); [|apply Hrep| |assumption|assumption].
  - destruct (copyElement L d (world s)) as [[r w']|]; [|reflexivity].
    run. by rewrite insert_id.
  - pose proof (list_rep_length_le_size _ _ Hrep) as Hlen.
    rewrite length_app in Hlen. cbn in Hlen. lia.
Qed.

(** *** deleteNode *)

Lemma deleteNode_while_miss fuel L w b key xs pv cur last :
  dseg (nodes L) pv cur xs last None ->
  (length xs < fuel)%nat ->
  Forall (fun x => equal L x.2 key w = Some false) xs ->
  deleteNode_while fuel key cur (mkFocus L w b)
  = Some (no_element, mkFocus L w b).
Proof.
  revert fuel pv cur. induction xs as [|[a d] xs IH];
    intros fuel pv cur Hseg Hfuel Hall.
  - destruct Hseg as [-> _]. by destruct fuel.
  - destruct Hseg as (-> & nx & Ha & Hrest).
    destruct fuel as [|fuel]; [cbn in Hfuel; lia|].
    apply Forall_cons in Hall as [Hd Hall]. cbn in Hd.
    cbn [deleteNode_while]. run. rewrite Ha. run. rewrite Hd.
    eapply IH; [eassumption| cbn in Hfuel; lia |assumption].
Qed.

(** The walk passes over the nodes that do not match. *)
Lemma deleteNode_while_skip fuel L w b key xs pv cur last nxt :
  dseg (nodes L) pv cur xs last nxt ->
  Forall (fun x => equal L x.2 key w = Some false) xs ->
  deleteNode_while (length xs + fuel) key cur (mkFocus L w b)
  = deleteNode_while fuel key nxt (mkFocus L w b).
Proof.
  revert pv cur. induction xs as [|[a d] xs IH]; intros pv cur Hseg Hall.
  - destruct Hseg as [-> _]. reflexivity.
  - destruct Hseg as (-> & nx & Ha & Hrest).
    apply Forall_cons in Hall as [Hd Hall]. cbn in Hd.
    cbn [length Nat.add deleteNode_while]. run. rewrite Ha. run. rewrite Hd.
    eapply IH; eassumption.
Qed.

Lemma deleteNode_unlink_spec L w b xs1 c d xs2 pc nx :
  list_rep L (xs1 ++ (c, d) :: xs2) ->
  nodes L !! c = Some (mkNode nx pc d) ->
  exists L1,
    deleteNode_unlink c (mkNode nx pc d) (mkFocus L w b)
    = Some (tt, mkFocus L1 w b) /\
    same_ops L L1 /\ count_elements L1 = count_elements L /\
    is_Some (nodes L1 !! c) /\
    (xs1 ++ xs2 <> [] ->
     dseg (delete c (nodes L1)) None (head L1) (xs1 ++ xs2) (tail L1) None).
Proof.
  intros (Hseg & Hnd & Hcount) Hc.
  destruct (dseg_split _ _ _ _ _ _ _ _ _ Hseg Hnd)
    as (pc' & nx' & Hxs1 & Hc' & Hxs2 & Hc1 & Hc2 & Hnd1 & Hnd2 & Hdisj).
  rewrite Hc in Hc'. injection Hc' as <- <-.
  unfold deleteNode_unlink. run.
  destruct xs1 as [|[p dp] xs1 _] using rev_ind.
  - (* the node is the head *)
    destruct Hxs1 as [Hhead ->]. rewrite Hhead.
    rewrite bool_decide_eq_true_2 by reflexivity.
    destruct xs2 as [|[a2 d2] xs2].
    + destruct Hxs2 as [-> Htail]. run.
      exists L. split_and!; [done|by repeat split|done|by eexists|done].
    + pose proof Hxs2 as (-> & nx2 & Ha2 & Hrest). run. rewrite Ha2. run.
      eexists. split; [reflexivity|]. run.
      assert (a2 <> c). { intros ->. apply Hc2. cbn. left. }
      split; [by repeat split|]. split; [reflexivity|]. split.
      * rewrite lookup_insert_ne by done. by eexists.
      * intros _. cbn [app].
        destruct (dseg_set_prev_first _ _ None _ _ _ _ _ Hnd2 Hxs2)
          as (n2 & Hn2 & Hnew).
        rewrite Ha2 in Hn2. injection Hn2 as <-.
        eapply dseg_frame; [|exact Hnew]. intros a Ha.
        rewrite lookup_delete_ne; [reflexivity|]. by intros <-.
  - (* the node has a predecessor *)
    pose proof (dseg_last _ _ _ _ _ _ _ _ Hxs1) as (-> & pp & Hp & Hxs1').
    assert (p <> c).
    { intros ->. apply Hc1. rewrite fmap_app. apply elem_of_app. right. left. }
    destruct (dseg_first_in _ _ _ _ _ _ Hxs1) as (h & Hhead & Hh);
      [by destruct xs1|].
    rewrite Hhead.
    rewrite bool_decide_eq_false_2 by (intros [= ->]; contradiction).
    destruct (dseg_set_next_last _ _ _ _ _ _ _ _ nx Hnd1 Hxs1)
      as (np & Hnp & Hnew1).
    rewrite Hp in Hnp. injection Hnp as <-.
    destruct xs2 as [|[a2 d2] xs2].
    + (* the node is the tail *)
      destruct Hxs2 as [-> Htail]. rewrite Htail.
      rewrite bool_decide_eq_true_2 by reflexivity.
      run. rewrite Hp. run.
      eexists. split; [reflexivity|]. run.
      split; [by repeat split|]. split; [reflexivity|]. split.
      * rewrite lookup_insert_ne by done. by eexists.
      * intros _. rewrite app_nil_r.
        eapply dseg_frame; [|exact Hnew1]. intros a Ha.
        rewrite lookup_delete_ne; [reflexivity|]. by intros <-.
    + (* the node is in the middle *)
      pose proof Hxs2 as (-> & nx2 & Ha2 & Hrest).
      destruct (dseg_last_in _ _ _ _ _ _ Hxs2) as (t & Htail & Ht); [done|].
      rewrite Htail.
      rewrite bool_decide_eq_false_2 by (intros [= ->]; contradiction).
      assert (a2 <> c). { intros ->. apply Hc2. cbn. left. }
      assert (a2 <> p).
      { intros ->. eapply Hdisj; [|cbn; left].
        rewrite fmap_app. apply elem_of_app. right. left. }
      run. rewrite Hp. run. rewrite lookup_insert_ne by done.
      rewrite Ha2. run.
      eexists. split; [reflexivity|]. run.
      split; [by repeat split|]. split; [reflexivity|]. split.
      * rewrite !lookup_insert_ne by done. by eexists.
      * intros _. apply dseg_app. exists (Some p), (Some a2). split.
        -- eapply dseg_frame; [|exact Hnew1]. intros a Ha.
           assert (a <> c) by (by intros ->).
           assert (a <> a2).
           { intros ->. eapply Hdisj; [exact Ha|cbn; left]. }
           rewrite lookup_delete_ne by done.
           by rewrite lookup_insert_ne by done.
        -- destruct (dseg_set_prev_first _ _ (Some p) _ _ _ _ _ Hnd2 Hxs2)
             as (n2 & Hn2 & Hnew2).
           rewrite Ha2 in Hn2. injection Hn2 as <-.
           eapply dseg_frame; [|exact Hnew2]. intros a Ha.
           assert (a <> c) by (by intros ->).
           rewrite lookup_delete_ne by done.
           destruct (decide (a = a2)) as [->|Hne].
           ++ by rewrite !lookup_insert_eq.
           ++ assert (a <> p).
              { intros ->. eapply Hdisj; [|exact Ha].
                rewrite fmap_app. apply elem_of_app. right. left. }
              by rewrite !lookup_insert_ne by congruence.
Qed.

Lemma deleteNode_while_hit fuel L w b key xs1 c d xs2 :
  list_rep L (xs1 ++ (c, d) :: xs2) ->
  equal L d key w = Some true ->
  exists L',
    list_rep L' (after_delete xs1 xs2) /\ same_ops L L' /\
    nodes L' !! c = None /\
    deleteNode_while (S fuel) key (Some c) (mkFocus L w b)
    = match freeElement L d w with
      | Some (_, w') => Some (success, mkFocus L' w' b)
      | None => None
      end.
Proof.
  intros Hrep Hd. pose proof Hrep as (Hseg & Hnd & Hcount).
  destruct (dseg_split _ _ _ _ _ _ _ _ _ Hseg Hnd)
    as (pc & nx & Hxs1 & Hc & Hxs2 & Hc1 & Hc2 & Hnd1 & Hnd2 & Hdisj).
  destruct (deleteNode_unlink_spec L w b _ _ _ _ _ _ Hrep Hc)
    as (L1 & Hunlink & Hops & Hcount1 & [n1 Hn1] & Hseg1).
  set (count' := wrap_int (count_elements L1 - 1)).
  set (L2 := set_count count' (set_nodes (delete c (nodes L1)) L1)).
  exists (if count' =? 0 then set_tail None (set_head None L2) else L2).
  assert (Hcount' : count' = wrap_int (Z.of_nat (length xs1 + S (length xs2)) - 1)).
  { unfold count'. rewrite Hcount1, Hcount, wrap_int_sub_l, length_app.
    reflexivity. }
  split; [|split; [|split]].
  - unfold after_delete. rewrite <- Hcount'.
    destruct (Z.eqb_spec count' 0) as [Hz|Hnz].
    + split; [by split|]. split; [apply NoDup_nil_2|]. cbn. by rewrite Hz.
    + assert (xs1 ++ xs2 <> []).
      { intros Hnil. apply app_eq_nil in Hnil as [-> ->].
        apply Hnz. rewrite Hcount'. reflexivity. }
      split; [apply Hseg1; assumption|]. split.
      * rewrite fmap_app. apply NoDup_app. split_and!; assumption.
      * cbn. rewrite Hcount'. f_equal. rewrite length_app.
        rewrite !Nat2Z.inj_add, Nat2Z.inj_succ. lia.
  - destruct Hops as (? & ? & ? & ?).
    destruct (count' =? 0); by repeat split.
  - destruct (count' =? 0); cbn; apply lookup_delete_eq.
  - cbn [deleteNode_while]. run. rewrite Hc. run. rewrite Hd.
    rewrite Hunlink. run.
    destruct (freeElement L d w) as [[st w']|]; [|reflexivity].
    run. rewrite Hn1. run. fold count'. destruct (count' =? 0); reflexivity.
Qed.

Lemma deleteNode_miss l key s L xs :
  lists s !! l = Some L -> list_rep L xs ->
  Forall (fun x => equal L x.2 (Some key) (world s) = Some false) xs ->
  deleteNode (Some l) (Some key) s = Some (no_element, s).
Proof.
  intros Hl Hrep Hall. unfold deleteNode, with_list. rewrite Hl. run.
  rewrite (deleteNode_while_miss _ _ _ _ _ xs None (head L) (tail L));
    [|apply Hrep|pose proof (list_rep_length_le_size _ _ Hrep); lia|assumption].
  run. rewrite insert_id by assumption. by rewrite lstate_eta.
Qed.

Lemma deleteNode_hit l key s L xs1 c d xs2 :
  lists s !! l = Some L -> list_rep L (xs1 ++ (c, d) :: xs2) ->
  Forall (fun x => equal L x.2 (Some key) (world s) = Some false) xs1 ->
  equal L d (Some key) (world s) = Some true ->
  exists L',
    list_rep L' (after_delete xs1 xs2) /\ same_ops L L' /\
    nodes L' !! c = None /\
    deleteNode (Some l) (Some key) s
    = match freeElement L d (world s) with
      | Some (_, w') =>
          Some (success, mkLstate (<[l := L']> (lists s)) w' (mallocs s))
      | None => None
      end.
Proof.
  intros Hl Hrep Hall Hd. pose proof Hrep as (Hseg & Hnd & _).
  destruct (dseg_split _ _ _ _ _ _ _ _ _ Hseg Hnd)
    as (pc & nx & Hxs1 & _).
  pose proof (list_rep_length_le_size _ _ Hrep) as Hlen.
  rewrite length_app in Hlen. cbn in Hlen.
  destruct (deleteNode_while_hit (size (nodes L) - length xs1) L (world s)
              (mallocs s) (Some key) _ _ _ _ Hrep Hd)
    as (L' & Hrep' & Hops & Hfreed & Hrun).
  exists L'. split; [assumption|]. split; [assumption|]. split; [assumption|].
  unfold deleteNode, with_list. rewrite Hl. run.
  replace (S (size (nodes L)))
    with (length xs1 + S (size (nodes L) - length xs1))%nat by lia.
  rewrite (deleteNode_while_skip _ _ _ _ _ _ _ _ _ _ Hxs1 Hall), Hrun.
  by destruct (freeElement L d (world s)) as [[st w']|].
Qed.

(** *** appendNode *)

Lemma set_nodes_id L : set_nodes (nodes L) L = L.
Proof. by destruct L. Qed.

Lemma set_head_id L : set_head (head L) L = L.
Proof. by destruct L. Qed.

Lemma appendNode_spec l e s L xs :
  lists s !! l = Some L -> list_rep L xs ->
  match malloc_outcome (mallocs s) with
  | (false, rest) =>
      appendNode (Some l) (Some e) s
      = Some (Memory_Problem, mkLstate (lists s) (world s) rest)
  | (true, rest) =>
      match copyElement L (Some e) (world s) with
      | None => appendNode (Some l) (Some e) s = None
      | Some (None, w') =>
          appendNode (Some l) (Some e) s
          = Some (Memory_Problem, mkLstate (lists s) w' rest)
      | Some (Some d, w') =>
          exists L',
            list_rep L' (xs ++ [(fresh (dom (nodes L)), Some d)]) /\
            same_ops L L' /\
            appendNode (Some l) (Some e) s
            = Some (success, mkLstate (<[l := L']> (lists s)) w' rest)
      end
  end.
Proof.
  intros Hl (Hseg & Hnd & Hcount).
  set (a := fresh (dom (nodes L))).
  assert (Ha : nodes L !! a = None).
  { apply not_elem_of_dom. apply is_fresh. }
  unfold appendNode, with_list. rewrite Hl. run.
  destruct xs as [|[t dt] xs _] using rev_ind.
  - (* the list is empty *)
    destruct Hseg as [Hhead Htail]. rewrite Hhead. unfold createNode. run.
    destruct (malloc_outcome (mallocs s)) as [[|] rest]; run.
    + destruct (copyElement L (Some e) (world s)) as [[[d|] w']|]; run.
      * fold a. rewrite !lookup_insert_eq. run.
        rewrite !lookup_insert_eq. run. rewrite !lookup_insert_eq. run.
        rewrite !lookup_insert_eq. run.
        eexists. split; [|split; [|reflexivity]].
        -- split; [|split]; cbn.
           ++ split; [reflexivity|]. eexists. rewrite lookup_insert_eq.
              by split.
           ++ apply NoDup_singleton.
           ++ reflexivity.
        -- by repeat split.
      * rewrite <- Hhead, set_head_id, insert_id by assumption. reflexivity.
      * reflexivity.
    + rewrite <- Hhead, set_head_id, insert_id by assumption. reflexivity.
  - (* the list has a tail *)
    pose proof (dseg_last _ _ _ _ _ _ _ _ Hseg) as (Htail & p & Ht & Hxs).
    destruct (dseg_first_in _ _ _ _ _ _ Hseg) as (h & Hhead & Hh);
      [by destruct xs|].
    rewrite Hhead, Htail. unfold createNode. run.
    assert (Hta : t <> a).
    { intros ->. rewrite Ha in Ht. discriminate. }
    assert (Hid : <[t := set_next None (mkNode None p dt)]> (nodes L) = nodes L).
    { apply insert_id. exact Ht. }
    destruct (malloc_outcome (mallocs s)) as [[|] rest]; run.
    + destruct (copyElement L (Some e) (world s)) as [[[d|] w']|]; run.
      * fold a. rewrite lookup_insert_ne by done. rewrite Ht. run.
        rewrite lookup_insert_ne by done. rewrite lookup_insert_eq. run.
        rewrite !lookup_insert_eq. run.
        eexists. split; [|split; [|reflexivity]].
        -- split; [|split]; run.
           ++ apply dseg_app. exists (Some t), (Some a). split.
              ** destruct (dseg_set_next_last _ _ _ _ _ _ _ _ (Some a) Hnd Hseg)
                   as (nt & Hnt & Hnew).
                 rewrite Ht in Hnt. injection Hnt as <-. rewrite Htail in Hnew.
                 eapply dseg_frame; [|exact Hnew]. intros c Hc.
                 assert (c <> a).
                 { intros ->.
                   destruct (dseg_lookup _ _ _ _ _ _ _ Hseg Hc) as [? Hsome].
                   rewrite Ha in Hsome. discriminate. }
                 rewrite !(lookup_insert_ne _ a c) by done.
                 destruct (decide (c = t)) as [->|Hne].
                 --- by rewrite !lookup_insert_eq.
                 --- rewrite !(lookup_insert_ne _ t c) by done.
                     by rewrite lookup_insert_ne by done.
              ** cbn. split; [reflexivity|]. eexists.
                 rewrite lookup_insert_eq. by split.
           ++ rewrite fmap_app. apply NoDup_app. split; [assumption|].
              split; [|apply NoDup_singleton].
              intros c Hc Hin. cbn in Hin. apply list_elem_of_singleton in Hin.
              subst c.
              destruct (dseg_lookup _ _ _ _ _ _ _ Hseg Hc) as [? Hsome].
              rewrite Ha in Hsome. discriminate.
           ++ rewrite Hcount, wrap_int_add_l. f_equal.
              rewrite !length_app. cbn [length]. lia.
        -- by repeat split.
      * rewrite Ht. run. rewrite Hid, set_nodes_id, insert_id by assumption.
        reflexivity.
      * reflexivity.
    + rewrite Ht. run. rewrite Hid, set_nodes_id, insert_id by assumption.
      reflexivity.
Qed.

(** *** createLinkedList, getLengthList *)

Lemma list_rep_new (c : CopyFunction E W) (f : FreeFunction E W)
    (p : PrintFunction E W) (e : EqualFunction E P W) :
  list_rep (mkList ∅ None None 0 c f p e) [].
Proof. split; [by split|]. split; [apply NoDup_nil_2|reflexivity]. Qed.

Lemma createLinkedList_spec c f p e s :
  createLinkedList (Some c) (Some f) (Some p) (Some e) s
  = match malloc_outcome (mallocs s) with
    | (true, rest) =>
        Some (Some (fresh (dom (lists s))),
              mkLstate (<[fresh (dom (lists s)) :=
                          mkList ∅ None None 0 c f p e]> (lists s))
                       (world s) rest)
    | (false, rest) => Some (None, mkLstate (lists s) (world s) rest)
    end.
Proof.
  unfold createLinkedList.
  by destruct (malloc_outcome (mallocs s)) as [[|] rest].
Qed.

Lemma getLengthList_spec l s L :
  lists s !! l = Some L ->
  getLengthList (Some l) s = Some (count_elements L, s).
Proof.
  intros Hl. unfold getLengthList, with_list. rewrite Hl. run.
  rewrite insert_id by assumption. by rewrite lstate_eta.
Qed.

(** *** getDataByIndex *)

Lemma getDataByIndex_for_spec L w b xs1 c d xs2 pv cur last nxt :
  dseg (nodes L) pv cur (xs1 ++ (c, d) :: xs2) last nxt ->
  getDataByIndex_for (length xs1) cur (mkFocus L w b)
  = Some (Some c, mkFocus L w b).
Proof.
  revert pv cur. induction xs1 as [|[a e] xs1 IH]; intros pv cur Hseg.
  - by destruct Hseg as (-> & _).
  - destruct Hseg as (-> & nx & Ha & Hrest).
    cbn [length getDataByIndex_for]. run. rewrite Ha. run.
    eapply IH. eassumption.
Qed.

Lemma getDataByIndex_spec l s L xs1 c d xs2 :
  lists s !! l = Some L -> list_rep L (xs1 ++ (c, d) :: xs2) ->
  Z.of_nat (length (xs1 ++ (c, d) :: xs2)) <= INT_MAX ->
  getDataByIndex (Some l) (Z.of_nat (length xs1) + 1) s
  = match copyElement L d (world s) with
    | Some (r, w') => Some (r, mkLstate (lists s) w' (mallocs s))
    | None => None
    end.
Proof.
  intros Hl (Hseg & Hnd & Hcount) Hlen.
  rewrite wrap_int_id in Hcount
    by (unfold in_int, INT_MIN, INT_MAX in *; lia).
  unfold getDataByIndex, with_list. rewrite Hl. run.
  rewrite length_app in Hcount. cbn [length] in Hcount.
  destruct (Z.ltb_spec (Z.of_nat (length xs1) + 1) 1); [lia|].
  destruct (Z.gtb_spec (Z.of_nat (length xs1) + 1) (count_elements L)); [lia|].
  cbn [orb].
  replace (Z.to_nat (Z.of_nat (length xs1) + 1 - 1)) with (length xs1) by lia.
  run.
  rewrite (getDataByIndex_for_spec _ _ _ _ _ _ _ _ _ _ _ Hseg). run.
  destruct (dseg_split _ _ _ _ _ _ _ _ _ Hseg Hnd) as (pc & nx & _ & Hc & _).
  rewrite Hc. run.
  destruct (copyElement L d (world s)) as [[[r|] w']|]; run;
    by rewrite ?insert_id.
Qed.

Lemma getDataByIndex_out_of_range l s L index :
  lists s !! l = Some L ->
  index < 1 \/ count_elements L < index ->
  getDataByIndex (Some l) index s = Some (None, s).
Proof.
  intros Hl Hindex. unfold getDataByIndex, with_list. rewrite Hl. run.
  replace ((index <? 1) || (index >? count_elements L)) with true.
  - rewrite insert_id by assumption. by rewrite lstate_eta.
  - symmetry. apply orb_true_iff. destruct Hindex; [left|right]; lia.
Qed.

Lemma exact_count_le_INT_MAX L xs :
  list_rep L xs -> count_elements L = Z.of_nat (length xs) ->
  Z.of_nat (length xs) <= INT_MAX.
Proof.
  intros (_ & _ & Hcount) Hexact. rewrite Hexact in Hcount.
  rewrite Hcount. unfold wrap_int, INT_MAX.
  pose proof (Z.mod_pos_bound (Z.of_nat (length xs) + 2 ^ 31) (2 ^ 32)). lia.
Qed.

(** C7. On a list that represents [xs] and whose counter is the number of
    its elements, [deleteNode] with a non-null probe: returns [no_element]
    and leaves everything as it was when no element is equal to the probe;
    otherwise it removes the first node, from the head on, whose element is
    equal to the probe: what is left is a well-linked list of the other
    nodes in their order (the node removed may be the only one, the head,
    the tail or in the middle), the node is freed, its element is given to
    the free function and the counter goes down by one. *)
Theorem deleteNode_removes_first_match l key s L xs :
  lists s !! l = Some L -> list_rep L xs ->
  count_elements L = Z.of_nat (length xs) ->
  (Forall (fun x => equal L x.2 (Some key) (world s) = Some false) xs ->
   deleteNode (Some l) (Some key) s = Some (no_element, s)) /\
  (forall xs1 c d xs2 st w',
     xs = xs1 ++ (c, d) :: xs2 ->
     Forall (fun x => equal L x.2 (Some key) (world s) = Some false) xs1 ->
     equal L d (Some key) (world s) = Some true ->
     freeElement L d (world s) = Some (st, w') ->
     exists L',
       deleteNode (Some l) (Some key) s
       = Some (success, mkLstate (<[l := L']> (lists s)) w' (mallocs s)) /\
       list_rep L' (xs1 ++ xs2) /\
       nodes L' !! c = None /\
       count_elements L' = count_elements L - 1 /\
       same_ops L L').
Proof.
  intros Hl Hrep Hexact. split.
  - intros Hall. eapply deleteNode_miss; eassumption.
  - intros xs1 c d xs2 st w' -> Hall Hd Hfree.
    pose proof (exact_count_le_INT_MAX _ _ Hrep Hexact) as Hlen.
    rewrite length_app in Hlen. cbn [length] in Hlen.
    destruct (deleteNode_hit l key s L xs1 c d xs2 Hl Hrep Hall Hd)
      as (L' & Hrep' & Hops & Hfreed & Hrun).
    rewrite Hfree in Hrun. rewrite after_delete_small in Hrep' by assumption.
    exists L'. split; [assumption|]. split; [assumption|].
    split; [assumption|]. split; [|assumption].
    destruct Hrep' as (_ & _ & Hcount'). rewrite Hcount', Hexact.
    rewrite !length_app. cbn [length].
    rewrite wrap_int_id by (unfold in_int, INT_MIN, INT_MAX in *; lia). lia.
Qed.

(** *** Insertion order *)

(** What the calls that return a copy of a stored element [d] return: the
    outcome of the copy function on [d]. *)
Definition copy_out (c : CopyFunction E W) (d : option E) s
  : option (option E * lstate E P W) :=
  match c d (world s) with
  | Some (r, w') => Some (r, mkLstate (lists s) w' (mallocs s))
  | None => None
  end.



End Specs.

Import Examples.

Lemma deleteNode_removes_first_match_witness :
  lists three_state !! 5%positive = Some three /\
  list_rep three three_seq /\
  count_elements three = Z.of_nat (length three_seq) /\
  (Forall (fun x => equal three x.2 (Some 20%nat) (world three_state)
                    = Some false) three_seq ->
   deleteNode (Some 5%positive) (Some 20%nat) three_state
   = Some (no_element, three_state)) /\
  (forall xs1 c d xs2 st w',
     three_seq = xs1 ++ (c, d) :: xs2 ->
     Forall (fun x => equal three x.2 (Some 20%nat) (world three_state)
                      = Some false) xs1 ->
     equal three d (Some 20%nat) (world three_state) = Some true ->
     freeElement three d (world three_state) = Some (st, w') ->
     exists L',
       deleteNode (Some 5%positive) (Some 20%nat) three_state
       = Some (success, mkLstate (<[5%positive := L']> (lists three_state))
                                 w' (mallocs three_state)) /\
       list_rep L' (xs1 ++ xs2) /\
       nodes L' !! c = None /\
       count_elements L' = count_elements three - 1 /\
       same_ops three L').
Proof.
  assert (H1 : lists three_state !! 5%positive = Some three) by reflexivity.
  assert (H2 : list_rep three three_seq).
  { split; [|split; [|reflexivity]].
    - cbn. repeat (split; [reflexivity|]; eexists; split; [reflexivity|]).
      by split.
    - apply (bool_decide_unpack _). vm_compute. reflexivity. }
  assert (H3 : count_elements three = Z.of_nat (length three_seq))
    by reflexivity.
  split; [exact H1|]. split; [exact H2|]. split; [exact H3|].
  exact (deleteNode_removes_first_match 5%positive 20%nat three_state three
           three_seq H1 H2 H3).
Defined.


End LinkedListFacts.

(** ** The hash table as buckets of entries *)

Module HashTableFacts.
Import LinkedList KeyValuePair HashTable LinkedListFacts.

Ltac hrun_goal :=
  repeat (progress (
    unfold bind, ret, undef, deref, in_buckets, in_pairs, in_callback,
           read_callback, get_table, in_world, in_user, get_pair;
    cbn [tables arrays ht_mallocs buckets lists world mallocs
         pairs user kv_mallocs
         table tableSize numberOfElements transIntoNumber
         HashTable.copyKey HashTable.freeKey HashTable.printKey
         HashTable.copyValue HashTable.freeValue HashTable.printValue
         HashTable.equalKey
         key value KeyValuePair.copyKey KeyValuePair.copyValue
         KeyValuePair.freeKey KeyValuePair.freeValue KeyValuePair.printKey
         KeyValuePair.printValue KeyValuePair.equalKey
         copyElement freeElement printElement equal])).

Ltac hrun_hyp H :=
  repeat (progress (
    unfold bind, ret, undef, deref, in_buckets, in_pairs, in_callback,
           read_callback, get_table, in_world, in_user, get_pair in H;
    cbn [tables arrays ht_mallocs buckets lists world mallocs
         pairs user kv_mallocs
         table tableSize numberOfElements transIntoNumber
         HashTable.copyKey HashTable.freeKey HashTable.printKey
         HashTable.copyValue HashTable.freeValue HashTable.printValue
         HashTable.equalKey
         key value KeyValuePair.copyKey KeyValuePair.copyValue
         KeyValuePair.freeKey KeyValuePair.freeValue KeyValuePair.printKey
         KeyValuePair.printValue KeyValuePair.equalKey
         copyElement freeElement printElement equal] in H)).

Tactic Notation "hrun" := hrun_goal.
Tactic Notation "hrun" "in" hyp(H) := hrun_hyp H.

Lemma first_match_split {A} (f : A -> bool) (l : list A) :
  Forall (fun x => f x = false) l \/
  exists l1 x l2, l = l1 ++ x :: l2 /\
                  Forall (fun x => f x = false) l1 /\ f x = true.
Proof.
  induction l as [|x l IH]; [left; constructor|].
  destruct (f x) eqn:Hx.
  - right. exists [], x, l. by split_and!.
  - destruct IH as [Hall|(l1 & y & l2 & -> & Hall & Hy)].
    + left. by constructor.
    + right. exists (x :: l1), y, l2. split_and!; [done| |done].
      by constructor.
Qed.

Section Table.
Context {K V W : Type}.

(** The keys are compared and hashed by functions of the keys alone. *)
Variables (eqK : K -> K -> bool) (hashK : K -> Z).

Definition pure_callbacks (T : hashTable_s K V W) : Prop :=
  (forall a b w, HashTable.equalKey T (Some a) (Some b) w = Some (eqK a b)) /\
  (forall k w, transIntoNumber T (Some k) w = Some (hashK k)).

(** An entry of a bucket: the node of the bucket's list, the pair it holds,
    and the key and the value (the copies) that the pair holds. *)
Record entry : Type := mkEntry {
  e_node : loc;
  e_pair : loc;
  e_key : K;
  e_val : V
}.

Definition the_pair (T : hashTable_s K V W) (e : entry)
  : KeyValuePair_s K V W :=
  mkPair (Some (e_key e)) (Some (e_val e))
         (HashTable.copyKey T) (HashTable.copyValue T)
         (HashTable.freeKey T) (HashTable.freeValue T)
         (HashTable.printKey T) (HashTable.printValue T)
         (HashTable.equalKey T).

Definition as_nodes (es : list entry) : list (loc * option loc) :=
  (fun e => (e_node e, Some (e_pair e))) <$> es.

Definition wrappers (L : LinkedList_s loc K (kvstate K V W)) : Prop :=
  copyElement L = copyKeyValuePairs /\
  freeElement L = destroyKeyValuePairhash /\
  printElement L = PrintKeyValPair /\
  equal L = equalForInnerList.

Definition bucket_rep (T : hashTable_s K V W)
    (bs : lstate loc K (kvstate K V W)) (cell : LinkedList)
    (es : list entry) : Prop :=
  exists bl L,
    cell = Some bl /\ lists bs !! bl = Some L /\
    list_rep L (as_nodes es) /\ wrappers L /\
    Forall (fun e => pairs (world bs) !! e_pair e = Some (the_pair T e)) es.

(** No pair is held twice. *)
Definition pairs_distinct (cont : list (list entry)) : Prop :=
  (forall i es, cont !! i = Some es -> NoDup (e_pair <$> es)) /\
  (forall i j es es' e e',
     cont !! i = Some es -> cont !! j = Some es' ->
     e ∈ es -> e' ∈ es' -> e_pair e = e_pair e' -> i = j).

(** The table [t] has the structure [T] and its buckets hold [cont]. *)
Definition table_rep (s : htstate K V W) (t : loc) (T : hashTable_s K V W)
    (cont : list (list entry)) : Prop :=
  tables s !! t = Some T /\
  exists al cells,
    table T = Some al /\ arrays s !! al = Some cells /\
    length cells = Z.to_nat (tableSize T) /\
    Forall2 (bucket_rep T (buckets s)) cells cont /\
    NoDup cells /\ pairs_distinct cont.

Definition bucket_index (T : hashTable_s K V W) (k : K) : Z :=
  Z.rem (hashK k) (tableSize T).

Definition matches (k : K) (e : entry) : bool := eqK (e_key e) k.

Lemma equal_entry T L kvw e k :
  pure_callbacks T -> wrappers L ->
  pairs kvw !! e_pair e = Some (the_pair T e) ->
  equal L (Some (e_pair e)) (Some k) kvw = Some (matches k e).
Proof.
  intros [Heq _] (_ & _ & _ & ->) Hp. unfold equalForInnerList, isEqualKey.
  rewrite Hp. cbn. rewrite Heq. unfold matches. by destruct (eqK _ _).
Qed.

Lemma equal_entries T L kvw es k :
  pure_callbacks T -> wrappers L ->
  Forall (fun e => pairs kvw !! e_pair e = Some (the_pair T e)) es ->
  Forall (fun e => matches k e = false) es ->
  Forall (fun x => equal L x.2 (Some k) kvw = Some false) (as_nodes es).
Proof.
  intros Hpure Hw Hpairs Hmiss. unfold as_nodes. apply Forall_fmap.
  rewrite Forall_forall in *. intros e He. cbn.
  rewrite (equal_entry T) by auto. f_equal. by apply Hmiss.
Qed.

(** The access to the bucket of a key, when it is defined. *)
Lemma bucket_access s t T cont k es :
  table_rep s t T cont -> pure_callbacks T ->
  0 <= bucket_index T k ->
  cont !! Z.to_nat (bucket_index T k) = Some es ->
  exists al cells cell,
    table T = Some al /\ arrays s !! al = Some cells /\
    cells !! Z.to_nat (bucket_index T k) = Some cell /\
    bucket_rep T (buckets s) cell es /\
    forall A (g : hashTable_s K V W -> LinkedList -> M (htstate K V W) A),
      bind (get_table t) (fun T =>
        bind (read_callback (transIntoNumber T (Some k))) (fun key_num =>
          bind (int_rem key_num (tableSize T)) (fun index =>
            bind (array_read (table T) index) (g T)))) s
      = g T cell s.
Proof.
  intros (Ht & al & cells & Hal & Hcells & Hlen & Hall & _) [_ Hhash] Hidx Hes.
  destruct (Forall2_lookup_r _ _ _ _ _ Hall Hes) as (cell & Hcell & Hrep).
  exists al, cells, cell. split_and!; try done.
  intros A g. hrun. rewrite Ht. hrun. rewrite Hhash.
  pose proof (lookup_lt_Some _ _ _ Hcell) as Hlt.
  unfold bucket_index in *. unfold int_rem.
  assert (Hsize : 0 < tableSize T) by lia.
  replace ((tableSize T =? 0) || ((hashK k =? INT_MIN) && (tableSize T =? -1)))
    with false.
  2:{ symmetry. apply orb_false_iff. split; [lia|].
      apply andb_false_iff. right. lia. }
  hrun. unfold array_read. rewrite Hal, Hcells.
  replace ((0 <=? Z.rem (hashK k) (tableSize T))
           && (Z.rem (hashK k) (tableSize T) <? Z.of_nat (length cells)))
    with true by (symmetry; apply andb_true_iff; split; lia).
  by rewrite Hcell.
Qed.

Lemma htstate_eta (s : htstate K V W) :
  mkHtstate (tables s) (arrays s) (ht_mallocs s) (buckets s) = s.
Proof. by destruct s. Qed.

Lemma kvstate_eta (s : kvstate K V W) :
  mkKvstate (pairs s) (user s) (kv_mallocs s) = s.
Proof. by destruct s. Qed.

(** *** createHashTable *)

Definition new_bucket : LinkedList_s loc K (kvstate K V W) :=
  mkList ∅ None None 0 copyKeyValuePairs destroyKeyValuePairhash
         PrintKeyValPair equalForInnerList.

(** The loop that creates the buckets, when it completes: the cells from
    [i] on hold new, distinct, empty lists. *)
Lemma createHashTable_for_spec turns al i s cells s2 :
  arrays s !! al = Some cells ->
  length cells = (i + turns)%nat ->
  createHashTable_for turns (Some al) (Z.of_nat i) s = Some (true, s2) ->
  exists news,
    length news = turns /\
    arrays s2 = <[al := take i cells ++ (Some <$> news)]> (arrays s) /\
    tables s2 = tables s /\ ht_mallocs s2 = ht_mallocs s /\
    world (buckets s2) = world (buckets s) /\
    NoDup news /\
    (forall l, l ∈ news ->
       lists (buckets s) !! l = None /\
       lists (buckets s2) !! l = Some new_bucket) /\
    (forall l, l ∉ news ->
       lists (buckets s2) !! l = lists (buckets s) !! l).
Proof.
  revert i s cells. induction turns as [|turns IH]; intros i s cells Hcells Hlen Hrun.
  - cbn in Hrun. injection Hrun as <-. exists []. cbn.
    rewrite app_nil_r, Nat.add_0_r in *.
    rewrite firstn_all2 by lia. rewrite insert_id by done.
    split_and!; try done; [apply NoDup_nil_2|].
    intros l Hl. inversion Hl.
  - cbn [createHashTable_for] in Hrun. hrun in Hrun.
    rewrite createLinkedList_spec in Hrun.
    destruct (malloc_outcome (mallocs (buckets s))) as [[|] ms'].
    2:{ unfold array_write in Hrun. cbn in Hrun. rewrite Hcells in Hrun.
        destruct (_ && _); discriminate. }
    set (l := fresh (dom (lists (buckets s)))) in *.
    assert (Hl : lists (buckets s) !! l = None).
    { apply not_elem_of_dom. apply is_fresh. }
    unfold array_write in Hrun. cbn [arrays] in Hrun. rewrite Hcells in Hrun.
    replace ((0 <=? Z.of_nat i) && (Z.of_nat i <? Z.of_nat (length cells)))
      with true in Hrun by (symmetry; apply andb_true_iff; split; lia).
    hrun in Hrun. rewrite Nat2Z.id in Hrun.
    replace (Z.of_nat i + 1) with (Z.of_nat (S i)) in Hrun by lia.
    apply IH with (cells := <[i := Some l]> cells) in Hrun;
      [|cbn; apply lookup_insert_eq|rewrite length_insert; lia].
    destruct Hrun as (news & Hlen' & Harr & Htab & Hmal & Hworld & Hnd & Hnew
                      & Hold).
    cbn [arrays tables ht_mallocs buckets lists world] in *.
    exists (l :: news). split; [cbn; lia|]. split.
    { rewrite Harr, insert_insert_eq. f_equal.
      rewrite (take_S_r _ _ (Some l))
        by (apply list_lookup_insert_eq; lia).
      rewrite take_insert_ge by lia. by rewrite <- app_assoc. }
    split; [done|]. split; [done|]. split; [done|].
    assert (Hnotin : l ∉ news).
    { intros Hin. destruct (Hnew l Hin) as [Hnone _].
      by rewrite lookup_insert_eq in Hnone. }
    split; [by apply NoDup_cons|]. split.
    + intros l' Hl'. apply elem_of_cons in Hl' as [->|Hl'].
      * split; [done|]. rewrite (Hold l Hnotin). apply lookup_insert_eq.
      * destruct (Hnew l' Hl') as [Hnone Hsome]. split; [|done].
        rewrite lookup_insert_ne in Hnone; [done|]. by intros ->.
    + intros l' Hl'. apply not_elem_of_cons in Hl' as [Hne Hl'].
      rewrite (Hold l' Hl'). by apply lookup_insert_ne.
Qed.

Lemma createHashTable_rep ck fk pk cv fv pv ek tn n s t s' :
  createHashTable (Some ck) (Some fk) (Some pk) (Some cv) (Some fv) (Some pv)
                  (Some ek) (Some tn) n s = Some (Some t, s') ->
  let T := mkTable (Some (fresh (dom (arrays s)))) n 0 tn ck fk pk cv fv pv ek in
  table_rep s' t T (replicate (Z.to_nat n) []) /\
  tables s !! t = None /\
  world (buckets s') = world (buckets s) /\
  (forall l L, lists (buckets s) !! l = Some L ->
               lists (buckets s') !! l = Some L).
Proof.
  intros Hrun T.
  unfold createHashTable, HashTable.malloc, malloc_bytes in Hrun.
  hrun in Hrun.
  destruct (malloc_outcome (ht_mallocs s)) as [[|] hm1]; [|discriminate].
  hrun in Hrun.
  destruct (malloc_outcome hm1) as [[|] hm2]; [|discriminate].
  destruct (_ <=? PTRDIFF_MAX); [|discriminate].
  cbn [andb] in Hrun. hrun in Hrun.
  set (al := fresh (dom (arrays s))) in *.
  set (t0 := fresh (dom (tables s))) in *.
  match type of Hrun with
  | context [createHashTable_for _ _ _ ?x] => set (s1 := x) in *
  end.
  destruct (createHashTable_for (Z.to_nat n) (Some al) 0 s1)
    as [[[|] s2]|] eqn:Hfor; [|discriminate|discriminate].
  injection Hrun as <- <-.
  apply (createHashTable_for_spec _ al 0%nat s1
           (replicate (Z.to_nat n) None)) in Hfor;
    [|apply lookup_insert_eq|by rewrite length_replicate].
  destruct Hfor as (news & Hlen & Harr & Htab & Hmal & Hworld & Hnd & Hnew
                    & Hold).
  cbn [take app] in Harr. subst s1.
  cbn [arrays tables ht_mallocs buckets] in *.
  split; [|split; [|split]].
  - split; [rewrite Htab; apply lookup_insert_eq|].
    exists al, (Some <$> news). split; [done|].
    split; [rewrite Harr; apply lookup_insert_eq|].
    split; [by rewrite length_fmap|].
    split; [|split].
    + apply Forall2_same_length_lookup.
      split; [by rewrite length_fmap, length_replicate|].
      intros j cell es Hcell Hes.
      apply lookup_replicate in Hes as [-> _].
      apply list_lookup_fmap_Some in Hcell as (l & -> & Hl).
      destruct (Hnew l) as [_ Hsome];
        [eapply list_elem_of_lookup_2; eassumption|].
      exists l, new_bucket. split_and!; try done.
      apply list_rep_new.
    + apply (NoDup_fmap_2 _). exact Hnd.
    + split.
      * intros j es Hes. apply lookup_replicate in Hes as [-> _].
        apply NoDup_nil_2.
      * intros i j es es' e e' Hes _ He.
        apply lookup_replicate in Hes as [-> _]. inversion He.
  - apply not_elem_of_dom. apply is_fresh.
  - by rewrite Hworld.
  - intros l L Hl. rewrite Hold; [done|].
    intros Hin. destruct (Hnew l Hin) as [Hnone _]. congruence.
Qed.

(** *** lookupInHashTable *)

Lemma lookup_miss s t T cont k es :
  table_rep s t T cont -> pure_callbacks T ->
  0 <= bucket_index T k ->
  cont !! Z.to_nat (bucket_index T k) = Some es ->
  Forall (fun e => matches k e = false) es ->
  lookupInHashTable (Some t) (Some k) s = Some (None, s).
Proof.
  intros Hrep Hpure Hidx Hes Hmiss.
  destruct (bucket_access s t T cont k es Hrep Hpure Hidx Hes)
    as (al & cells & cell & _ & _ & _ & Hbucket & Hgo).
  destruct Hrep as (Ht & _).
  destruct Hbucket as (bl & L & -> & Hbl & HL & Hw & Hpairs).
  unfold lookupInHashTable. rewrite Hgo. hrun.
  rewrite (searchByKeyInList_miss bl k (buckets s) L (as_nodes es) Hbl HL).
  - by rewrite htstate_eta.
  - eapply equal_entries; eassumption.
Qed.

Lemma lookup_hit s t T cont k es es1 e es2 :
  table_rep s t T cont -> pure_callbacks T ->
  0 <= bucket_index T k ->
  cont !! Z.to_nat (bucket_index T k) = Some es ->
  es = es1 ++ e :: es2 ->
  Forall (fun e => matches k e = false) es1 -> matches k e = true ->
  lookupInHashTable (Some t) (Some k) s
  = in_callback (HashTable.copyValue T (Some (e_val e))) s.
Proof.
  intros Hrep Hpure Hidx Hes -> Hmiss Hhit.
  destruct (bucket_access s t T cont k _ Hrep Hpure Hidx Hes)
    as (al & cells & cell & _ & _ & _ & Hbucket & Hgo).
  destruct Hrep as (Ht & _).
  destruct Hbucket as (bl & L & -> & Hbl & HL & Hw & Hpairs).
  apply Forall_app in Hpairs as [Hpairs1 Hpairs2].
  apply Forall_cons in Hpairs2 as [Hpe Hpairs2].
  unfold lookupInHashTable. rewrite Hgo. hrun. unfold as_nodes in HL. rewrite fmap_app, fmap_cons in HL.
  rewrite (searchByKeyInList_hit bl k (buckets s) L _ _ _ _ Hbl HL).
  - destruct Hw as (-> & _). unfold copyKeyValuePairs. hrun.
    unfold getValue. hrun. rewrite Hpe. unfold the_pair. hrun.
    by destruct (HashTable.copyValue T (Some (e_val e))
                   (user (world (buckets s)))) as [[[r|] w']|].
  - eapply equal_entries; eassumption.
  - rewrite (equal_entry T) by auto. by rewrite Hhit.
Qed.

(** *** Keeping the representation *)

Lemma entry_allocated s t T cont j es e :
  table_rep s t T cont -> cont !! j = Some es -> e ∈ es ->
  pairs (world (buckets s)) !! e_pair e = Some (the_pair T e).
Proof.
  intros (_ & al & cells & _ & _ & _ & Hall & _) Hes He.
  destruct (Forall2_lookup_r _ _ _ _ _ Hall Hes) as (cell & _ & Hrep).
  destruct Hrep as (bl & L & _ & _ & _ & _ & Hpairs).
  rewrite Forall_forall in Hpairs. by apply Hpairs.
Qed.

Lemma bucket_rep_frame T bs bs' cell es :
  bucket_rep T bs cell es ->
  (forall bl, cell = Some bl -> lists bs' !! bl = lists bs !! bl) ->
  (forall e, e ∈ es ->
     pairs (world bs') !! e_pair e = pairs (world bs) !! e_pair e) ->
  bucket_rep T bs' cell es.
Proof.
  intros (bl & L & -> & Hbl & HL & Hw & Hpairs) Hlists Hsame.
  exists bl, L. split_and!; try done.
  - by rewrite Hlists.
  - rewrite Forall_forall in *. intros e He. rewrite Hsame by done. auto.
Qed.

(** Nothing that the buckets hold has changed. *)
Lemma table_rep_frame s s' t T cont :
  table_rep s t T cont ->
  tables s' = tables s -> arrays s' = arrays s ->
  lists (buckets s') = lists (buckets s) ->
  (forall j es e, cont !! j = Some es -> e ∈ es ->
     pairs (world (buckets s')) !! e_pair e
     = pairs (world (buckets s)) !! e_pair e) ->
  table_rep s' t T cont.
Proof.
  intros (Ht & al & cells & Hal & Hcells & Hlen & Hall & Hnd & Hdist)
         Htables Harrays Hlists Hsame.
  split; [by rewrite Htables|].
  exists al, cells. split_and!; try done; [by rewrite Harrays|].
  apply Forall2_same_length_lookup. split; [by eapply Forall2_length|].
  intros j cell es Hcell Hes.
  eapply bucket_rep_frame.
  - eapply Forall2_lookup_lr; eassumption.
  - intros bl _. by rewrite Hlists.
  - intros e He. eapply Hsame; eassumption.
Qed.

(** The bucket [i] now holds [es'], made of entries that it held and of
    entries for pairs that no bucket held. *)
Lemma table_rep_update s s' t T cont i es bl L' es' al cells :
  table_rep s t T cont ->
  table T = Some al -> arrays s !! al = Some cells ->
  cells !! i = Some (Some bl) -> cont !! i = Some es ->
  tables s' = tables s -> arrays s' = arrays s ->
  lists (buckets s') = <[bl := L']> (lists (buckets s)) ->
  (forall j es_j e, j <> i -> cont !! j = Some es_j -> e ∈ es_j ->
     pairs (world (buckets s')) !! e_pair e
     = pairs (world (buckets s)) !! e_pair e) ->
  list_rep L' (as_nodes es') -> wrappers L' ->
  Forall (fun e => pairs (world (buckets s')) !! e_pair e
                   = Some (the_pair T e)) es' ->
  NoDup (e_pair <$> es') ->
  (forall e', e' ∈ es' ->
     e' ∈ es \/
     pairs (world (buckets s)) !! e_pair e' = None) ->
  table_rep s' t T (<[i := es']> cont).
Proof.
  intros Hrep Hal Hcells Hcell Hes Htables Harrays Hlists Hsame HL' Hw'
         Hpairs' Hnd' Hfrom.
  pose proof Hrep as (Ht & al' & cells' & Hal' & Hcells' & Hlen & Hall & Hnd
                      & Hdist1 & Hdist2).
  rewrite Hal in Hal'. injection Hal' as <-.
  rewrite Hcells in Hcells'. injection Hcells' as <-.
  split; [by rewrite Htables|].
  exists al, cells.
  split; [done|]. split; [by rewrite Harrays|]. split; [done|].
  split; [|split; [done|split]].
  - apply Forall2_same_length_lookup.
    split; [rewrite length_insert; by eapply Forall2_length|].
    intros j cell es_j Hcell_j Hes_j.
    destruct (decide (j = i)) as [Hji|Hne]; [subst j|].
    + rewrite list_lookup_insert_eq in Hes_j
        by (eapply lookup_lt_Some; eassumption).
      injection Hes_j as <-. assert (cell = Some bl) as -> by congruence.
      exists bl, L'. split_and!; try done.
      rewrite Hlists. apply lookup_insert_eq.
    + rewrite list_lookup_insert_ne in Hes_j by done.
      eapply bucket_rep_frame.
      * eapply Forall2_lookup_lr; eassumption.
      * intros bl' ->. rewrite Hlists. apply lookup_insert_ne.
        intros ->. apply Hne. symmetry.
        eapply NoDup_lookup; eassumption.
      * intros e He. eapply Hsame; eassumption.
  - intros j es_j Hes_j. destruct (decide (j = i)) as [Hji|Hne]; [subst j|].
    + rewrite list_lookup_insert_eq in Hes_j
        by (eapply lookup_lt_Some; eassumption).
      by injection Hes_j as <-.
    + rewrite list_lookup_insert_ne in Hes_j by done. eauto.
  - assert (Hold : forall j es_j e e', j <> i ->
              cont !! j = Some es_j -> e ∈ es_j -> e' ∈ es' ->
              e_pair e = e_pair e' -> False).
    { intros j es_j e e' Hne Hes_j He He' Heq.
      destruct (Hfrom e' He') as [Hin|Hfresh].
      - apply Hne. eapply Hdist2; eassumption.
      - rewrite <- Heq in Hfresh.
        rewrite (entry_allocated s t T cont j es_j e) in Hfresh by done.
        discriminate. }
    intros j1 j2 es1 es2 e1 e2 Hes1 Hes2 He1 He2 Heq.
    destruct (decide (j1 = i)) as [Hj1|Hne1];
      destruct (decide (j2 = i)) as [Hj2|Hne2]; [congruence|subst j1|subst j2|].
    + rewrite list_lookup_insert_eq in Hes1
        by (eapply lookup_lt_Some; eassumption).
      injection Hes1 as <-. rewrite list_lookup_insert_ne in Hes2 by done.
      exfalso. eapply (Hold j2); eauto.
    + rewrite list_lookup_insert_eq in Hes2
        by (eapply lookup_lt_Some; eassumption).
      injection Hes2 as <-. rewrite list_lookup_insert_ne in Hes1 by done.
      exfalso. eapply (Hold j1); eauto.
    + rewrite list_lookup_insert_ne in Hes1, Hes2 by done.
      eapply Hdist2; eassumption.
Qed.

(** *** addToHashTable *)

Lemma bucket_access_inv A
    (g : hashTable_s K V W -> LinkedList -> M (htstate K V W) A)
    s t T cont k r :
  table_rep s t T cont -> pure_callbacks T ->
  bind (get_table t) (fun T =>
    bind (read_callback (transIntoNumber T (Some k))) (fun key_num =>
      bind (int_rem key_num (tableSize T)) (fun index =>
        bind (array_read (table T) index) (g T)))) s = Some r ->
  0 <= bucket_index T k /\
  exists es, cont !! Z.to_nat (bucket_index T k) = Some es.
Proof.
  intros (Ht & al & cells & Hal & Hcells & Hlen & Hall & _) [_ Hhash] Hrun.
  hrun in Hrun. rewrite Ht in Hrun. hrun in Hrun. rewrite Hhash in Hrun.
  unfold int_rem in Hrun.
  destruct ((tableSize T =? 0) || _); [discriminate|].
  hrun in Hrun. unfold array_read in Hrun. rewrite Hal, Hcells in Hrun.
  fold (bucket_index T k) in Hrun.
  destruct ((0 <=? bucket_index T k) && _) eqn:Hrange; [|discriminate].
  apply andb_true_iff in Hrange as [Hlo Hhi].
  split; [lia|]. apply lookup_lt_is_Some.
  rewrite <- (Forall2_length _ _ _ Hall). lia.
Qed.

(** What a call of [addToHashTable] may have done to the memory of the
    callbacks: any relation that the copy functions and the key free
    function keep relates the memory before to the memory after. *)
Definition callbacks_step (T : hashTable_s K V W) (w w' : W) : Prop :=
  forall R : W -> W -> Prop,
    (forall w0, R w0 w0) ->
    (forall w0 w1 w2, R w0 w1 -> R w1 w2 -> R w0 w2) ->
    (forall x w0 r w1, HashTable.copyKey T x w0 = Some (r, w1) -> R w0 w1) ->
    (forall x w0 r w1, HashTable.copyValue T x w0 = Some (r, w1) -> R w0 w1) ->
    (forall x w0 r w1, HashTable.freeKey T x w0 = Some (r, w1) -> R w0 w1) ->
    R w w'.

Lemma add_inv s t T cont k v st s' :
  table_rep s t T cont -> pure_callbacks T ->
  addToHashTable (Some t) (Some k) (Some v) s = Some (st, s') ->
  0 <= bucket_index T k /\
  exists es,
    cont !! Z.to_nat (bucket_index T k) = Some es /\
    ((st = element_exist /\ s' = s /\
      exists es1 e es2, es = es1 ++ e :: es2 /\
        Forall (fun e => matches k e = false) es1 /\ matches k e = true)
     \/
     (Forall (fun e => matches k e = false) es /\
      callbacks_step T (user (world (buckets s))) (user (world (buckets s'))) /\
      tables s' = tables s /\ arrays s' = arrays s /\
      ((st = Memory_Problem /\ table_rep s' t T cont)
       \/
       (st = success /\
        exists e w1,
          HashTable.copyKey T (Some k) (user (world (buckets s)))
          = Some (Some (e_key e), w1) /\
          HashTable.copyValue T (Some v) w1
          = Some (Some (e_val e), user (world (buckets s'))) /\
          pairs (world (buckets s)) !! e_pair e = None /\
          table_rep s' t T
            (<[Z.to_nat (bucket_index T k) := es ++ [e]]> cont))))).
Proof.
  intros Hrep Hpure Hrun. unfold addToHashTable in Hrun.
  destruct (bucket_access_inv _ _ _ _ _ _ _ _ Hrep Hpure Hrun)
    as (Hidx & es & Hes).
  split; [assumption|]. exists es. split; [assumption|].
  destruct (bucket_access s t T cont k es Hrep Hpure Hidx Hes)
    as (al & cells & cell & Hal & Hcells & Hcell & Hbucket & Hgo).
  rewrite Hgo in Hrun. clear Hgo.
  destruct Hbucket as (bl & L & -> & Hbl & HL & Hw & Hpairs).
  hrun in Hrun.
  destruct (first_match_split (matches k) es)
    as [Hmiss|(es1 & e & es2 & -> & Hmiss & Hhit)].
  - (* the key is not in the bucket *)
    right. split; [assumption|].
    rewrite (searchByKeyInList_miss bl k (buckets s) L (as_nodes es) Hbl HL)
      in Hrun by (eapply equal_entries; eassumption).
    hrun in Hrun. unfold createKeyValuePair, KeyValuePair.malloc in Hrun.
    hrun in Hrun.
    assert (Hframe : forall u' km' ps',
              (forall j es_j e, cont !! j = Some es_j -> e ∈ es_j ->
                 ps' !! e_pair e = pairs (world (buckets s)) !! e_pair e) ->
              table_rep
                (mkHtstate (tables s) (arrays s) (ht_mallocs s)
                   (mkLstate (lists (buckets s)) (mkKvstate ps' u' km')
                             (mallocs (buckets s)))) t T cont).
    { intros u' km' ps' Hsame. eapply table_rep_frame; try done. }
    destruct (malloc_outcome (kv_mallocs (world (buckets s)))) as [[|] km'];
      hrun in Hrun.
    2:{ (* no memory for the pair *)
        injection Hrun as <- <-. hrun.
        split; [intros R Hrefl _ _ _ _; apply Hrefl|].
        split; [reflexivity|]. split; [reflexivity|]. left.
        split; [reflexivity|]. by apply Hframe. }
    destruct (HashTable.copyKey T (Some k) (user (world (buckets s))))
      as [[[k1|] w1]|] eqn:Hck; hrun in Hrun; [| |discriminate].
    2:{ (* the key could not be copied *)
        injection Hrun as <- <-. hrun.
        split; [intros R _ _ HR _ _; eapply HR; eassumption|].
        split; [reflexivity|]. split; [reflexivity|]. left.
        split; [reflexivity|]. by apply Hframe. }
    destruct (HashTable.copyValue T (Some v) w1) as [[[v1|] w2]|] eqn:Hcv;
      hrun in Hrun; [| |discriminate].
    2:{ (* the value could not be copied *)
        destruct (HashTable.freeKey T (Some k1) w2) as [[r w3]|] eqn:Hfk;
          [|discriminate].
        hrun in Hrun. injection Hrun as <- <-. hrun.
        split.
        { intros R _ Htrans HRk HRv HRf.
          eapply Htrans; [eapply HRk; eassumption|].
          eapply Htrans; [eapply HRv; eassumption|eapply HRf; eassumption]. }
        split; [reflexivity|]. split; [reflexivity|]. left.
        split; [reflexivity|]. by apply Hframe. }
    (* the pair is created *)
    set (p := fresh (dom (pairs (world (buckets s))))) in *.
    assert (Hp : pairs (world (buckets s)) !! p = None).
    { apply not_elem_of_dom. apply is_fresh. }
    set (e := mkEntry (fresh (dom (nodes L))) p k1 v1).
    assert (Hold : forall kv j es_j e', cont !! j = Some es_j -> e' ∈ es_j ->
              <[p := kv]> (pairs (world (buckets s))) !! e_pair e'
              = pairs (world (buckets s)) !! e_pair e').
    { intros kv j es_j e' Hes_j He'. apply lookup_insert_ne. intros Heq.
      rewrite Heq, (entry_allocated s t T cont j es_j e') in Hp by done.
      discriminate. }
    match type of Hrun with
    | context [appendNode (Some bl) (Some p) ?bs] =>
        pose proof (appendNode_spec bl p bs L (as_nodes es) Hbl HL) as Happ
    end.
    cbn [mallocs world] in Happ.
    destruct Hw as (Hcopy & Hw2 & Hw3 & Hw4).
    rewrite Hcopy in Happ. unfold copyKeyValuePairs in Happ. hrun in Happ.
    assert (Hstep : callbacks_step T (user (world (buckets s))) w2).
    { intros R _ Htrans HRk HRv _.
      eapply Htrans; [eapply HRk; eassumption|eapply HRv; eassumption]. }
    destruct (malloc_outcome (mallocs (buckets s))) as [[|] ms'].
    + (* the node is appended *)
      destruct Happ as (L' & HL' & (Hops1 & Hops2 & Hops3 & Hops4) & Happ).
      rewrite Happ in Hrun. hrun in Hrun. injection Hrun as <- <-. hrun.
      split; [assumption|]. split; [reflexivity|]. split; [reflexivity|].
      right. split; [reflexivity|]. exists e, w1.
      split; [first [exact Hck|reflexivity]|].
      split; [first [exact Hcv|reflexivity]|]. split; [exact Hp|].
      eapply (table_rep_update s _ t T cont _ es bl L' (es ++ [e]) al cells);
        try done.
      * intros j es_j e' _ Hes_j He'. hrun. eapply Hold; eassumption.
      * unfold as_nodes. rewrite fmap_app. exact HL'.
      * split_and!; congruence.
      * hrun. apply Forall_app. split.
        -- rewrite Forall_forall in *. intros e' He'.
           rewrite (Hold _ _ _ _ Hes He'). auto.
        -- apply Forall_singleton. apply lookup_insert_eq.
      * rewrite fmap_app. apply NoDup_app.
        pose proof Hrep as (_ & _ & _ & _ & _ & _ & _ & _ & Hdist1 & _).
        split; [eauto|]. split; [|apply NoDup_singleton].
        intros q Hq Hq'. cbn in Hq'. apply list_elem_of_singleton in Hq'.
        subst q. apply list_elem_of_fmap in Hq as (e' & Heq & He').
        rewrite Heq, (entry_allocated s t T cont _ es e') in Hp by done.
        discriminate.
      * intros e' He'. apply elem_of_app in He' as [He'|He']; [by left|].
        apply list_elem_of_singleton in He'. subst e'. by right.
    + (* no memory for the node: the pair stays behind *)
      rewrite Happ in Hrun. hrun in Hrun. injection Hrun as <- <-. hrun.
      split; [assumption|]. split; [reflexivity|]. split; [reflexivity|].
      left. split; [reflexivity|]. apply Hframe. apply Hold.
  - (* the key is in the bucket *)
    left. unfold as_nodes in HL. rewrite fmap_app, fmap_cons in HL.
    apply Forall_app in Hpairs as [Hpairs1 Hpairs2].
    apply Forall_cons in Hpairs2 as [Hpe Hpairs2].
    rewrite (searchByKeyInList_hit bl k (buckets s) L _ _ _ _ Hbl HL) in Hrun.
    + destruct Hw as (Hcopy & _). rewrite Hcopy in Hrun.
      unfold copyKeyValuePairs in Hrun. hrun in Hrun.
      rewrite lstate_eta, htstate_eta in Hrun. injection Hrun as <- <-.
      split; [reflexivity|]. split; [reflexivity|]. by exists es1, e, es2.
    + eapply equal_entries; eassumption.
    + rewrite (equal_entry T) by auto. by rewrite Hhit.
Qed.

(** *** removeFromHashTable *)

Lemma remove_inv s t T cont k st s' :
  table_rep s t T cont -> pure_callbacks T ->
  removeFromHashTable (Some t) (Some k) s = Some (st, s') ->
  0 <= bucket_index T k /\
  exists es,
    cont !! Z.to_nat (bucket_index T k) = Some es /\
    ((st = no_element /\ s' = s /\
      Forall (fun e => matches k e = false) es)
     \/
     (st = success /\
      exists es1 e es2 r1 w1 r2,
        es = es1 ++ e :: es2 /\
        Forall (fun e => matches k e = false) es1 /\ matches k e = true /\
        HashTable.freeKey T (Some (e_key e)) (user (world (buckets s)))
        = Some (r1, w1) /\
        HashTable.freeValue T (Some (e_val e)) w1
        = Some (r2, user (world (buckets s'))) /\
        tables s' = tables s /\ arrays s' = arrays s /\
        table_rep s' t T
          (<[Z.to_nat (bucket_index T k) := after_delete es1 es2]> cont))).
Proof.
  intros Hrep Hpure Hrun. unfold removeFromHashTable in Hrun.
  destruct (bucket_access_inv _ _ _ _ _ _ _ _ Hrep Hpure Hrun)
    as (Hidx & es & Hes).
  split; [assumption|]. exists es. split; [assumption|].
  destruct (bucket_access s t T cont k es Hrep Hpure Hidx Hes)
    as (al & cells & cell & Hal & Hcells & Hcell & Hbucket & Hgo).
  rewrite Hgo in Hrun. clear Hgo.
  destruct Hbucket as (bl & L & -> & Hbl & HL & Hw & Hpairs).
  hrun in Hrun.
  destruct (first_match_split (matches k) es)
    as [Hmiss|(es1 & e & es2 & -> & Hmiss & Hhit)].
  - left.
    rewrite (deleteNode_miss bl k (buckets s) L (as_nodes es) Hbl HL) in Hrun
      by (eapply equal_entries; eassumption).
    hrun in Hrun. cbn in Hrun. rewrite htstate_eta in Hrun.
    injection Hrun as <- <-. by split_and!.
  - right. pose proof HL as HL0.
    unfold as_nodes in HL. rewrite fmap_app, fmap_cons in HL.
    pose proof Hpairs as Hpairs0.
    apply Forall_app in Hpairs as [Hpairs1 Hpairs2].
    apply Forall_cons in Hpairs2 as [Hpe Hpairs2].
    destruct (deleteNode_hit bl k (buckets s) L _ _ _ _ Hbl HL)
      as (L' & HL' & (Hops1 & Hops2 & Hops3 & Hops4) & _ & Hdel).
    { eapply equal_entries; eassumption. }
    { rewrite (equal_entry T) by auto. by rewrite Hhit. }
    rewrite Hdel in Hrun. clear Hdel.
    pose proof Hw as (Hw1 & Hw2 & Hw3 & Hw4).
    rewrite Hw2 in Hrun.
    unfold destroyKeyValuePairhash, destroyKeyValuePair in Hrun.
    hrun in Hrun. rewrite Hpe in Hrun. unfold the_pair in Hrun. hrun in Hrun.
    destruct (HashTable.freeKey T (Some (e_key e)) (user (world (buckets s))))
      as [[r1 w1]|] eqn:Hfk; [|discriminate].
    hrun in Hrun.
    destruct (HashTable.freeValue T (Some (e_val e)) w1)
      as [[r2 w2]|] eqn:Hfv; [|discriminate].
    hrun in Hrun. cbn in Hrun. injection Hrun as <- <-.
    split; [reflexivity|]. exists es1, e, es2, r1, w1, r2. hrun.
    split; [reflexivity|]. split; [assumption|]. split; [assumption|].
    split; [first [exact Hfk|reflexivity]|].
    split; [first [exact Hfv|reflexivity]|].
    split; [reflexivity|]. split; [reflexivity|].
    pose proof Hrep as (_ & _ & _ & _ & _ & _ & _ & _ & Hdist1 & Hdist2).
    pose proof (Hdist1 _ _ Hes) as Hnd.
    assert (Hothers : forall e', e' ∈ es1 ++ es2 -> e_pair e' <> e_pair e).
    { intros e' He' Heq. rewrite fmap_app, fmap_cons in Hnd.
      apply NoDup_app in Hnd as (_ & Hnd12 & Hnd2).
      apply NoDup_cons in Hnd2 as [Hnd2 _].
      apply elem_of_app in He' as [He'|He'].
      - apply (Hnd12 (e_pair e')); [by apply list_elem_of_fmap_2|].
        rewrite Heq. left.
      - apply Hnd2. rewrite <- Heq. by apply list_elem_of_fmap_2. }
    eapply (table_rep_update s _ t T cont _ (es1 ++ e :: es2) bl L'
              (after_delete es1 es2) al cells); try done.
    + intros j es_j e' Hne Hes_j He'. hrun. apply lookup_delete_ne.
      intros Heq. apply Hne. symmetry.
      eapply (Hdist2 _ _ _ _ e e'); eauto. apply elem_of_app. right. left.
    + unfold as_nodes. rewrite <- after_delete_fmap. exact HL'.
    + split_and!; congruence.
    + hrun. rewrite Forall_forall. intros e' He'.
      apply after_delete_elem in He'.
      rewrite lookup_delete_ne by (apply not_eq_sym; by apply Hothers).
      rewrite Forall_forall in Hpairs0. apply Hpairs0.
      apply elem_of_app in He' as [He'|He']; apply elem_of_app;
        [by left|right; by right].
    + eapply after_delete_NoDup. exact Hnd.
    + intros e' He'. left. apply after_delete_elem in He'.
      apply elem_of_app in He' as [He'|He']; apply elem_of_app;
        [by left|right; by right].
Qed.

Lemma add_hit s t T cont k v es es1 e es2 :
  table_rep s t T cont -> pure_callbacks T ->
  0 <= bucket_index T k ->
  cont !! Z.to_nat (bucket_index T k) = Some es ->
  es = es1 ++ e :: es2 ->
  Forall (fun e => matches k e = false) es1 -> matches k e = true ->
  addToHashTable (Some t) (Some k) (Some v) s = Some (element_exist, s).
Proof.
  intros Hrep Hpure Hidx Hes -> Hmiss Hhit.
  destruct (bucket_access s t T cont k _ Hrep Hpure Hidx Hes)
    as (al & cells & cell & _ & _ & _ & Hbucket & Hgo).
  destruct Hbucket as (bl & L & -> & Hbl & HL & Hw & Hpairs).
  apply Forall_app in Hpairs as [Hpairs1 Hpairs2].
  apply Forall_cons in Hpairs2 as [Hpe Hpairs2].
  unfold addToHashTable. rewrite Hgo. hrun.
  unfold as_nodes in HL. rewrite fmap_app, fmap_cons in HL.
  rewrite (searchByKeyInList_hit bl k (buckets s) L _ _ _ _ Hbl HL).
  - destruct Hw as (-> & _). unfold copyKeyValuePairs. hrun.
    by rewrite lstate_eta, htstate_eta.
  - eapply equal_entries; eassumption.
  - rewrite (equal_entry T) by auto. by rewrite Hhit.
Qed.

(** *** Keys are stored once *)

(** A copy function that, when it returns something, returns an element
    equal to its argument. *)
Definition faithful {E} (c : CopyFunction E W) : Prop :=
  forall x w r w', c (Some x) w = Some (Some r, w') -> r = x.

Definition eqK_equivalence : Prop :=
  (forall a, eqK a a = true) /\
  (forall a b, eqK a b = eqK b a) /\
  (forall a b c, eqK a b = true -> eqK b c = true -> eqK a c = true).

(** In a bucket, no two entries have equal keys. *)
Fixpoint unique_keys (es : list entry) : Prop :=
  match es with
  | [] => True
  | e :: es' =>
      Forall (fun e' => eqK (e_key e) (e_key e') = false) es' /\
      unique_keys es'
  end.

Definition keys_unique (cont : list (list entry)) : Prop :=
  forall i es, cont !! i = Some es -> unique_keys es.

Lemma unique_keys_snoc es e :
  unique_keys es ->
  Forall (fun e' => matches (e_key e) e' = false) es ->
  unique_keys (es ++ [e]).
Proof.
  induction es as [|e0 es IH]; intros Huniq Hmiss; cbn.
  - by split.
  - destruct Huniq as [Hall Huniq].
    apply Forall_cons in Hmiss as [He0 Hmiss].
    split; [|by apply IH].
    apply Forall_app. split; [done|]. apply Forall_singleton. exact He0.
Qed.

Lemma unique_keys_remove es1 e es2 :
  unique_keys (es1 ++ e :: es2) -> unique_keys (es1 ++ es2).
Proof.
  induction es1 as [|e0 es1 IH]; cbn.
  - by intros [_ ?].
  - intros [Hall Huniq]. split; [|by apply IH].
    apply Forall_app in Hall as [Hall1 Hall2].
    apply Forall_cons in Hall2 as [_ Hall2].
    apply Forall_app. by split.
Qed.

Lemma unique_keys_after es1 e es2 :
  unique_keys (es1 ++ e :: es2) ->
  Forall (fun e' => eqK (e_key e) (e_key e') = false) es2.
Proof.
  induction es1 as [|e0 es1 IH]; cbn.
  - by intros [? _].
  - intros [_ Huniq]. by apply IH.
Qed.

Lemma keys_unique_insert cont i es' :
  keys_unique cont -> unique_keys es' -> keys_unique (<[i := es']> cont).
Proof.
  intros Huniq Hes' j es Hes.
  destruct (decide (j = i)) as [Hj|Hj]; [subst j|].
  - apply list_lookup_insert_Some in Hes as [(_ & <- & _)|[? _]]; done.
  - rewrite list_lookup_insert_ne in Hes by done. eauto.
Qed.

Lemma unique_keys_after_delete es1 e es2 :
  unique_keys (es1 ++ e :: es2) -> unique_keys (after_delete es1 es2).
Proof.
  intros Huniq. destruct (after_delete_cases es1 es2) as [-> | ->]; [done|].
  by eapply unique_keys_remove.
Qed.

(** Once the first entry equal to [k] is removed, no entry is equal to
    [k]. *)
Lemma no_match_after_delete k es1 e es2 :
  eqK_equivalence -> unique_keys (es1 ++ e :: es2) ->
  Forall (fun e => matches k e = false) es1 -> matches k e = true ->
  Forall (fun e => matches k e = false) (after_delete es1 es2).
Proof.
  intros (_ & Hsym & Htrans) Huniq Hmiss Hhit.
  destruct (after_delete_cases es1 es2) as [-> | ->]; [constructor|].
  apply Forall_app. split; [done|].
  pose proof (unique_keys_after _ _ _ Huniq) as Hafter.
  rewrite Forall_forall in *. intros e2 He2. unfold matches in *.
  destruct (eqK (e_key e2) k) eqn:Hk; [|reflexivity].
  rewrite <- (Hafter e2 He2). symmetry.
  apply (Htrans _ k); [done|]. by rewrite Hsym.
Qed.

Lemma add_keeps s t T cont k v st s' :
  table_rep s t T cont -> pure_callbacks T -> faithful (HashTable.copyKey T) ->
  keys_unique cont ->
  addToHashTable (Some t) (Some k) (Some v) s = Some (st, s') ->
  exists cont', table_rep s' t T cont' /\ keys_unique cont'.
Proof.
  intros Hrep Hpure Hfaith Huniq Hrun.
  destruct (add_inv _ _ _ _ _ _ _ _ Hrep Hpure Hrun)
    as (Hidx & es & Hes & [(_ & -> & _)|(Hmiss & _ & _ & _ & Hcase)]).
  - by exists cont.
  - destruct Hcase as [(_ & Hrep')|(_ & e & w1 & Hck & _ & _ & Hrep')].
    + by exists cont.
    + eexists. split; [exact Hrep'|].
      apply keys_unique_insert; [done|].
      apply unique_keys_snoc; [by eapply Huniq|].
      by rewrite (Hfaith _ _ _ _ Hck).
Qed.

(** C2. After [addToHashTable(t, k, v)] has returned [success], a lookup
    of [k] returns what the value copy function makes of the stored value,
    which is [v] (so a lookup that returns an element returns one equal to
    [v]), and adding under the same key again returns [element_exist] and
    changes nothing. *)
Theorem add_then_lookup s t T cont k v s1 :
  table_rep s t T cont -> pure_callbacks T ->
  (forall a, eqK a a = true) ->
  faithful (HashTable.copyKey T) -> faithful (HashTable.copyValue T) ->
  addToHashTable (Some t) (Some k) (Some v) s = Some (success, s1) ->
  lookupInHashTable (Some t) (Some k) s1
  = in_callback (HashTable.copyValue T (Some v)) s1 /\
  (forall r s2,
     lookupInHashTable (Some t) (Some k) s1 = Some (Some r, s2) -> r = v) /\
  (forall v',
     addToHashTable (Some t) (Some k) (Some v') s1
     = Some (element_exist, s1)).
Proof.
  intros Hrep Hpure Hrefl Hfk Hfv Hrun.
  destruct (add_inv _ _ _ _ _ _ _ _ Hrep Hpure Hrun)
    as (Hidx & es & Hes & [(Hst & _)|(Hmiss & _ & _ & _ & Hcase)]);
    [discriminate|].
  destruct Hcase as [(Hst & _)|(_ & e & w1 & Hck & Hcv & _ & Hrep')];
    [discriminate|].
  pose proof (Hfk _ _ _ _ Hck) as Hk. pose proof (Hfv _ _ _ _ Hcv) as Hv.
  assert (Hes' : <[Z.to_nat (bucket_index T k) := es ++ [e]]> cont
                 !! Z.to_nat (bucket_index T k) = Some (es ++ [e])).
  { apply list_lookup_insert_eq. eapply lookup_lt_Some; eassumption. }
  assert (Hhit : matches k e = true).
  { unfold matches. rewrite Hk. apply Hrefl. }
  assert (Hlook : lookupInHashTable (Some t) (Some k) s1
                  = in_callback (HashTable.copyValue T (Some v)) s1).
  { rewrite <- Hv.
    eapply (lookup_hit s1 t T _ k _ es e []); eauto. }
  split; [exact Hlook|]. split.
  - intros r s2 Hr. rewrite Hlook in Hr. hrun in Hr.
    destruct (HashTable.copyValue T (Some v) (user (world (buckets s1))))
      as [[r' w']|] eqn:Hcopy; [|discriminate].
    injection Hr as -> _. by eapply Hfv.
  - intros v'. eapply (add_hit s1 t T _ k v' _ es e []); eauto.
Qed.

(** C4. Whatever [addToHashTable(t, k, v)] and then
    [removeFromHashTable(t, k)] return, a lookup of [k] afterwards returns
    [NULL]. *)
Theorem add_remove_lookup s t T cont k v r1 s1 r2 s2 :
  table_rep s t T cont -> pure_callbacks T -> eqK_equivalence ->
  keys_unique cont -> faithful (HashTable.copyKey T) ->
  addToHashTable (Some t) k v s = Some (r1, s1) ->
  removeFromHashTable (Some t) k s1 = Some (r2, s2) ->
  lookupInHashTable (Some t) k s2 = Some (None, s2).
Proof.
  intros Hrep Hpure Heqv Huniq Hfk Hadd Hrem.
  destruct k as [k|]; [|reflexivity].
  assert (exists cont1, table_rep s1 t T cont1 /\ keys_unique cont1)
    as (cont1 & Hrep1 & Huniq1).
  { destruct v as [v|].
    - eapply add_keeps; eassumption.
    - injection Hadd as <- <-. by exists cont. }
  destruct (remove_inv _ _ _ _ _ _ _ Hrep1 Hpure Hrem)
    as (Hidx & es & Hes & [(_ & -> & Hmiss)|Hcase]).
  - eapply lookup_miss; eassumption.
  - destruct Hcase as (_ & es1 & e & es2 & f1 & w1 & f2 & -> & Hmiss & Hhit
                       & _ & _ & _ & _ & Hrep2).
    apply (lookup_miss s2 t T _ k (after_delete es1 es2) Hrep2 Hpure Hidx).
    + apply list_lookup_insert_eq. eapply lookup_lt_Some; eassumption.
    + eapply no_match_after_delete; eauto.
Qed.

End Table.

Section Unguarded.
Context {K V W : Type}.
Implicit Types (s : htstate K V W) (T : hashTable_s K V W).

Definition all_succeed (schedule : list bool) : Prop :=
  Forall (fun ok => ok = true) schedule.

Lemma malloc_outcome_succeeds schedule :
  all_succeed schedule ->
  exists rest, malloc_outcome schedule = (true, rest) /\ all_succeed rest.
Proof.
  destruct schedule as [|ok rest]; intros Hall.
  - exists []. by split.
  - apply Forall_cons in Hall as [-> Hall]. exists rest. by split.
Qed.

Lemma createHashTable_for_total turns al i s cells :
  arrays s !! al = Some cells ->
  length cells = (i + turns)%nat ->
  all_succeed (mallocs (buckets s)) ->
  exists s2,
    createHashTable_for turns (Some al) (Z.of_nat i) s = Some (true, s2) /\
    tables s2 = tables s.
Proof.
  revert i s cells. induction turns as [|turns IH];
    intros i s cells Hcells Hlen Hall.
  - by exists s.
  - cbn [createHashTable_for]. hrun. rewrite createLinkedList_spec.
    destruct (malloc_outcome_succeeds _ Hall) as (rest & -> & Hrest).
    unfold array_write. cbn [arrays]. rewrite Hcells.
    replace ((0 <=? Z.of_nat i) && (Z.of_nat i <? Z.of_nat (length cells)))
      with true by (symmetry; apply andb_true_iff; split; lia).
    replace (Z.of_nat i + 1) with (Z.of_nat (S i)) by lia.
    match goal with
    | |- context [createHashTable_for turns _ _ ?x] =>
        destruct (IH (S i) x (<[Z.to_nat (Z.of_nat i) := Some
                     (fresh (dom (lists (buckets s))))]> cells))
          as (s2 & Hrun & Htab)
    end.
    + cbn. apply lookup_insert_eq.
    + rewrite length_insert. lia.
    + exact Hrest.
    + exists s2. by split.
Qed.

(** The size of the array of [n] buckets, as [malloc] is given it. *)
Lemma array_size_fits n :
  0 <= n <= INT_MAX ->
  (to_size_t (to_size_t n * sizeof_pointer) <=? PTRDIFF_MAX) = true.
Proof.
  intros Hn. unfold to_size_t, sizeof_pointer, PTRDIFF_MAX, INT_MAX in *.
  rewrite (Z.mod_small n) by lia. rewrite Z.mod_small by lia. lia.
Qed.

Lemma array_size_too_large n :
  INT_MIN <= n < 0 ->
  (to_size_t (to_size_t n * sizeof_pointer) <=? PTRDIFF_MAX) = false.
Proof.
  intros Hn. unfold to_size_t, sizeof_pointer, PTRDIFF_MAX, INT_MIN in *.
  assert (H1 : n mod 2 ^ 64 = n + 2 ^ 64).
  { symmetry. apply (Z.mod_unique n (2 ^ 64) (-1)); lia. }
  rewrite H1.
  assert (H2 : ((n + 2 ^ 64) * 8) mod 2 ^ 64 = 8 * n + 2 ^ 64).
  { symmetry. apply (Z.mod_unique _ (2 ^ 64) 7); lia. }
  rewrite H2. lia.
Qed.

Lemma createHashTable_succeeds ck fk pk cv fv pv ek tn n s :
  0 <= n <= INT_MAX ->
  all_succeed (ht_mallocs s) -> all_succeed (mallocs (buckets s)) ->
  exists t s' T,
    createHashTable (V := V) (Some ck) (Some fk) (Some pk) (Some cv) (Some fv)
                    (Some pv) (Some ek) (Some tn) n s = Some (Some t, s') /\
    tables s' !! t = Some T /\ tableSize T = n.
Proof.
  intros Hn Hht Hls. unfold createHashTable, HashTable.malloc, malloc_bytes.
  hrun.
  destruct (malloc_outcome_succeeds _ Hht) as (hm1 & -> & Hhm1). hrun.
  destruct (malloc_outcome_succeeds _ Hhm1) as (hm2 & -> & Hhm2).
  rewrite (array_size_fits n Hn). cbn [andb]. hrun.
  match goal with
  | |- context [createHashTable_for _ (Some ?al) _ ?x] =>
      destruct (createHashTable_for_total (Z.to_nat n) al 0%nat x
                  (replicate (Z.to_nat n) None))
        as (s2 & Hrun & Htab)
  end.
  - apply lookup_insert_eq.
  - by rewrite length_replicate.
  - exact Hls.
  - change (Z.of_nat 0) with 0 in Hrun. rewrite Hrun.
    eexists _, _, _. split; [reflexivity|].
    rewrite Htab. cbn [tables]. split; [apply lookup_insert_eq|reflexivity].
Qed.

(** For a negative number of buckets the size of the array, converted to
    [size_t], is more than any object may have: the allocation fails, and
    [createHashTable] frees the table and returns [NULL]. *)
Lemma createHashTable_negative ck fk pk cv fv pv ek tn n s :
  INT_MIN <= n < 0 ->
  exists s',
    createHashTable (V := V) (Some ck) (Some fk) (Some pk) (Some cv) (Some fv)
                    (Some pv) (Some ek) (Some tn) n s = Some (None, s') /\
    tables s' = tables s /\ arrays s' = arrays s /\ buckets s' = buckets s.
Proof.
  intros Hn. unfold createHashTable, HashTable.malloc, malloc_bytes. hrun.
  destruct (malloc_outcome (ht_mallocs s)) as [[|] hm1]; hrun;
    [|by eexists].
  destruct (malloc_outcome hm1) as [ok hm2].
  rewrite (array_size_too_large n Hn), andb_false_r. hrun. by eexists.
Qed.

Lemma int_rem_in_range h n :
  1 <= n -> (0 <= Z.rem h n < n <-> 0 <= h \/ Z.rem h n = 0).
Proof.
  intros Hn. split.
  - intros Hrange. destruct (Z.le_gt_cases 0 h) as [Hh|Hh]; [by left|right].
    pose proof (Z.rem_bound_pos (- h) n ltac:(lia) ltac:(lia)) as Hpos.
    rewrite Z.rem_opp_l in Hpos by lia. lia.
  - intros [Hh|Hz]; [apply Z.rem_bound_pos; lia|lia].
Qed.

Lemma bucket_index_undefined A
    (g : hashTable_s K V W -> LinkedList -> M (htstate K V W) A) s t T k h :
  tables s !! t = Some T ->
  transIntoNumber T k (user (world (buckets s))) = Some h ->
  tableSize T = 0 \/ Z.rem h (tableSize T) < 0 ->
  bind (get_table t) (fun T =>
    bind (read_callback (transIntoNumber T k)) (fun key_num =>
      bind (int_rem key_num (tableSize T)) (fun index =>
        bind (array_read (table T) index) (g T)))) s = None.
Proof.
  intros Ht Hh Hbad. hrun. rewrite Ht. hrun. rewrite Hh. unfold int_rem.
  destruct ((tableSize T =? 0) || _) eqn:Hcond; [reflexivity|].
  apply orb_false_iff in Hcond as [Hsize _].
  destruct Hbad as [Hz|Hneg]; [lia|].
  hrun. unfold array_read.
  destruct (table T) as [al|]; [|reflexivity].
  destruct (arrays s !! al) as [cells|]; [|reflexivity].
  replace (0 <=? Z.rem h (tableSize T)) with false by (symmetry; lia).
  reflexivity.
Qed.

(** C10. [createHashTable] does not look at the number of buckets it is
    asked for.  For a number from 0 to [INT_MAX] it returns, when its
    allocations succeed, a table of that [tableSize] (a table of no bucket
    for 0); for a negative number the size of the bucket array, taken in
    [size_t], is more than an object may have, the allocation fails and
    [NULL] is returned.  The three operations on keys index the bucket
    array with [hash(key) % tableSize] and nothing guards the index: for
    [tableSize >= 1] it is within [0 .. tableSize - 1] when
    [hash(key) >= 0], and more exactly when [hash(key) >= 0] or
    [tableSize] divides [hash(key)] (as for the hash -13 in 13 buckets);
    the operations are undefined when [tableSize] is 0 (a division by
    zero) and when the remainder is negative (a read before the array, as
    for the hash -1 in 13 buckets). *)
Theorem bucket_count_and_index_unguarded :
  (forall ck fk pk cv fv pv ek tn n s,
     0 <= n <= INT_MAX ->
     all_succeed (ht_mallocs s) -> all_succeed (mallocs (buckets s)) ->
     exists t s' T,
       createHashTable (V := V) (Some ck) (Some fk) (Some pk) (Some cv)
                       (Some fv) (Some pv) (Some ek) (Some tn) n s
       = Some (Some t, s') /\
       tables s' !! t = Some T /\ tableSize T = n) /\
  (forall ck fk pk cv fv pv ek tn n s,
     INT_MIN <= n < 0 ->
     exists s',
       createHashTable (V := V) (Some ck) (Some fk) (Some pk) (Some cv)
                       (Some fv) (Some pv) (Some ek) (Some tn) n s
       = Some (None, s') /\
       tables s' = tables s /\ arrays s' = arrays s /\
       buckets s' = buckets s) /\
  (forall h n s,
     1 <= n -> 0 <= h ->
     int_rem h n s = Some (Z.rem h n, s) /\ 0 <= Z.rem h n < n) /\
  (forall h n s,
     1 <= n ->
     int_rem h n s = Some (Z.rem h n, s) /\
     (0 <= Z.rem h n < n <-> 0 <= h \/ Z.rem h n = 0)) /\
  (forall s t T k v h,
     tables s !! t = Some T ->
     transIntoNumber T (Some k) (user (world (buckets s))) = Some h ->
     tableSize T = 0 \/ Z.rem h (tableSize T) < 0 ->
     addToHashTable (Some t) (Some k) (Some v) s = None /\
     lookupInHashTable (Some t) (Some k) s = None /\
     removeFromHashTable (Some t) (Some k) s = None) /\
  Z.rem (-1) 13 < 0 /\ Z.rem (-13) 13 = 0.
Proof.
  assert (Hrem : forall h n s, 1 <= n ->
            int_rem h n s = Some (Z.rem h n, s)).
  { intros h n s Hn. unfold int_rem.
    replace ((n =? 0) || ((h =? INT_MIN) && (n =? -1))) with false;
      [reflexivity|].
    symmetry. apply orb_false_iff. split; [lia|].
    apply andb_false_iff. right. lia. }
  split; [|split; [|split; [|split; [|split]]]].
  - intros. by apply createHashTable_succeeds.
  - intros. by apply createHashTable_negative.
  - intros h n s Hn Hh. split; [by apply Hrem|].
    apply Z.rem_bound_pos; lia.
  - intros h n s Hn. split; [by apply Hrem|]. by apply int_rem_in_range.
  - intros s t T k v h Ht Hh Hbad.
    split; [|split];
      eapply bucket_index_undefined; eassumption.
  - split; reflexivity.
Qed.

End Unguarded.

Import Examples.

(** C5. Three buckets are asked for and the allocation of the second list
    fails: [createHashTable] returns [NULL] and has freed the table and
    the array, but the list created for the first bucket is still
    allocated. *)
Theorem createHashTable_failure_leaks :
  exists s',
    createHashTable (Some copy_nat) (Some free_nat) (Some print_nat)
      (Some copy_nat) (Some free_nat) (Some print_nat) (Some equal_nat)
      (Some number_nat) 3 leak_s0 = Some (None, s') /\
    tables s' = ∅ /\ arrays s' = ∅ /\
    lists (buckets leak_s0) = ∅ /\
    lists (buckets s') = {[ 1%positive := new_bucket ]}.
Proof.
  eexists. split; [vm_compute; reflexivity|].
  split; [|split; [|split]]; reflexivity.
Qed.

Lemma bucket_count_and_index_unguarded_witness :
  (1 <= 13 /\ 0 <= 20) /\
  int_rem 20 13 table_s1 = Some (7, table_s1) /\ 0 <= Z.rem 20 13 < 13.
Proof.
  split; [lia|].
  apply (proj1 (proj2 (proj2 (@bucket_count_and_index_unguarded nat nat Z))));
    lia.
Defined.

(** C10 (as stated) fails for a negative number of buckets and for its
    "only": asked for -1 buckets, with no allocation that runs out of
    memory, [createHashTable] returns [NULL] and no table of [tableSize]
    -1; and the hash -13, which is negative, gives the index 0 in 13
    buckets, where [lookupInHashTable] is defined. *)
Lemma createHashTable_minus_one_returns_NULL :
  all_succeed (ht_mallocs table_s0) /\
  all_succeed (mallocs (buckets table_s0)) /\
  createHashTable (Some copy_nat) (Some free_nat) (Some print_nat)
    (Some copy_nat) (Some free_nat) (Some print_nat) (Some equal_nat)
    (Some number_nat) (-1) table_s0 = Some (None, table_s0) /\
  int_rem (-13) 13 table_s1 = Some (0, table_s1) /\ 0 <= 0 < 13.
Proof.
  split; [constructor|]. split; [constructor|].
  split; [vm_compute; reflexivity|]. split; [reflexivity|lia].
Qed.

Lemma table_s1_rep :
  table_rep table_s1 table_t table_T (replicate 13 []).
Proof.
  apply (createHashTable_rep copy_nat free_nat print_nat copy_nat free_nat
           print_nat equal_nat number_nat 13 table_s0 table_t table_s1).
  vm_compute. reflexivity.
Defined.

Lemma table_T_pure : pure_callbacks Nat.eqb Z.of_nat table_T.
Proof. split; reflexivity. Defined.

Lemma copy_nat_faithful : faithful copy_nat.
Proof. intros x w r w' H. by injection H as -> _. Defined.

Lemma eqb_equivalence : eqK_equivalence Nat.eqb.
Proof.
  split; [apply Nat.eqb_refl|]. split; [apply Nat.eqb_sym|].
  intros a b c Hab Hbc. apply Nat.eqb_eq in Hab, Hbc. apply Nat.eqb_eq.
  congruence.
Defined.

Lemma add_then_lookup_witness :
  addToHashTable (Some table_t) (Some 5%nat) (Some 50%nat) table_s1
  = Some (success, table_s2) /\
  lookupInHashTable (Some table_t) (Some 5%nat) table_s2
  = in_callback (copy_nat (Some 50%nat)) table_s2 /\
  (forall r s2,
     lookupInHashTable (Some table_t) (Some 5%nat) table_s2
     = Some (Some r, s2) -> r = 50%nat) /\
  (forall v',
     addToHashTable (Some table_t) (Some 5%nat) (Some v') table_s2
     = Some (element_exist, table_s2)).
Proof.
  assert (Hadd : addToHashTable (Some table_t) (Some 5%nat) (Some 50%nat)
                   table_s1 = Some (success, table_s2))
    by (vm_compute; reflexivity).
  split; [exact Hadd|].
  exact (add_then_lookup Nat.eqb Z.of_nat table_s1 table_t table_T
           (replicate 13 []) 5%nat 50%nat table_s2 table_s1_rep table_T_pure
           Nat.eqb_refl copy_nat_faithful copy_nat_faithful Hadd).
Defined.

Lemma add_remove_lookup_witness :
  addToHashTable (Some table_t) (Some 5%nat) (Some 50%nat) table_s1
  = Some (success, table_s2) /\
  removeFromHashTable (Some table_t) (Some 5%nat) table_s2
  = Some (success, table_s3) /\
  lookupInHashTable (Some table_t) (Some 5%nat) table_s3
  = Some (None, table_s3).
Proof.
  assert (Hadd : addToHashTable (Some table_t) (Some 5%nat) (Some 50%nat)
                   table_s1 = Some (success, table_s2))
    by (vm_compute; reflexivity).
  assert (Hrem : removeFromHashTable (Some table_t) (Some 5%nat) table_s2
                 = Some (success, table_s3))
    by (vm_compute; reflexivity).
  split; [exact Hadd|]. split; [exact Hrem|].
  refine (add_remove_lookup Nat.eqb Z.of_nat table_s1 table_t table_T
            (replicate 13 []) (Some 5%nat) (Some 50%nat) success table_s2
            success table_s3 table_s1_rep table_T_pure eqb_equivalence _
            copy_nat_faithful Hadd Hrem).
  intros i es Hes. apply lookup_replicate in Hes as [-> _]. exact I.
Defined.

End HashTableFacts.

(** ** The table of lists of values *)

Module MultiValueHashTableFacts.
Import LinkedList KeyValuePair HashTable MultiValueHashTable.
Import LinkedListFacts HashTableFacts.

Ltac run_in H :=
  repeat (progress (
    unfold bind, ret, undef, deref, get_self, upd_self, node_at, upd_node,
           free_node, call, call_equal in H;
    cbn [self env budget
         nodes head tail count_elements copyElement freeElement printElement
         equal next prev data lists world mallocs] in H)).

Lemma first_defined_split {A} (f : A -> option bool) (l : list A) :
  Forall (fun x => f x = Some false) l \/
  exists l1 x l2, l = l1 ++ x :: l2 /\
                  Forall (fun x => f x = Some false) l1 /\
                  f x <> Some false.
Proof.
  induction l as [|x l IH]; [left; constructor|].
  destruct (decide (f x = Some false)) as [Hx|Hx].
  - destruct IH as [Hall|(l1 & y & l2 & -> & Hall & Hy)].
    + left. by constructor.
    + right. exists (x :: l1), y, l2. split_and!; [done| |done].
      by constructor.
  - right. exists [], x, l. by split_and!.
Qed.

Section Lists.
Context {E P W : Type}.
Implicit Types (L : LinkedList_s E P W) (xs : list (loc * option E)).
Implicit Types (s : lstate E P W).

(** A search leaves the list as it is: only the copy function works on the
    memory of the callbacks. *)
Lemma searchByKeyInList_while_frame fuel key cur (c : focus E P W) r c' :
  searchByKeyInList_while fuel key cur c = Some (r, c') ->
  self c' = self c /\ budget c' = budget c.
Proof.
  revert cur c. induction fuel as [|fuel IH]; intros [a|] c Hrun;
    cbn [searchByKeyInList_while] in Hrun;
    try (by injection Hrun as <- <-); try discriminate.
  run_in Hrun.
  destruct (nodes (self c) !! a) as [n|]; [|discriminate]. run_in Hrun.
  destruct (equal (self c) (data n) key (env c)) as [[|]|]; [| |discriminate].
  - run_in Hrun.
    destruct (copyElement (self c) (data n) (env c)) as [[[d|] w]|];
      [| |discriminate]; run_in Hrun; by injection Hrun as <- <-.
  - by apply IH in Hrun.
Qed.

Lemma searchByKeyInList_frame l key s r s' :
  searchByKeyInList l key s = Some (r, s') ->
  lists s' = lists s /\ mallocs s' = mallocs s.
Proof.
  destruct l as [l|], key as [key|]; cbn [searchByKeyInList];
    try (by intros [= <- <-]).
  unfold with_list. destruct (lists s !! l) as [L|] eqn:Hl; [|discriminate].
  intros Hrun. run_in Hrun.
  match type of Hrun with
  | context [searchByKeyInList_while ?f ?k ?cur ?c] =>
      destruct (searchByKeyInList_while f k cur c) as [[r0 c']|] eqn:Hw;
      [|discriminate]
  end.
  apply searchByKeyInList_while_frame in Hw as [Hself Hbudget].
  injection Hrun as <- <-. cbn. cbn in Hself, Hbudget.
  rewrite Hself, Hbudget. split; [|reflexivity]. by apply insert_id.
Qed.

(** [destroyList] takes the list out of the heap of lists, whatever it
    held. *)
Lemma destroyList_frame l s r s' :
  destroyList (Some l) s = Some (r, s') ->
  lists s' = delete l (lists s).
Proof.
  unfold destroyList, with_list. unfold bind at 1.
  destruct (lists s !! l) as [L|]; [|discriminate].
  match goal with
  | |- context [match ?m ?c with _ => _ end] =>
      destruct (m c) as [[u c']|]; [|discriminate]
  end.
  intros [= <- <-]. cbn. apply delete_insert_eq.
Qed.

Lemma deleteNode_undefined l key s L xs1 c d xs2 :
  lists s !! l = Some L -> list_rep L (xs1 ++ (c, d) :: xs2) ->
  Forall (fun x => equal L x.2 (Some key) (world s) = Some false) xs1 ->
  equal L d (Some key) (world s) = None ->
  deleteNode (Some l) (Some key) s = None.
Proof.
  intros Hl Hrep Hall Hd. pose proof Hrep as (Hseg & Hnd & _).
  destruct (dseg_split _ _ _ _ _ _ _ _ _ Hseg Hnd)
    as (pc & nx & Hxs1 & Hc & _).
  pose proof (list_rep_length_le_size _ _ Hrep) as Hlen.
  rewrite length_app in Hlen. cbn in Hlen.
  unfold deleteNode, with_list. rewrite Hl. run.
  replace (S (size (nodes L)))
    with (length xs1 + S (size (nodes L) - length xs1))%nat by lia.
  rewrite (deleteNode_while_skip _ _ _ _ _ _ _ _ _ _ Hxs1 Hall).
  cbn [deleteNode_while]. run. rewrite Hc. run. by rewrite Hd.
Qed.

(** What [deleteNode] has done when it returns. *)
Lemma deleteNode_inv l key s L xs st s' :
  lists s !! l = Some L -> list_rep L xs ->
  deleteNode (Some l) (Some key) s = Some (st, s') ->
  (st = no_element /\ s' = s) \/
  (st = success /\
   exists L' xs1 x xs2,
     xs = xs1 ++ x :: xs2 /\
     Forall (fun x => equal L x.2 (Some key) (world s) = Some false) xs1 /\
     equal L x.2 (Some key) (world s) = Some true /\
     list_rep L' (after_delete xs1 xs2) /\ same_ops L L' /\
     lists s' = <[l := L']> (lists s)).
Proof.
  intros Hl Hrep Hrun.
  destruct (first_defined_split
              (fun x => equal L x.2 (Some key) (world s)) xs)
    as [Hall|(xs1 & [c d] & xs2 & -> & Hall & Hd)].
  - rewrite (deleteNode_miss l key s L xs Hl Hrep Hall) in Hrun.
    injection Hrun as <- <-. by left.
  - cbn in Hd.
    destruct (equal L d (Some key) (world s)) as [[|]|] eqn:He;
      [|done|].
    + destruct (deleteNode_hit l key s L xs1 c d xs2 Hl Hrep Hall He)
        as (L' & Hrep' & Hops & _ & Hdel).
      rewrite Hdel in Hrun.
      destruct (freeElement L d (world s)) as [[r w']|]; [|discriminate].
      injection Hrun as <- <-. right. split; [reflexivity|].
      by exists L', xs1, (c, d), xs2.
    + by rewrite (deleteNode_undefined l key s L xs1 c d xs2) in Hrun.
Qed.

Lemma searchByKeyInList_while_undefined fuel L w b key xs1 c d xs2 pv cur
    last nxt :
  dseg (nodes L) pv cur (xs1 ++ (c, d) :: xs2) last nxt ->
  (length xs1 < fuel)%nat ->
  Forall (fun x => equal L x.2 key w = Some false) xs1 ->
  equal L d key w = None ->
  searchByKeyInList_while fuel key cur (mkFocus L w b) = None.
Proof.
  revert fuel pv cur. induction xs1 as [|[a e] xs1 IH];
    intros fuel pv cur Hseg Hfuel Hall Hd.
  - destruct Hseg as (-> & nx & Hc & Hrest).
    destruct fuel as [|fuel]; [cbn in Hfuel; lia|].
    cbn [searchByKeyInList_while]. run. rewrite Hc. run. by rewrite Hd.
  - destruct Hseg as (-> & nx & Ha & Hrest).
    destruct fuel as [|fuel]; [cbn in Hfuel; lia|].
    apply Forall_cons in Hall as [He Hall]. cbn in He.
    cbn [searchByKeyInList_while]. run. rewrite Ha. run. rewrite He.
    eapply IH; [eassumption| cbn in Hfuel; lia |assumption|assumption].
Qed.

(** A search that finds an element has met the first one that is equal to
    the probe. *)
Lemma searchByKeyInList_found l key s L xs r s' :
  lists s !! l = Some L -> list_rep L xs ->
  searchByKeyInList (Some l) (Some key) s = Some (Some r, s') ->
  exists xs1 x xs2,
    xs = xs1 ++ x :: xs2 /\
    Forall (fun x => equal L x.2 (Some key) (world s) = Some false) xs1 /\
    equal L x.2 (Some key) (world s) = Some true.
Proof.
  intros Hl Hrep Hrun.
  destruct (first_defined_split
              (fun x => equal L x.2 (Some key) (world s)) xs)
    as [Hall|(xs1 & [c d] & xs2 & -> & Hall & Hd)].
  - by rewrite (searchByKeyInList_miss l key s L xs Hl Hrep Hall) in Hrun.
  - cbn in Hd.
    destruct (equal L d (Some key) (world s)) as [[|]|] eqn:He; [|done|].
    + by exists xs1, (c, d), xs2.
    + exfalso. revert Hrun. unfold searchByKeyInList, with_list.
      rewrite Hl. run.
      rewrite (searchByKeyInList_while_undefined _ _ _ _ _ xs1 c d xs2 None
                 (head L) (tail L) None); [done|apply Hrep| |done|done].
      pose proof (list_rep_length_le_size _ _ Hrep) as Hlen.
      rewrite length_app in Hlen. cbn in Hlen. lia.
Qed.

End Lists.

Section Multi.
Context {K V U : Type}.
Variables (eqK : K -> K -> bool) (hashK : K -> Z).
Variable ev : EqualFunction V V U.
Implicit Types (h : htstate K loc (values V U)) (s : mstate K V U).
Implicit Types (w : values V U) (ls : gmap loc (LinkedList_s V V U)).
Implicit Types (cont : list (list (@entry K loc))).

(** The heap of the lists of values lies below the underlying table, as
    the memory of its callbacks. *)
Definition vals h : values V U := user (world (buckets h)).

Definition set_vals w h : htstate K loc (values V U) :=
  mkHtstate (tables h) (arrays h) (ht_mallocs h)
    (mkLstate (lists (buckets h))
       (mkKvstate (pairs (world (buckets h))) w
                  (kv_mallocs (world (buckets h))))
       (mallocs (buckets h))).

Definition set_under h s : mstate K V U :=
  mkMstate (multis s) (m_mallocs s) h.

(** The state after a function of LinkedList.c has run on the lists of
    values and has left them as [w]. *)
Definition touch w s : mstate K V U := set_under (set_vals w (under s)) s.

Lemma set_vals_id h : set_vals (vals h) h = h.
Proof. by destruct h as [? ? ? [? [] ?]]. Qed.

Lemma set_under_id s : set_under (under s) s = s.
Proof. by destruct s. Qed.

Lemma touch_id s : touch (vals (under s)) s = s.
Proof. unfold touch. by rewrite set_vals_id, set_under_id. Qed.

Lemma touch_touch w w' s : touch w' (touch w s) = touch w' s.
Proof. reflexivity. Qed.

Lemma vals_touch w s : vals (under (touch w s)) = w.
Proof. reflexivity. Qed.

Lemma in_callback_eq {A} (c : M (values V U) A) h :
  in_callback c h
  = match c (vals h) with
    | Some (a, w) => Some (a, set_vals w h)
    | None => None
    end.
Proof.
  unfold in_callback, in_pairs, in_buckets, in_world, in_user, vals.
  cbn. by destruct (c _) as [[a w]|].
Qed.

Lemma in_table_inv {A} (c : M (htstate K loc (values V U)) A) s a s' :
  in_table c s = Some (a, s') ->
  exists h', c (under s) = Some (a, h') /\ s' = set_under h' s.
Proof.
  unfold in_table. destruct (c (under s)) as [[a0 h']|]; [|discriminate].
  intros [= <- <-]. by exists h'.
Qed.

Lemma in_values_inv {A} (c : M (values V U) A) s a s' :
  in_values c s = Some (a, s') ->
  exists w', c (vals (under s)) = Some (a, w') /\ s' = touch w' s.
Proof.
  unfold in_values. intros Hrun.
  apply in_table_inv in Hrun as (h' & Hrun & ->).
  rewrite in_callback_eq in Hrun.
  destruct (c (vals (under s))) as [[a0 w']|]; [|discriminate].
  injection Hrun as <- <-. by exists w'.
Qed.

(** A sequence of additions and removals, as a program that uses the table
    may do them. *)
Inductive operation : Type :=
| Add (key : option K) (value : option V)
| Remove (key : option K) (value : option V).

Definition perform (MultiHashTable : multiHashTable) (o : operation)
  : M (mstate K V U) status :=
  match o with
  | Add key value => addToMultiValueHashTable MultiHashTable key value
  | Remove key value =>
      removeFromMultiValueHashTable MultiHashTable key value
  end.

Fixpoint perform_all (MultiHashTable : multiHashTable)
    (os : list operation) : M (mstate K V U) (list status) :=
  match os with
  | [] => ret []
  | o :: os' =>
      let* r := perform MultiHashTable o in
      let* rs := perform_all MultiHashTable os' in
      ret (r :: rs)
  end.

(** Every key of the table has a list of values, which is not empty, and
    no two keys share a list. *)
Definition values_ok ls cont : Prop :=
  (forall i es e, cont !! i = Some es -> e ∈ es ->
     exists VL ys, ls !! e_val e = Some VL /\ list_rep VL ys /\ ys <> [] /\
                   equal VL = ev) /\
  (forall i j es es' e e',
     cont !! i = Some es -> cont !! j = Some es' -> e ∈ es -> e' ∈ es' ->
     e_val e = e_val e' -> e_pair e = e_pair e').

Lemma values_ok_update ls cont l L' ys' :
  values_ok ls cont -> list_rep L' ys' -> ys' <> [] -> equal L' = ev ->
  values_ok (<[l := L']> ls) cont.
Proof.
  intros [Hlists Hdist] Hrep Hne Hev. split; [|exact Hdist].
  intros i es e Hes He.
  destruct (decide (e_val e = l)) as [->|Hl].
  - exists L', ys'. by rewrite lookup_insert_eq.
  - rewrite lookup_insert_ne by done. by eapply Hlists.
Qed.

Lemma values_ok_fresh ls cont l i es e :
  values_ok ls cont -> ls !! l = None ->
  cont !! i = Some es -> e ∈ es -> e_val e <> l.
Proof.
  intros [Hlists _] Hl Hes He Heq.
  destruct (Hlists i es e Hes He) as (VL & ys & HVL & _). congruence.
Qed.

Lemma values_ok_delete ls cont l :
  values_ok ls cont ->
  (forall i es e, cont !! i = Some es -> e ∈ es -> e_val e <> l) ->
  values_ok (delete l ls) cont.
Proof.
  intros [Hlists Hdist] Hl. split; [|exact Hdist].
  intros i es e Hes He. rewrite lookup_delete_ne; [by eapply Hlists|].
  intros Heq. by eapply Hl.
Qed.

Lemma lookup_insert_bucket cont i new j es' :
  <[i := new]> cont !! j = Some es' ->
  (j = i /\ es' = new) \/ (j <> i /\ cont !! j = Some es').
Proof.
  intros Hj. apply list_lookup_insert_Some in Hj as [(-> & -> & _)|[Hne Hj]].
  - by left.
  - right. by split.
Qed.

Lemma values_ok_add ls cont i es e VL ys :
  values_ok ls cont -> cont !! i = Some es ->
  (forall j es' e', cont !! j = Some es' -> e' ∈ es' -> e_val e' <> e_val e) ->
  ls !! e_val e = Some VL -> list_rep VL ys -> ys <> [] -> equal VL = ev ->
  values_ok ls (<[i := es ++ [e]]> cont).
Proof.
  intros [Hlists Hdist] Hes Hnew HVL Hrep Hne Hev.
  assert (Hin : forall j es' e',
            <[i := es ++ [e]]> cont !! j = Some es' -> e' ∈ es' ->
            e' = e \/ exists es0, cont !! j = Some es0 /\ e' ∈ es0).
  { intros j es' e' Hj He'.
    apply lookup_insert_bucket in Hj as [[-> ->]|[Hne' Hj]].
    - apply elem_of_app in He' as [He'|He'].
      + right. by exists es.
      + left. by apply list_elem_of_singleton in He'.
    - right. by exists es'. }
  split.
  - intros j es' e' Hj He'.
    destruct (Hin j es' e' Hj He') as [->|(es0 & Hes0 & He0)].
    + by exists VL, ys.
    + by eapply Hlists.
  - intros j1 j2 es1' es2' e1 e2 Hj1 Hj2 He1 He2 Heq.
    destruct (Hin j1 es1' e1 Hj1 He1) as [->|(es01 & Hes01 & He01)],
             (Hin j2 es2' e2 Hj2 He2) as [->|(es02 & Hes02 & He02)].
    + reflexivity.
    + exfalso. by eapply Hnew.
    + exfalso. by eapply Hnew.
    + by eapply (Hdist j1 j2 es01 es02).
Qed.

Lemma values_ok_remove ls cont i es1 e es2 :
  values_ok ls cont -> pairs_distinct cont ->
  cont !! i = Some (es1 ++ e :: es2) ->
  values_ok (delete (e_val e) ls) (<[i := after_delete es1 es2]> cont).
Proof.
  intros [Hlists Hdist] [Hnd Hbuckets] Hes.
  assert (Hin : forall j es' e',
            <[i := after_delete es1 es2]> cont !! j = Some es' -> e' ∈ es' ->
            e_pair e' <> e_pair e /\
            exists es0, cont !! j = Some es0 /\ e' ∈ es0).
  { intros j es' e' Hj He'.
    assert (He : e ∈ es1 ++ e :: es2) by (apply elem_of_app; right; left).
    apply lookup_insert_bucket in Hj as [[-> ->]|[Hne' Hj]].
    - apply after_delete_elem in He'.
      split.
      + specialize (Hnd i _ Hes). rewrite fmap_app, fmap_cons in Hnd.
        apply NoDup_app in Hnd as (_ & Hdisj & Hnd2).
        apply NoDup_cons in Hnd2 as [Hnot _].
        apply elem_of_app in He' as [He'|He']; intros Heq.
        * eapply Hdisj; [eapply list_elem_of_fmap_2; eassumption|].
          rewrite Heq. left.
        * apply Hnot. rewrite <- Heq. by eapply list_elem_of_fmap_2.
      + exists (es1 ++ e :: es2). split; [assumption|].
        apply elem_of_app in He' as [He'|He']; apply elem_of_app;
          [by left|right; by right].
    - split.
      + intros Heq. apply Hne'. by eapply (Hbuckets j i es' _ e' e).
      + by exists es'. }
  split.
  - intros j es' e' Hj He'.
    destruct (Hin j es' e' Hj He') as (Hne & es0 & Hes0 & He0).
    rewrite lookup_delete_ne; [by eapply (Hlists j es0)|].
    intros Heq. apply Hne. symmetry.
    eapply (Hdist i j); try eassumption. apply elem_of_app. right. left.
  - intros j1 j2 es1' es2' e1 e2 Hj1 Hj2 He1 He2 Heq.
    destruct (Hin j1 es1' e1 Hj1 He1) as (_ & es01 & Hes01 & He01),
             (Hin j2 es2' e2 Hj2 He2) as (_ & es02 & Hes02 & He02).
    by eapply (Hdist j1 j2 es01 es02).
Qed.


Lemma bind_inv {S A B} (c : M S A) (f : A -> M S B) (q : S) r :
  bind c f q = Some r -> exists a q1, c q = Some (a, q1) /\ f a q1 = Some r.
Proof.
  unfold bind. destruct (c q) as [[a q1]|]; [|discriminate].
  intros Hrun. by exists a, q1.
Qed.

Section Steps.
Variables (m t : loc) (Mu : MultiHashTable_s K V U).
Variable T : hashTable_s K loc (values V U).

(** [T] is the table that [createMultiValueHashTable] made for [Mu]. *)
Definition multi_callbacks : Prop :=
  MultiValueHashTable.HashTable Mu = Some t /\
  HashTable.copyKey T = key_copy (MultiValueHashTable.copyKey Mu) /\
  HashTable.freeKey T = key_free (MultiValueHashTable.freeKey Mu) /\
  HashTable.copyValue T = copyLinkListVal /\
  HashTable.freeValue T = destroyList /\
  HashTable.equalKey T = key_equal (MultiValueHashTable.equalKey Mu) /\
  HashTable.transIntoNumber T
  = key_number (MultiValueHashTable.transIntoNumber Mu) /\
  equalVal Mu = ev.

(** The equality and the number of a key depend on the key alone. *)
Definition pure_keys : Prop :=
  (forall a b u,
     MultiValueHashTable.equalKey Mu (Some a) (Some b) u = Some (eqK a b)) /\
  (forall k u,
     MultiValueHashTable.transIntoNumber Mu (Some k) u = Some (hashK k)).

(** A key is kept once in the table when the copy of a key is equal to the
    key. *)
Definition tinv s cont : Prop :=
  multis s !! m = Some Mu /\ table_rep (under s) t T cont /\
  (faithful (MultiValueHashTable.copyKey Mu) -> keys_unique eqK cont).

Definition minv s cont : Prop :=
  tinv s cont /\ values_ok (lists (vals (under s))) cont.

Hypothesis Hcb : multi_callbacks.
Hypothesis Hpure : pure_keys.

Lemma pure_T : pure_callbacks eqK hashK T.
Proof.
  destruct Hcb as (_ & _ & _ & _ & _ & Heq & Hnum & _), Hpure as [He Hh].
  split; intros; [rewrite Heq|rewrite Hnum]; [apply He|apply Hh].
Qed.

Lemma tinv_touch w s cont : tinv s cont -> tinv (touch w s) cont.
Proof.
  intros (Hm & Hrep & Hu). split; [exact Hm|]. split; [|exact Hu].
  eapply table_rep_frame; [exact Hrep|reflexivity..|]. by intros.
Qed.

Lemma callbacks_keep_lists w w' :
  callbacks_step T w w' -> lists w' = lists w.
Proof.
  destruct Hcb as (_ & Hck & Hfk & Hcv & _).
  intros Hstep. apply (Hstep (fun w w' => lists w' = lists w)).
  - done.
  - intros w0 w1 w2 H1 H2. by rewrite H2.
  - intros x w0 r w1. rewrite Hck. unfold key_copy, in_world.
    destruct (MultiValueHashTable.copyKey Mu x (world w0)) as [[a u]|];
      [|discriminate].
    by intros [= <- <-].
  - intros x w0 r w1. rewrite Hcv. by destruct x; intros [= <- <-].
  - intros x w0 r w1. rewrite Hfk. unfold key_free, in_world.
    destruct (MultiValueHashTable.freeKey Mu x (world w0)) as [[a u]|];
      [|discriminate].
    by intros [= <- <-].
Qed.

Lemma lookup_defined h cont k r :
  table_rep h t T cont ->
  lookupInHashTable (Some t) (Some k) h = Some r ->
  0 <= bucket_index hashK T k /\
  exists es, cont !! Z.to_nat (bucket_index hashK T k) = Some es.
Proof.
  intros Hrep Hrun. unfold lookupInHashTable in Hrun.
  exact (bucket_access_inv eqK hashK _ _ _ _ _ _ _ _ Hrep pure_T Hrun).
Qed.

Lemma values_lookup_hit h cont k es1 e es2 :
  table_rep h t T cont -> 0 <= bucket_index hashK T k ->
  cont !! Z.to_nat (bucket_index hashK T k) = Some (es1 ++ e :: es2) ->
  Forall (fun e => matches eqK k e = false) es1 -> matches eqK k e = true ->
  lookupInHashTable (Some t) (Some k) h = Some (Some (e_val e), h).
Proof.
  intros Hrep Hidx Hes Hmiss Hhit.
  rewrite (lookup_hit eqK hashK h t T cont k _ es1 e es2 Hrep pure_T Hidx Hes
             eq_refl Hmiss Hhit).
  destruct Hcb as (_ & _ & _ & -> & _).
  rewrite in_callback_eq. cbn. by rewrite set_vals_id.
Qed.

Lemma first_match_unique (k : K) (es1 es1' es2 es2' : list (@entry K loc))
    e e' :
  es1 ++ e :: es2 = es1' ++ e' :: es2' ->
  Forall (fun e => matches eqK k e = false) es1 -> matches eqK k e = true ->
  Forall (fun e => matches eqK k e = false) es1' -> matches eqK k e' = true ->
  es1 = es1' /\ e = e' /\ es2 = es2'.
Proof.
  revert es1'. induction es1 as [|x es1 IH]; intros [|x' es1'] Heq H1 He H1' He'.
  - by injection Heq as -> ->.
  - injection Heq as -> _. apply Forall_cons in H1' as [Hx _]. congruence.
  - injection Heq as -> _. apply Forall_cons in H1 as [Hx _]. congruence.
  - injection Heq as -> Heq.
    apply Forall_cons in H1 as [_ H1], H1' as [_ H1'].
    destruct (IH es1' Heq H1 He H1' He') as (-> & -> & ->). done.
Qed.


Lemma values_ok_new_list ls cont VL :
  values_ok ls cont -> 
  values_ok (<[fresh (dom ls) := VL]> ls) cont /\
  forall i es e, cont !! i = Some es -> e ∈ es -> e_val e <> fresh (dom ls).
Proof.
  intros Hvals.
  assert (Hfresh : ls !! fresh (dom ls) = None).
  { apply not_elem_of_dom. apply is_fresh. }
  assert (Hne : forall i es e,
            cont !! i = Some es -> e ∈ es -> e_val e <> fresh (dom ls)).
  { intros i es e. exact (values_ok_fresh ls cont _ i es e Hvals Hfresh). }
  split; [|exact Hne].
  destruct Hvals as [Hlists Hdist]. split; [|exact Hdist].
  intros i es e Hes He. rewrite lookup_insert_ne; [by eapply Hlists|].
  intros Heq. by eapply Hne.
Qed.

Lemma destroy_new_list s1 cont vl (st0 st : status) s' :
  tinv s1 cont ->
  values_ok (delete vl (lists (vals (under s1)))) cont ->
  (let* _ := in_values (destroyList (Some vl)) in ret st0) s1
  = Some (st, s') ->
  minv s' cont.
Proof.
  intros Htinv Hvals Hrun.
  apply bind_inv in Hrun as (r & s2 & Hdestroy & Hrun).
  apply in_values_inv in Hdestroy as (w' & Hdestroy & ->).
  apply destroyList_frame in Hdestroy. injection Hrun as <- <-.
  split; [by apply tinv_touch|]. rewrite vals_touch. by rewrite Hdestroy.
Qed.

(** [addToMultiValueHashTable] keeps the invariant. *)
Lemma add_step s cont k v st s' :
  minv s cont ->
  addToMultiValueHashTable (Some m) k v s = Some (st, s') ->
  exists cont', minv s' cont'.
Proof.
  intros Hinv Hrun.
  destruct k as [k|], v as [v|];
    try (injection Hrun as <- <-; by exists cont).
  pose proof Hinv as [(Hm & Hrep & Huniq) Hvals].
  pose proof Hcb as (HT & Hck & Hfk & Hcv & Hfv & Hek & Htn & Hev).
  cbn [addToMultiValueHashTable] in Hrun.
  apply bind_inv in Hrun as (Mu' & s0 & Hget & Hrun).
  unfold get_multi in Hget. rewrite Hm in Hget. injection Hget as <- <-.
  rewrite HT in Hrun.
  apply bind_inv in Hrun as (r & s1 & Hlook & Hrun).
  apply in_table_inv in Hlook as (h1 & Hlook & ->).
  destruct (lookup_defined _ _ _ _ Hrep Hlook) as (Hidx & es & Hes).
  destruct (first_match_split (matches eqK k) es)
    as [Hmiss|(es1 & e & es2 & -> & Hmiss & Hhit)].
  - (* a new key *)
    rewrite (lookup_miss eqK hashK _ _ _ _ _ _ Hrep pure_T Hidx Hes Hmiss)
      in Hlook.
    injection Hlook as <- <-. rewrite set_under_id in Hrun.
    apply bind_inv in Hrun as (vl' & s1 & Hcreate & Hrun).
    apply in_values_inv in Hcreate as (w1 & Hcreate & ->).
    rewrite createLinkedList_spec in Hcreate.
    destruct (malloc_outcome (mallocs (vals (under s)))) as [[|] rest];
      injection Hcreate as <- <-.
    2:{ injection Hrun as <- <-. exists cont.
        split; [by apply tinv_touch|exact Hvals]. }
    set (ls := lists (vals (under s))) in *. set (vl := fresh (dom ls)) in *.
    match type of Hrun with
    | context [<[vl := ?L]> ls] => set (VL0 := L) in *
    end.
    destruct (values_ok_new_list ls cont VL0 Hvals) as [Hvals1 Hnew].
    fold vl in Hvals1, Hnew.
    apply bind_inv in Hrun as (result & s2 & Happ & Hrun).
    apply in_values_inv in Happ as (w2 & Happ & ->).
    rewrite touch_touch in Hrun. rewrite vals_touch in Happ.
    match type of Happ with
    | appendNode _ _ ?w1 = _ =>
        pose proof (appendNode_spec vl v w1 VL0 [] (lookup_insert_eq _ _ _)
                      (list_rep_new _ _ _ _)) as Hspec
    end.
    cbn [mallocs world lists] in Hspec.
    assert (Hback : forall VL,
              values_ok (delete vl (<[vl := VL]> ls)) cont).
    { intros VL. rewrite delete_insert_eq. by apply values_ok_delete. }
    assert (Hfail : forall u b (st0 : status),
              (let* _ := in_values (destroyList (Some vl)) in ret st0)
                (touch (mkLstate (<[vl := VL0]> ls) u b) s) = Some (st, s') ->
              exists cont', minv s' cont').
    { intros u b st0 Hrun'. exists cont.
      eapply (destroy_new_list (touch (mkLstate (<[vl := VL0]> ls) u b) s)
                cont vl st0 st s');
        [by apply tinv_touch|exact (Hback VL0)|exact Hrun']. }
    destruct (malloc_outcome rest) as [[|] rest'].
    2:{ rewrite Hspec in Happ. injection Happ as <- <-.
        rewrite decide_True in Hrun by done. by eapply Hfail. }
    destruct (copyElement VL0 (Some v) (world (vals (under s))))
      as [[[d|] u']|]; [| |congruence].
    2:{ rewrite Hspec in Happ. injection Happ as <- <-.
        rewrite decide_True in Hrun by done. by eapply Hfail. }
    destruct Hspec as (VL1 & HVL1 & (_ & _ & _ & Hev1) & Hspec).
    cbn [equal VL0] in Hev1. rewrite Hev in Hev1.
    rewrite Hspec in Happ. injection Happ as <- <-.
    rewrite !decide_False in Hrun by done.
    rewrite insert_insert_eq in Hrun.
    set (w2 := mkLstate (<[vl := VL1]> ls) u' rest') in *.
    assert (Hvals2 : values_ok (lists w2) cont).
    { eapply values_ok_update; [exact Hvals|exact HVL1|done|exact Hev1]. }
    apply bind_inv in Hrun as (addResult & s3 & Hadd & Hrun).
    apply in_table_inv in Hadd as (h3 & Hadd & ->).
    destruct (tinv_touch w2 s cont (conj Hm (conj Hrep Huniq)))
      as (_ & Hrep2 & _).
    destruct (add_inv eqK hashK _ _ _ _ _ _ _ _ Hrep2 pure_T Hadd)
      as (_ & es' & Hes' & Hcases).
    rewrite Hes in Hes'. injection Hes' as <-.
    destruct Hcases
      as [(-> & -> & _)
         |(_ & Hstep & Htabs & Harrs &
           [(-> & Hrep3)
           |(-> & e & wk & Hcopyk & Hcopyv & Hfreshp & Hrep3)])].
    + rewrite !decide_False in Hrun by done. injection Hrun as <- <-.
      exists cont.
      split; [exact (tinv_touch w2 s cont (conj Hm (conj Hrep Huniq)))|].
      exact Hvals2.
    + rewrite decide_True in Hrun by done. exists cont.
      apply callbacks_keep_lists in Hstep.
      eapply (destroy_new_list (set_under h3 (touch w2 s)) cont vl _ st s');
        [by split|..|exact Hrun].
      cbn [under set_under]. unfold vals at 1. rewrite Hstep.
      apply (Hback VL1).
    + rewrite !decide_False in Hrun by done. injection Hrun as <- <-.
      apply callbacks_keep_lists in Hstep.
      rewrite Hcv in Hcopyv. injection Hcopyv as Hval _.
      rewrite Hck in Hcopyk. unfold key_copy, in_world in Hcopyk.
      destruct (MultiValueHashTable.copyKey Mu (Some k)
                  (world (user (world (buckets (under (touch w2 s)))))))
        as [[kc u1]|] eqn:Hkc; [|discriminate].
      injection Hcopyk as -> _.
      exists (<[Z.to_nat (bucket_index hashK T k) := es ++ [e]]> cont).
      split; [split; [exact Hm|split; [exact Hrep3|]]|].
      * intros Hf. apply Hf in Hkc.
        apply keys_unique_insert; [exact (Huniq Hf)|].
        apply unique_keys_snoc; [by eapply (Huniq Hf)|]. by rewrite Hkc.
      * cbn [under set_under]. unfold vals at 1. rewrite Hstep.
        eapply values_ok_add;
          [exact Hvals2|exact Hes| | |exact HVL1|done|exact Hev1].
        -- intros j es' e' Hj He'. rewrite <- Hval. by eapply Hnew.
        -- rewrite <- Hval. apply lookup_insert_eq.
  - (* the key has a list of values *)
    rewrite (values_lookup_hit _ _ _ _ _ _ Hrep Hidx Hes Hmiss Hhit) in Hlook.
    injection Hlook as <- <-. rewrite set_under_id in Hrun.
    apply bind_inv in Hrun as (res & s1 & Happ & Hrun).
    apply in_values_inv in Happ as (w1 & Happ & ->).
    assert (He : e ∈ es1 ++ e :: es2) by (apply elem_of_app; right; left).
    destruct (proj1 Hvals _ _ e Hes He) as (VL & ys & HVL & Hys & Hne & HevL).
    pose proof (appendNode_spec (e_val e) v (vals (under s)) VL ys HVL Hys)
      as Hspec.
    assert (Hvals1 : values_ok (lists w1) cont).
    { destruct (malloc_outcome (mallocs (vals (under s)))) as [[|] rest].
      - destruct (copyElement VL (Some v) (world (vals (under s))))
          as [[[d|] u']|]; [| |congruence].
        + destruct Hspec as (L' & HL' & (_ & _ & _ & Hev') & Hspec).
          rewrite Hspec in Happ. injection Happ as <- <-.
          eapply values_ok_update;
            [exact Hvals|exact HL'|by destruct ys|congruence].
        + rewrite Hspec in Happ. injection Happ as <- <-. exact Hvals.
      - rewrite Hspec in Happ. injection Happ as <- <-. exact Hvals. }
    exists cont.
    assert (s' = touch w1 s) as ->.
    { destruct (decide (res = Memory_Problem)); [by injection Hrun|].
      destruct (decide (res = Invalid_input)); by injection Hrun. }
    split; [by apply tinv_touch|exact Hvals1].
Qed.

(** The end of [removeFromMultiValueHashTable], once the list of values of
    [k] has been found empty: the key leaves the table and its list is
    destroyed. *)
Lemma evict_step s cont k es1 e es2 w st s' :
  minv s cont ->
  0 <= bucket_index hashK T k ->
  cont !! Z.to_nat (bucket_index hashK T k) = Some (es1 ++ e :: es2) ->
  Forall (fun e => matches eqK k e = false) es1 -> matches eqK k e = true ->
  delete (e_val e) (lists w) = delete (e_val e) (lists (vals (under s))) ->
  (let* removeFromHash := in_table (removeFromHashTable (Some t) (Some k)) in
   if decide (removeFromHash = Invalid_input) then ret Invalid_input
   else ret success) (touch w s) = Some (st, s') ->
  st = success /\
  minv s' (<[Z.to_nat (bucket_index hashK T k) := after_delete es1 es2]> cont).
Proof.
  intros [(Hm & Hrep & Huniq) Hvals] Hidx Hes Hmiss Hhit Hw Hrun.
  pose proof Hcb as (HT & Hck & Hfk & Hcv & Hfv & Hek & Htn & Hev).
  apply bind_inv in Hrun as (res & s1 & Hrem & Hrun).
  apply in_table_inv in Hrem as (h4 & Hrem & ->).
  destruct (tinv_touch w s cont (conj Hm (conj Hrep Huniq)))
    as (_ & Hrep1 & _).
  destruct (remove_inv eqK hashK _ _ _ _ _ _ _ Hrep1 pure_T Hrem)
    as (_ & es' & Hes' & Hcases).
  rewrite Hes in Hes'. injection Hes' as <-.
  destruct Hcases
    as [(_ & _ & Hall)
       |(-> & es1' & e' & es2' & r1 & wa & r2 & Heq & Hmiss' & Hhit' &
         Hfreek & Hfreev & Htabs & Harrs & Hrep4)].
  - apply Forall_app in Hall as [_ Hall].
    apply Forall_cons in Hall as [Hno _]. congruence.
  - destruct (first_match_unique k _ _ _ _ _ _ Heq Hmiss Hhit Hmiss' Hhit')
      as (<- & <- & <-).
    rewrite decide_False in Hrun by done. injection Hrun as <- <-.
    split; [reflexivity|].
    rewrite Hfk in Hfreek. unfold key_free, in_world in Hfreek.
    destruct (MultiValueHashTable.freeKey Mu (Some (e_key e))
                (world (user (world (buckets (under (touch w s)))))))
      as [[rk u1]|]; [|discriminate].
    injection Hfreek as _ <-.
    rewrite Hfv in Hfreev. apply destroyList_frame in Hfreev.
    cbn [lists] in Hfreev.
    split; [split; [exact Hm|split; [exact Hrep4|]]|].
    + intros Hf. apply keys_unique_insert; [exact (Huniq Hf)|].
      eapply unique_keys_after_delete. by eapply (Huniq Hf).
    + cbn [under set_under]. unfold vals at 1. rewrite Hfreev.
      change (lists (user (world (buckets (under (touch w s))))))
        with (lists w).
      rewrite Hw. apply values_ok_remove; [exact Hvals| |exact Hes].
      by destruct Hrep as (_ & al & cells & _ & _ & _ & _ & _ & Hpd).
Qed.

(** [removeFromMultiValueHashTable] keeps the invariant. *)
Lemma remove_step s cont k v st s' :
  minv s cont ->
  removeFromMultiValueHashTable (Some m) k v s = Some (st, s') ->
  exists cont', minv s' cont'.
Proof.
  intros Hinv Hrun.
  destruct k as [k|], v as [v|];
    try (injection Hrun as <- <-; by exists cont).
  pose proof Hinv as [(Hm & Hrep & Huniq) Hvals].
  pose proof Hcb as (HT & Hck & Hfk & Hcv & Hfv & Hek & Htn & Hev).
  cbn [removeFromMultiValueHashTable] in Hrun.
  apply bind_inv in Hrun as (Mu' & s0 & Hget & Hrun).
  unfold get_multi in Hget. rewrite Hm in Hget. injection Hget as <- <-.
  rewrite HT in Hrun.
  apply bind_inv in Hrun as (r & s1 & Hlook & Hrun).
  apply in_table_inv in Hlook as (h1 & Hlook & ->).
  destruct (lookup_defined _ _ _ _ Hrep Hlook) as (Hidx & es & Hes).
  destruct (first_match_split (matches eqK k) es)
    as [Hmiss|(es1 & e & es2 & -> & Hmiss & Hhit)].
  - rewrite (lookup_miss eqK hashK _ _ _ _ _ _ Hrep pure_T Hidx Hes Hmiss)
      in Hlook.
    injection Hlook as <- <-. rewrite set_under_id in Hrun.
    injection Hrun as <- <-. by exists cont.
  - rewrite (values_lookup_hit _ _ _ _ _ _ Hrep Hidx Hes Hmiss Hhit) in Hlook.
    injection Hlook as <- <-. rewrite set_under_id in Hrun.
    assert (He : e ∈ es1 ++ e :: es2) by (apply elem_of_app; right; left).
    destruct (proj1 Hvals _ _ e Hes He) as (VL & ys & HVL & Hys & Hne & HevL).
    apply bind_inv in Hrun as (found & s1 & Hsearch & Hrun).
    apply in_values_inv in Hsearch as (w1 & Hsearch & ->).
    apply searchByKeyInList_frame in Hsearch as [Hls1 _].
    assert (Hvals1 : values_ok (lists w1) cont) by (by rewrite Hls1).
    destruct found as [x|].
    2:{ injection Hrun as <- <-. exists cont.
        split; [by apply tinv_touch|exact Hvals1]. }
    apply bind_inv in Hrun as (dres & s2 & Hdel & Hrun).
    apply in_values_inv in Hdel as (w2 & Hdel & ->).
    rewrite vals_touch in Hdel. rewrite touch_touch in Hrun.
    assert (HVL1 : lists w1 !! e_val e = Some VL) by (by rewrite Hls1).
    assert (exists VL2 ys2,
              lists w2 !! e_val e = Some VL2 /\ list_rep VL2 ys2 /\
              equal VL2 = ev /\ dres <> Invalid_input /\
              (ys2 <> [] -> values_ok (lists w2) cont) /\
              delete (e_val e) (lists w2)
              = delete (e_val e) (lists (vals (under s))))
      as (VL2 & ys2 & HVL2 & Hys2 & Hev2 & Hdres & Hvals2 & Hdel2).
    { destruct (deleteNode_inv _ _ _ _ _ _ _ HVL1 Hys Hdel)
        as [[-> ->]
           |(-> & L' & xs1 & y & xs2 & -> & _ & _ & HL' & Hops & Hls2)].
      - exists VL, ys. split_and!; try done. by rewrite Hls1.
      - exists L', (after_delete xs1 xs2). rewrite Hls2.
        split_and!; try done.
        + apply lookup_insert_eq.
        + destruct Hops as (_ & _ & _ & Hops). congruence.
        + intros Hne2. eapply values_ok_update; try done.
          destruct Hops as (_ & _ & _ & Hops). congruence.
        + by rewrite delete_insert_eq, Hls1. }
    rewrite decide_False in Hrun by done.
    apply bind_inv in Hrun as (len & s3 & Hlen & Hrun).
    apply in_values_inv in Hlen as (w3 & Hlen & ->).
    rewrite vals_touch in Hlen. rewrite touch_touch in Hrun.
    rewrite (getLengthList_spec _ _ _ HVL2) in Hlen. injection Hlen as <- <-.
    destruct (Z.eqb_spec (count_elements VL2) 0) as [Hzero|Hnonzero].
    + eexists. eapply evict_step; eassumption.
    + injection Hrun as <- <-. exists cont.
      split; [by apply tinv_touch|]. apply Hvals2. intros ->.
      destruct Hys2 as (_ & _ & Hcount). by rewrite Hcount in Hnonzero.
Qed.

Lemma perform_all_step os s cont rs s' :
  minv s cont -> perform_all (Some m) os s = Some (rs, s') ->
  exists cont', minv s' cont'.
Proof.
  revert s cont rs. induction os as [|o os IH]; intros s cont rs Hinv Hrun.
  - injection Hrun as <- <-. by exists cont.
  - cbn [perform_all] in Hrun.
    apply bind_inv in Hrun as (r & s1 & Hone & Hrun).
    apply bind_inv in Hrun as (rs' & s2 & Hrest & Hrun).
    injection Hrun as <- <-.
    assert (exists cont1, minv s1 cont1) as [cont1 Hinv1].
    { destruct o as [k v|k v]; [eapply add_step|eapply remove_step];
        eassumption. }
    by eapply IH.
Qed.

Lemma multi_lookup_eq s k r :
  multis s !! m = Some Mu ->
  lookupInHashTable (Some t) (Some k) (under s) = Some (r, under s) ->
  lookupInMultiValueHashTable (Some m) (Some k) s = Some (r, s).
Proof.
  intros Hm Hlook. cbn [lookupInMultiValueHashTable].
  unfold bind, get_multi. rewrite Hm. destruct Hcb as (-> & _).
  unfold in_table. rewrite Hlook. destruct s. by destruct r.
Qed.

Lemma index_in_range cont h k :
  table_rep h t T cont -> 1 <= tableSize T -> 0 <= hashK k ->
  0 <= bucket_index hashK T k /\
  is_Some (cont !! Z.to_nat (bucket_index hashK T k)).
Proof.
  intros (_ & al & cells & _ & _ & Hlen & Hall & _) Hsize Hhash.
  unfold bucket_index.
  pose proof (Z.rem_bound_pos (hashK k) (tableSize T) Hhash) as Hrem.
  split; [lia|]. apply lookup_lt_is_Some.
  rewrite <- (Forall2_length _ _ _ Hall), Hlen. lia.
Qed.

(** A lookup returns no list, or the list of a key of the table. *)
Lemma multi_lookup s cont k :
  minv s cont -> 1 <= tableSize T -> (forall k, 0 <= hashK k) ->
  exists r,
    lookupInMultiValueHashTable (Some m) k s = Some (r, s) /\
    (r = None \/
     exists vl VL ys,
       r = Some vl /\ lists (vals (under s)) !! vl = Some VL /\
       list_rep VL ys /\ ys <> []).
Proof.
  intros [(Hm & Hrep & Huniq) Hvals] Hsize Hhash.
  destruct k as [k|]; [|exists None; split; [reflexivity|by left]].
  destruct (index_in_range cont _ k Hrep Hsize (Hhash k)) as [Hidx [es Hes]].
  destruct (first_match_split (matches eqK k) es)
    as [Hmiss|(es1 & e & es2 & -> & Hmiss & Hhit)].
  - exists None. split; [|by left]. apply multi_lookup_eq; [exact Hm|].
    exact (lookup_miss eqK hashK _ _ _ _ _ _ Hrep pure_T Hidx Hes Hmiss).
  - exists (Some (e_val e)). split.
    + apply multi_lookup_eq; [exact Hm|].
      exact (values_lookup_hit _ _ _ _ _ _ Hrep Hidx Hes Hmiss Hhit).
    + right.
      assert (He : e ∈ es1 ++ e :: es2) by (apply elem_of_app; right; left).
      destruct (proj1 Hvals _ _ e Hes He) as (VL & ys & HVL & Hys & Hne & _).
      by exists (e_val e), VL, ys.
Qed.

(** Removing the only value of a key takes the key out of the table. *)
Lemma remove_sole_value s cont k v s' vl VL y :
  minv s cont ->
  eqK_equivalence eqK -> faithful (MultiValueHashTable.copyKey Mu) ->
  (forall a b u u', ev a b u = ev a b u') ->
  lookupInMultiValueHashTable (Some m) (Some k) s = Some (Some vl, s) ->
  lists (vals (under s)) !! vl = Some VL -> list_rep VL [y] ->
  removeFromMultiValueHashTable (Some m) (Some k) (Some v) s
  = Some (success, s') ->
  lookupInMultiValueHashTable (Some m) (Some k) s' = Some (None, s').
Proof.
  intros Hinv Hequiv Hfaithful Hpurev Hlookup HVL Hy Hrun.
  pose proof Hinv as [(Hm & Hrep & Huniq) Hvals].
  pose proof Hcb as (HT & Hck & Hfk & Hcv & Hfv & Hek & Htn & Hev).
  cbn [removeFromMultiValueHashTable] in Hrun.
  apply bind_inv in Hrun as (Mu' & s0 & Hget & Hrun).
  unfold get_multi in Hget. rewrite Hm in Hget. injection Hget as <- <-.
  rewrite HT in Hrun.
  apply bind_inv in Hrun as (r & s1 & Hlook & Hrun).
  apply in_table_inv in Hlook as (h1 & Hlook & ->).
  destruct (lookup_defined _ _ _ _ Hrep Hlook) as (Hidx & es & Hes).
  destruct (first_match_split (matches eqK k) es)
    as [Hmiss|(es1 & e & es2 & -> & Hmiss & Hhit)].
  { rewrite (lookup_miss eqK hashK _ _ _ _ _ _ Hrep pure_T Hidx Hes Hmiss)
      in Hlook.
    injection Hlook as <- <-. by injection Hrun. }
  pose proof (values_lookup_hit _ _ _ _ _ _ Hrep Hidx Hes Hmiss Hhit) as Hhit'.
  rewrite (multi_lookup_eq _ _ _ Hm Hhit') in Hlookup.
  injection Hlookup as <-.
  rewrite Hhit' in Hlook. injection Hlook as <- <-.
  rewrite set_under_id in Hrun.
  assert (He : e ∈ es1 ++ e :: es2) by (apply elem_of_app; right; left).
  destruct (proj1 Hvals _ _ e Hes He) as (VL' & ys & HVL' & _ & _ & HevL).
  rewrite HVL in HVL'. injection HVL' as <-.
  apply bind_inv in Hrun as (found & s1 & Hsearch & Hrun).
  apply in_values_inv in Hsearch as (w1 & Hsearch & ->).
  destruct found as [x|]; [|by injection Hrun].
  destruct (searchByKeyInList_found _ _ _ _ _ _ _ HVL Hy Hsearch)
    as (xs1 & y' & xs2 & Hsplit & _ & Hequal).
  assert (xs1 = [] /\ y' = y /\ xs2 = []) as (-> & -> & ->).
  { destruct xs1 as [|x1 xs1]; cbn in Hsplit.
    - by injection Hsplit as -> <-.
    - injection Hsplit as _ Hnil. by destruct xs1. }
  apply searchByKeyInList_frame in Hsearch as [Hls1 _].
  apply bind_inv in Hrun as (dres & s2 & Hdel & Hrun).
  apply in_values_inv in Hdel as (w2 & Hdel & ->).
  rewrite vals_touch in Hdel. rewrite touch_touch in Hrun.
  assert (HVL1 : lists w1 !! e_val e = Some VL) by (by rewrite Hls1).
  rewrite HevL, (Hpurev _ _ _ (world w1)), <- HevL in Hequal.
  destruct (deleteNode_hit (e_val e) v w1 VL [] y.1 y.2 [] HVL1)
    as (L' & HL' & _ & _ & Hgo); [by destruct y|constructor|exact Hequal|].
  rewrite Hgo in Hdel.
  destruct (freeElement VL y.2 (world w1)) as [[rf u']|]; [|discriminate].
  injection Hdel as <- <-. rewrite decide_False in Hrun by done.
  apply bind_inv in Hrun as (len & s3 & Hlen & Hrun).
  apply in_values_inv in Hlen as (w3 & Hlen & ->).
  rewrite vals_touch in Hlen. rewrite touch_touch in Hrun.
  rewrite (getLengthList_spec _ _ L') in Hlen by apply lookup_insert_eq.
  injection Hlen as <- <-.
  destruct HL' as (_ & _ & Hcount). cbn in Hcount. rewrite Hcount in Hrun.
  change (wrap_int 0 =? 0) with true in Hrun.
  destruct (evict_step s cont k es1 e es2 _ _ _ Hinv Hidx Hes Hmiss Hhit
              (eq_trans (delete_insert_eq _ _ _)
                        (f_equal (delete (e_val e)) Hls1)) Hrun)
    as [_ [(Hm' & Hrep' & Huniq') _]].
  apply multi_lookup_eq; [exact Hm'|].
  eapply (lookup_miss eqK hashK _ _ _ _ _ _ Hrep' pure_T Hidx).
  - apply list_lookup_insert_eq. by eapply lookup_lt_Some.
  - eapply no_match_after_delete; try eassumption.
    by eapply (Huniq Hfaithful).
Qed.
End Steps.

(** [createMultiValueHashTable] returns a table without keys. *)
Lemma createMultiValueHashTable_inv ck fk pk cv fv pv ek tn n s0 m s1 :
  createMultiValueHashTable (Some ck) (Some fk) (Some pk) (Some cv) (Some fv)
    (Some pv) (Some ek) (Some ev) (Some tn) n s0 = Some (Some m, s1) ->
  exists t T,
    multi_callbacks t (mkMulti (Some t) tn ck fk pk cv fv pv ek ev) T /\
    tableSize T = n /\
    minv m t (mkMulti (Some t) tn ck fk pk cv fv pv ek ev) T s1
         (replicate (Z.to_nat n) []).
Proof.
  intros Hrun. cbn [createMultiValueHashTable] in Hrun.
  apply bind_inv in Hrun as (ok & s0' & Hmalloc & Hrun).
  destruct ok; [|discriminate].
  apply bind_inv in Hrun as (HT & s0'' & Hcreate & Hrun).
  apply in_table_inv in Hcreate as (h1 & Hcreate & ->).
  destruct HT as [t|]; [|discriminate].
  injection Hrun as <- <-.
  apply createHashTable_rep in Hcreate as (Hrep & _).
  cbv zeta in Hrep.
  match type of Hrep with table_rep _ _ ?T0 _ => exists t, T0 end.
  split; [by repeat split|]. split; [reflexivity|].
  assert (Hempty : forall i (es : list (@entry K loc)),
            replicate (Z.to_nat n) [] !! i = Some es -> es = []).
  { intros i es Hes. by apply lookup_replicate in Hes as [-> _]. }
  split; [split; [|split]|split].
  - apply lookup_insert_eq.
  - exact Hrep.
  - intros _ i es Hes. by rewrite (Hempty i es Hes).
  - intros i es e Hes He. rewrite (Hempty i es Hes) in He.
    by apply elem_of_nil in He.
  - intros i j es es' e e' Hes _ He. rewrite (Hempty i es Hes) in He.
    by apply elem_of_nil in He.
Qed.

(** C3. A table is created and any additions and removals are done on it,
    for keys whose equality and number depend on the key alone and index
    the buckets.  Then a lookup of any key returns [NULL] or a list of
    values that is not empty.  Moreover, when the key has one value left
    and [removeFromMultiValueHashTable] removes it, a lookup of the key
    returns [NULL] afterwards (for an equality of keys that is an
    equivalence, copies of keys that are equal to the keys and an equality
    of values that does not depend on the memory). *)
Theorem lookup_none_or_nonempty_list ck fk pk cv fv pv ek tn n s0 m s1 os rs
    s2 :
  (forall a b u, ek (Some a) (Some b) u = Some (eqK a b)) ->
  (forall k u, tn (Some k) u = Some (hashK k)) ->
  1 <= n -> (forall k, 0 <= hashK k) ->
  createMultiValueHashTable (Some ck) (Some fk) (Some pk) (Some cv) (Some fv)
    (Some pv) (Some ek) (Some ev) (Some tn) n s0 = Some (Some m, s1) ->
  perform_all (Some m) os s1 = Some (rs, s2) ->
  (forall k,
     exists r,
       lookupInMultiValueHashTable (Some m) k s2 = Some (r, s2) /\
       (r = None \/
        exists vl VL ys,
          r = Some vl /\ lists (vals (under s2)) !! vl = Some VL /\
          list_rep VL ys /\ ys <> [])) /\
  (forall k v vl VL y s3,
     eqK_equivalence eqK -> faithful ck ->
     (forall a b u u', ev a b u = ev a b u') ->
     lookupInMultiValueHashTable (Some m) (Some k) s2 = Some (Some vl, s2) ->
     lists (vals (under s2)) !! vl = Some VL -> list_rep VL [y] ->
     removeFromMultiValueHashTable (Some m) (Some k) (Some v) s2
     = Some (success, s3) ->
     lookupInMultiValueHashTable (Some m) (Some k) s3 = Some (None, s3)).
Proof.
  intros Hek Htn Hn Hhash Hcreate Hrun.
  destruct (createMultiValueHashTable_inv _ _ _ _ _ _ _ _ _ _ _ _ Hcreate)
    as (t & T & Hcb & Hsize & Hinv1).
  assert (Hpure : pure_keys (mkMulti (Some t) tn ck fk pk cv fv pv ek ev))
    by (by split).
  destruct (perform_all_step m t _ T Hcb Hpure os s1 _ rs s2 Hinv1 Hrun)
    as [cont Hinv2].
  split.
  - intros k. eapply multi_lookup; try eassumption. lia.
  - intros k v vl VL y s3 Hequiv Hfaithful Hpurev.
    by eapply (remove_sole_value m t _ T Hcb Hpure s2 cont).
Qed.
End Multi.

Import Examples.

Lemma multi_VL_rep : list_rep multi_VL [(2%positive, Some 51%nat)].
Proof.
  split; [|split].
  - split; [reflexivity|]. exists None. by split.
  - apply NoDup_singleton.
  - reflexivity.
Defined.

Lemma lookup_none_or_nonempty_list_witness :
  createMultiValueHashTable (Some copy_nat) (Some free_nat) (Some print_nat)
    (Some copy_nat) (Some free_nat) (Some print_nat) (Some equal_nat)
    (Some equal_nat) (Some number_nat) 13 multi_s0
  = Some (Some multi_m, multi_s1) /\
  perform_all (Some multi_m)
    [Add (Some 5%nat) (Some 50%nat); Add (Some 5%nat) (Some 51%nat);
     Remove (Some 5%nat) (Some 50%nat)] multi_s1
  = Some ([success; success; success], multi_s4) /\
  (exists r,
     lookupInMultiValueHashTable (Some multi_m) (Some 5%nat) multi_s4
     = Some (r, multi_s4) /\
     (r = None \/
      exists vl VL ys,
        r = Some vl /\ lists (vals (under multi_s4)) !! vl = Some VL /\
        list_rep VL ys /\ ys <> [])) /\
  removeFromMultiValueHashTable (Some multi_m) (Some 5%nat) (Some 51%nat)
    multi_s4 = Some (success, multi_s5) /\
  lookupInMultiValueHashTable (Some multi_m) (Some 5%nat) multi_s5
  = Some (None, multi_s5).
Proof.
  assert (Hcreate :
            createMultiValueHashTable (Some copy_nat) (Some free_nat)
              (Some print_nat) (Some copy_nat) (Some free_nat)
              (Some print_nat) (Some equal_nat) (Some equal_nat)
              (Some number_nat) 13 multi_s0
            = Some (Some multi_m, multi_s1))
    by (vm_compute; reflexivity).
  assert (Hrun :
            perform_all (Some multi_m)
              [Add (Some 5%nat) (Some 50%nat); Add (Some 5%nat) (Some 51%nat);
               Remove (Some 5%nat) (Some 50%nat)] multi_s1
            = Some ([success; success; success], multi_s4))
    by (vm_compute; reflexivity).
  assert (Hremove :
            removeFromMultiValueHashTable (Some multi_m) (Some 5%nat)
              (Some 51%nat) multi_s4 = Some (success, multi_s5))
    by (vm_compute; reflexivity).
  destruct (lookup_none_or_nonempty_list Nat.eqb Z.of_nat equal_nat
              copy_nat free_nat print_nat copy_nat free_nat print_nat
              equal_nat number_nat 13 multi_s0 multi_m multi_s1 _ _ multi_s4
              (fun a b u => eq_refl) (fun k u => eq_refl)
              ltac:(lia) ltac:(lia) Hcreate Hrun) as [Hlookup Hsole].
  split; [exact Hcreate|]. split; [exact Hrun|].
  split; [exact (Hlookup (Some 5%nat))|]. split; [exact Hremove|].
  apply (Hsole 5%nat 51%nat multi_vl multi_VL (2%positive, Some 51%nat)
           multi_s5 eqb_equivalence copy_nat_faithful
           (fun a b u u' => eq_refl)).
  - vm_compute. reflexivity.
  - vm_compute. reflexivity.
  - exact multi_VL_rep.
  - exact Hremove.
Defined.

End MultiValueHashTableFacts.

(** ** Null arguments *)

Module NullArguments.
Import LinkedList KeyValuePair HashTable MultiValueHashTable.

(** C9. Every operation of the four modules that is given [NULL] for one
    of the pointers it requires returns at once, with the memory as it was:
    [Invalid_input] from the operations that return a status, [NULL] from
    those that return a pointer (the constructors included, for a null
    callback), and, for the two that return neither, -1 from
    [getLengthList] and [false] from [isEqualKey]. *)
Theorem null_argument_rejected :
  (forall (E P W : Type) (s : lstate E P W),
     (forall c f p e, c = None \/ f = None \/ p = None \/ e = None ->
        createLinkedList c f p e s = Some (None, s)) /\
     destroyList None s = Some (Invalid_input, s) /\
     (forall l e, l = None \/ e = None ->
        appendNode l e s = Some (Invalid_input, s)) /\
     (forall l (k : option P), l = None \/ k = None ->
        deleteNode l k s = Some (Invalid_input, s)) /\
     displayList None s = Some (Invalid_input, s) /\
     (forall i, getDataByIndex None i s = Some (None, s)) /\
     getLengthList None s = Some (-1, s) /\
     (forall l (k : option P), l = None \/ k = None ->
        searchByKeyInList l k s = Some (None, s))) /\
  (forall (K V W : Type) (s : kvstate K V W),
     (forall k v ck fk pk cv fv pv ek,
        k = None \/ v = None \/ ck = None \/ fk = None \/ pk = None \/
        cv = None \/ fv = None \/ pv = None \/ ek = None ->
        createKeyValuePair k v ck fk pk cv fv pv ek s = Some (None, s)) /\
     destroyKeyValuePair None s = Some (Invalid_input, s) /\
     displayValue None s = Some (Invalid_input, s) /\
     displayKey None s = Some (Invalid_input, s) /\
     getValue None s = Some (None, s) /\
     getKey None s = Some (None, s) /\
     (forall p (k : option K), p = None \/ k = None ->
        isEqualKey p k s = Some false)) /\
  (forall (K V W : Type) (s : htstate K V W),
     (forall ck fk pk cv fv pv ek tn n,
        ck = None \/ fk = None \/ pk = None \/ cv = None \/ fv = None \/
        pv = None \/ ek = None \/ tn = None ->
        createHashTable ck fk pk cv fv pv ek tn n s = Some (None, s)) /\
     destroyHashTable None s = Some (Invalid_input, s) /\
     (forall t k v, t = None \/ k = None \/ v = None ->
        addToHashTable t k v s = Some (Invalid_input, s)) /\
     (forall t k, t = None \/ k = None ->
        lookupInHashTable t k s = Some (None, s)) /\
     (forall t k, t = None \/ k = None ->
        removeFromHashTable t k s = Some (Invalid_input, s)) /\
     displayHashElements None s = Some (Invalid_input, s)) /\
  (forall (K V U : Type) (s : mstate K V U),
     (forall ck fk pk cv fv pv ek ev tn n,
        ck = None \/ fk = None \/ pk = None \/ cv = None \/ fv = None \/
        pv = None \/ ek = None \/ ev = None \/ tn = None ->
        createMultiValueHashTable ck fk pk cv fv pv ek ev tn n s
        = Some (None, s)) /\
     destroyMultiValueHashTable None s = Some (Invalid_input, s) /\
     (forall m k v, m = None \/ k = None \/ v = None ->
        addToMultiValueHashTable m k v s = Some (Invalid_input, s)) /\
     (forall m k, m = None \/ k = None ->
        lookupInMultiValueHashTable m k s = Some (None, s)) /\
     (forall m k v, m = None \/ k = None \/ v = None ->
        removeFromMultiValueHashTable m k v s = Some (Invalid_input, s)) /\
     (forall m k, m = None \/ k = None ->
        displayMultiValueHashElementsByKey m k s = Some (Invalid_input, s))).
Proof.
  split_and!; intros; split_and!; try reflexivity; intros;
    repeat match goal with
           | H : _ \/ _ |- _ => destruct H
           end;
    subst;
    repeat match goal with
           | x : option _ |- _ => destruct x
           end;
    reflexivity.
Qed.

End NullArguments.

(** * More of the behaviour of the containers *)

(** ** LinkedList.c *)

Module LinkedListBehaviour.
Import LinkedList LinkedListFacts.

Section Behaviour.
Context {E P W : Type}.
Implicit Types (L : LinkedList_s E P W) (xs : list (loc * option E)).
Implicit Types (s : lstate E P W).

(** What a callback that is called on one element after the other leaves
    of the memory. *)
Fixpoint call_all (f : option E -> M W status) (ds : list (option E)) (w : W)
  : option W :=
  match ds with
  | [] => Some w
  | d :: ds' =>
      match f d w with
      | Some (_, w') => call_all f ds' w'
      | None => None
      end
  end.

(** The operations that change a list, and a sequence of them. *)
Inductive list_operation : Type :=
| Append (element : option E)
| Delete (PrameterToEqual : option P).

Definition perform_on_list (l : LinkedList) (o : list_operation)
  : M (lstate E P W) status :=
  match o with
  | Append element => appendNode l element
  | Delete PrameterToEqual => deleteNode l PrameterToEqual
  end.

Fixpoint perform_all_on_list (l : LinkedList) (os : list list_operation)
  : M (lstate E P W) (list status) :=
  match os with
  | [] => ret []
  | o :: os' =>
      let* r := perform_on_list l o in
      let* rs := perform_all_on_list l os' in
      ret (r :: rs)
  end.

(** The number of elements that the operations [os] have added, given what
    they returned. *)
Fixpoint elements_added (os : list list_operation) (rs : list status) : Z :=
  match os, rs with
  | Append _ :: os', success :: rs' => elements_added os' rs' + 1
  | Delete _ :: os', success :: rs' => elements_added os' rs' - 1
  | _ :: os', _ :: rs' => elements_added os' rs'
  | _, _ => 0
  end.

(** X1. [getDataByIndex] counts the elements from 1: for an index within
    the list it returns what the copy function makes of the element at that
    place, and for any other index it returns [NULL] and changes nothing. *)
Theorem getDataByIndex_by_position l s L xs index :
  lists s !! l = Some L -> list_rep L xs ->
  Z.of_nat (length xs) <= INT_MAX ->
  (forall x, 1 <= index -> xs !! Z.to_nat (index - 1) = Some x ->
     getDataByIndex (Some l) index s = copy_out (copyElement L) x.2 s) /\
  (index < 1 \/ Z.of_nat (length xs) < index ->
     getDataByIndex (Some l) index s = Some (None, s)).
Proof.
  intros Hl Hrep Hlen. split.
  - intros [c d] Hindex Hx.
    pose proof (take_drop_middle _ _ _ Hx) as Hsplit.
    pose proof (lookup_lt_Some _ _ _ Hx) as Hlt.
    rewrite <- Hsplit in Hrep, Hlen.
    pose proof (getDataByIndex_spec l s L _ c d _ Hl Hrep Hlen) as Hget.
    rewrite length_take, Nat.min_l in Hget by lia.
    replace (Z.of_nat (Z.to_nat (index - 1)) + 1) with index in Hget by lia.
    exact Hget.
  - intros Hout. apply (getDataByIndex_out_of_range l s L index Hl).
    destruct Hrep as (_ & _ & ->).
    rewrite wrap_int_id by (unfold in_int, INT_MIN, INT_MAX in *; lia).
    exact Hout.
Qed.

(** X2. [searchByKeyInList] returns [NULL] and changes nothing when no
    element is equal to the key; otherwise it returns what the copy function
    makes of the first element, from the head on, that is equal to the key,
    and the list itself stays as it is. *)
Theorem searchByKeyInList_first_match l key s L xs :
  lists s !! l = Some L -> list_rep L xs ->
  (Forall (fun x => equal L x.2 (Some key) (world s) = Some false) xs ->
   searchByKeyInList (Some l) (Some key) s = Some (None, s)) /\
  (forall xs1 c d xs2,
     xs = xs1 ++ (c, d) :: xs2 ->
     Forall (fun x => equal L x.2 (Some key) (world s) = Some false) xs1 ->
     equal L d (Some key) (world s) = Some true ->
     searchByKeyInList (Some l) (Some key) s = copy_out (copyElement L) d s).
Proof.
  intros Hl Hrep. split.
  - intros Hall. by eapply searchByKeyInList_miss.
  - intros xs1 c d xs2 -> Hall Hd. by eapply searchByKeyInList_hit.
Qed.

(** X3. [appendNode] with a list and an element returns [success] or
    [Memory_Problem]; when it returns [Memory_Problem] (no memory for the
    node, or the copy function returned [NULL]) the lists are exactly as
    they were before the call. *)
Theorem appendNode_failure_keeps_list l e s L xs st s' :
  lists s !! l = Some L -> list_rep L xs ->
  appendNode (Some l) (Some e) s = Some (st, s') ->
  (st = success \/ st = Memory_Problem) /\
  (st = Memory_Problem -> lists s' = lists s).
Proof.
  intros Hl Hrep Hrun.
  pose proof (appendNode_spec l e s L xs Hl Hrep) as Hspec.
  destruct (malloc_outcome (mallocs s)) as [[|] rest].
  - destruct (copyElement L (Some e) (world s)) as [[[d|] w']|].
    + destruct Hspec as (L' & _ & _ & Hspec). rewrite Hspec in Hrun.
      injection Hrun as <- <-. split; [by left|discriminate].
    + rewrite Hspec in Hrun. injection Hrun as <- <-. split; [by right|done].
    + congruence.
  - rewrite Hspec in Hrun. injection Hrun as <- <-. split; [by right|done].
Qed.


Lemma perform_all_on_list_spec l os s L xs rs s' :
  lists s !! l = Some L -> list_rep L xs ->
  Forall (fun x => is_Some x.2) xs ->
  Z.of_nat (length xs) + Z.of_nat (length os) <= INT_MAX ->
  perform_all_on_list (Some l) os s = Some (rs, s') ->
  exists L' xs',
    lists s' !! l = Some L' /\ list_rep L' xs' /\
    Forall (fun x => is_Some x.2) xs' /\
    Z.of_nat (length xs') = Z.of_nat (length xs) + elements_added os rs.
Proof.
  revert s L xs rs. induction os as [|o os IH];
    intros s L xs rs Hl Hrep Hdata Hlen Hrun.
  - injection Hrun as <- <-. exists L, xs. split_and!; try done. cbn. lia.
  - cbn [perform_all_on_list] in Hrun.
    apply MultiValueHashTableFacts.bind_inv in Hrun
      as (r & s1 & Hone & Hrun).
    apply MultiValueHashTableFacts.bind_inv in Hrun
      as (rs' & s2 & Hrest & Hrun).
    injection Hrun as <- <-. cbn [length] in Hlen.
    assert (exists L1 xs1,
              lists s1 !! l = Some L1 /\ list_rep L1 xs1 /\
              Forall (fun x => is_Some x.2) xs1 /\
              Z.of_nat (length xs1) + Z.of_nat (length os) <= INT_MAX /\
              forall rs',
                Z.of_nat (length xs1) + elements_added os rs'
                = Z.of_nat (length xs) + elements_added (o :: os) (r :: rs'))
      as (L1 & xs1 & Hl1 & Hrep1 & Hdata1 & Hlen1 & Hadded).
    { destruct o as [[e|]|[p|]]; cbn [perform_on_list] in Hone.
      - pose proof (appendNode_spec l e s L xs Hl Hrep) as Hspec.
        destruct (malloc_outcome (mallocs s)) as [[|] rest].
        + destruct (copyElement L (Some e) (world s)) as [[[d|] w']|];
            [| |congruence].
          * destruct Hspec as (L' & HL' & _ & Hspec). rewrite Hspec in Hone.
            injection Hone as <- <-. eexists L', _.
            split; [apply lookup_insert_eq|]. split; [exact HL'|].
            split; [apply Forall_app; split; [done|by repeat constructor]|].
            rewrite length_app. cbn. split; lia.
          * rewrite Hspec in Hone. injection Hone as <- <-.
            exists L, xs. split_and!; first [done|lia|intros; cbn; lia].
        + rewrite Hspec in Hone. injection Hone as <- <-.
          exists L, xs. split_and!; first [done|lia|intros; cbn; lia].
      - injection Hone as <- <-.
        exists L, xs. split_and!; first [done|lia|intros; cbn; lia].
      - destruct (MultiValueHashTableFacts.deleteNode_inv _ _ _ _ _ _ _
                    Hl Hrep Hone)
          as [[-> ->]
             |(-> & L' & ys1 & y & ys2 & -> & _ & _ & HL' & _ & Hls)].
        + exists L, xs. split_and!; first [done|lia|intros; cbn; lia].
        + rewrite length_app in Hlen. cbn [length] in Hlen.
          rewrite after_delete_small in HL' by lia.
          exists L', (ys1 ++ ys2). rewrite Hls.
          split; [apply lookup_insert_eq|]. split; [exact HL'|].
          apply Forall_app in Hdata as [Hd1 Hd2].
          apply Forall_cons in Hd2 as [_ Hd2].
          split; [by apply Forall_app|].
          rewrite !length_app. cbn [length]. split; [lia|].
          intros; cbn; lia.
      - injection Hone as <- <-.
        exists L, xs. split_and!; first [done|lia|intros; cbn; lia]. }
    destruct (IH s1 L1 xs1 rs' Hl1 Hrep1 Hdata1 Hlen1 Hrest)
      as (L' & xs' & Hl' & Hrep' & Hdata' & Hlen').
    exists L', xs'. split_and!; try done. rewrite Hlen'. apply Hadded.
Qed.

Lemma elements_added_le os rs :
  elements_added os rs <= Z.of_nat (length os).
Proof.
  revert rs. induction os as [|o os IH]; intros rs; [cbn; lia|].
  cbn [length]. destruct o as [e|p], rs as [|[] rs]; cbn;
    try lia; specialize (IH rs); lia.
Qed.

(** X4. On a list made by [createLinkedList], whatever elements are
    appended and deleted (fewer than 2^31 calls): the list stays a
    well-linked chain from the head to the tail, no node holds [NULL], and
    [getLengthList] returns the number of successful appends minus the
    number of successful deletions, which is the number of nodes. *)
Theorem getLengthList_counts_elements c f p e s0 l s1 os rs s2 :
  createLinkedList (Some c) (Some f) (Some p) (Some e) s0
  = Some (Some l, s1) ->
  Z.of_nat (length os) <= INT_MAX ->
  perform_all_on_list (Some l) os s1 = Some (rs, s2) ->
  exists L xs,
    lists s2 !! l = Some L /\ list_rep L xs /\
    Forall (fun x => is_Some x.2) xs /\
    Z.of_nat (length xs) = elements_added os rs /\
    getLengthList (Some l) s2 = Some (elements_added os rs, s2).
Proof.
  intros Hcreate Hlen Hrun.
  rewrite createLinkedList_spec in Hcreate.
  destruct (malloc_outcome (mallocs s0)) as [[|] rest]; [|discriminate].
  injection Hcreate as <- <-.
  destruct (perform_all_on_list_spec _ os _ _ [] rs s2
              (lookup_insert_eq _ _ _) (list_rep_new c f p e)
              (Forall_nil_2 _) Hlen Hrun)
    as (L & xs & Hl & Hrep & Hdata & Hadded).
  assert (Hadded' : Z.of_nat (length xs) = elements_added os rs)
    by (cbn [length] in Hadded; lia).
  exists L, xs. split_and!; try done.
  rewrite (getLengthList_spec _ _ _ Hl).
  destruct Hrep as (_ & _ & ->). rewrite Hadded'.
  pose proof (elements_added_le os rs). pose proof (Nat2Z.is_nonneg (length xs)).
  rewrite wrap_int_id; [reflexivity|].
  unfold in_int, INT_MIN, INT_MAX in *. lia.
Qed.

Lemma destroyList_while_spec fuel L w b xs pv cur last :
  dseg (nodes L) pv cur xs last None -> NoDup xs.*1 ->
  (length xs <= fuel)%nat ->
  match call_all (freeElement L) xs.*2 w with
  | Some w' =>
      exists ns',
        destroyList_while fuel cur (mkFocus L w b)
        = Some (tt, mkFocus (set_nodes ns' L) w' b)
  | None => destroyList_while fuel cur (mkFocus L w b) = None
  end.
Proof.
  revert fuel L w pv cur. induction xs as [|[a d] xs IH];
    intros fuel L w pv cur Hseg Hnd Hfuel.
  - destruct Hseg as [-> _]. cbn. exists (nodes L).
    rewrite set_nodes_id. by destruct fuel.
  - destruct Hseg as (-> & nx & Ha & Hrest).
    destruct fuel as [|fuel]; [cbn in Hfuel; lia|].
    cbn [fmap list_fmap snd call_all]. cbn [destroyList_while]. run.
    rewrite Ha. run.
    destruct (freeElement L d w) as [[r w1]|]; [|reflexivity].
    run. rewrite Ha. run.
    cbn in Hnd. apply NoDup_cons in Hnd as [Hnot Hnd].
    set (L1 := set_nodes (delete a (nodes L)) L).
    specialize (IH fuel L1 w1 (Some a) nx).
    change (freeElement L1) with (freeElement L) in IH.
    destruct (call_all (freeElement L) xs.*2 w1) as [w'|].
    + destruct IH as (ns' & IH).
      * eapply dseg_frame; [|exact Hrest]. intros c Hc. cbn.
        apply lookup_delete_ne. by intros <-.
      * assumption.
      * cbn in Hfuel. lia.
      * exists ns'. exact IH.
    + apply IH.
      * eapply dseg_frame; [|exact Hrest]. intros c Hc. cbn.
        apply lookup_delete_ne. by intros <-.
      * assumption.
      * cbn in Hfuel. lia.
Qed.

(** X5. [destroyList] gives every element of the list to the free
    function, once and from the head to the tail, frees the list and
    returns [success]. *)
Theorem destroyList_frees_every_element l s L xs :
  lists s !! l = Some L -> list_rep L xs ->
  destroyList (Some l) s
  = match call_all (freeElement L) xs.*2 (world s) with
    | Some w' =>
        Some (success, mkLstate (delete l (lists s)) w' (mallocs s))
    | None => None
    end.
Proof.
  intros Hl Hrep. pose proof Hrep as (Hseg & Hnd & _).
  pose proof (destroyList_while_spec (size (nodes L)) L (world s) (mallocs s)
                xs None (head L) (tail L) Hseg Hnd
                (list_rep_length_le_size _ _ Hrep)) as Hwhile.
  unfold destroyList, with_list. unfold bind at 1. rewrite Hl. run.
  destruct (call_all (freeElement L) xs.*2 (world s)) as [w'|].
  - destruct Hwhile as (ns' & ->). run. by rewrite delete_insert_eq.
  - by rewrite Hwhile.
Qed.

Lemma displayList_while_spec fuel L w b xs pv cur last :
  dseg (nodes L) pv cur xs last None -> (length xs < fuel)%nat ->
  displayList_while fuel cur (mkFocus L w b)
  = match call_all (printElement L) xs.*2 w with
    | Some w' => Some (tt, mkFocus L w' b)
    | None => None
    end.
Proof.
  revert fuel w pv cur. induction xs as [|[a d] xs IH];
    intros fuel w pv cur Hseg Hfuel.
  - destruct Hseg as [-> _]. by destruct fuel.
  - destruct Hseg as (-> & nx & Ha & Hrest).
    destruct fuel as [|fuel]; [cbn in Hfuel; lia|].
    cbn [fmap list_fmap snd call_all]. cbn [displayList_while]. run.
    rewrite Ha. run.
    destruct (printElement L d w) as [[r w1]|]; [|reflexivity].
    run. eapply IH; [eassumption|cbn in Hfuel; lia].
Qed.

(** X6. [displayList] gives every element of the list to the print
    function, from the head to the tail, returns [success] and leaves the
    list as it is. *)
Theorem displayList_prints_every_element l s L xs :
  lists s !! l = Some L -> list_rep L xs ->
  displayList (Some l) s
  = match call_all (printElement L) xs.*2 (world s) with
    | Some w' => Some (success, mkLstate (lists s) w' (mallocs s))
    | None => None
    end.
Proof.
  intros Hl Hrep. unfold displayList, with_list. rewrite Hl. run.
  rewrite (displayList_while_spec _ _ _ _ xs None (head L) (tail L));
    [|apply Hrep|pose proof (list_rep_length_le_size _ _ Hrep); lia].
  destruct (call_all (printElement L) xs.*2 (world s)) as [w'|];
    [|reflexivity].
  run. by rewrite insert_id.
Qed.
End Behaviour.

Import Examples.

Lemma three_rep : list_rep three three_seq.
Proof.
  split; [|split; [|reflexivity]].
  - cbn. repeat (split; [reflexivity|]; eexists; split; [reflexivity|]).
    by split.
  - apply (bool_decide_unpack _). vm_compute. reflexivity.
Defined.

Lemma three_in_state : lists three_state !! 5%positive = Some three.
Proof. reflexivity. Defined.

Lemma three_small : Z.of_nat (length three_seq) <= INT_MAX.
Proof. vm_compute. discriminate. Defined.

Lemma getDataByIndex_by_position_witness :
  getDataByIndex (Some 5%positive) 2 three_state
  = copy_out copy_nat (Some 20%nat) three_state /\
  getDataByIndex (Some 5%positive) 4 three_state = Some (None, three_state).
Proof.
  split.
  - apply (proj1 (getDataByIndex_by_position 5%positive three_state three
                    three_seq 2 three_in_state three_rep three_small)
             (2%positive, Some 20%nat)); [lia|reflexivity].
  - apply (proj2 (getDataByIndex_by_position 5%positive three_state three
                    three_seq 4 three_in_state three_rep three_small)).
    right. vm_compute. reflexivity.
Defined.

Lemma searchByKeyInList_first_match_witness :
  searchByKeyInList (Some 5%positive) (Some 20%nat) three_state
  = copy_out copy_nat (Some 20%nat) three_state /\
  searchByKeyInList (Some 5%positive) (Some 7%nat) three_state
  = Some (None, three_state).
Proof.
  split.
  - apply (proj2 (searchByKeyInList_first_match 5%positive 20%nat three_state
                    three three_seq three_in_state three_rep)
             [(1%positive, Some 10%nat)] 2%positive (Some 20%nat)
             [(3%positive, Some 30%nat)]);
      [reflexivity|by repeat constructor|reflexivity].
  - apply (proj1 (searchByKeyInList_first_match 5%positive 7%nat three_state
                    three three_seq three_in_state three_rep)).
    by repeat constructor.
Defined.

Lemma three_in_no_memory : lists three_no_memory !! 5%positive = Some three.
Proof. reflexivity. Defined.

Lemma appendNode_failure_keeps_list_witness :
  exists s',
    appendNode (Some 5%positive) (Some 40%nat) three_no_memory
    = Some (Memory_Problem, s') /\
    lists s' = lists three_no_memory.
Proof.
  eexists.
  assert (Hrun : appendNode (Some 5%positive) (Some 40%nat) three_no_memory
                 = Some (Memory_Problem,
                         mkLstate {[ 5%positive := three ]} 3 []))
    by (vm_compute; reflexivity).
  split; [exact Hrun|].
  exact (proj2 (appendNode_failure_keeps_list 5%positive 40%nat
                  three_no_memory three three_seq _ _ three_in_no_memory
                  three_rep Hrun) eq_refl).
Defined.

Lemma getLengthList_counts_elements_witness :
  perform_all_on_list (Some list_l)
    [Append (Some 10%nat); Append (Some 20%nat); Delete (Some 10%nat);
     Delete (Some 7%nat)] list_s1
  = Some ([success; success; success; no_element], list_s3d) /\
  exists L xs,
    lists list_s3d !! list_l = Some L /\ list_rep L xs /\
    Forall (fun x => is_Some x.2) xs /\
    Z.of_nat (length xs) = 1 /\
    getLengthList (Some list_l) list_s3d = Some (1, list_s3d).
Proof.
  assert (Hcreate : createLinkedList (Some copy_nat) (Some free_nat)
                      (Some print_nat) (Some equal_nat) list_s0
                    = Some (Some list_l, list_s1))
    by (vm_compute; reflexivity).
  assert (Hrun : perform_all_on_list (Some list_l)
                   [Append (Some 10%nat); Append (Some 20%nat);
                    Delete (Some 10%nat); Delete (Some 7%nat)] list_s1
                 = Some ([success; success; success; no_element], list_s3d))
    by (vm_compute; reflexivity).
  assert (Hlen : Z.of_nat (length
                   [Append (E := nat) (Some 10%nat); Append (Some 20%nat);
                    Delete (P := nat) (Some 10%nat); Delete (Some 7%nat)])
                 <= INT_MAX) by (vm_compute; discriminate).
  split; [exact Hrun|].
  exact (getLengthList_counts_elements copy_nat free_nat print_nat
           equal_nat list_s0 list_l list_s1 _ _ list_s3d Hcreate Hlen Hrun).
Defined.

Lemma destroyList_frees_every_element_witness :
  destroyList (Some 5%positive) three_state
  = Some (success, mkLstate ∅ 0 []).
Proof.
  rewrite (destroyList_frees_every_element 5%positive three_state three
             three_seq three_in_state three_rep).
  vm_compute. reflexivity.
Defined.

Lemma displayList_prints_every_element_witness :
  displayList (Some 5%positive) three_state = Some (success, three_state).
Proof.
  rewrite (displayList_prints_every_element 5%positive three_state three
             three_seq three_in_state three_rep).
  vm_compute. reflexivity.
Defined.

End LinkedListBehaviour.

(** ** KeyValuePair.c *)

Module KeyValuePairBehaviour.
Import KeyValuePair.

Section Behaviour.
Context {K V W : Type}.
Implicit Types (s : kvstate K V W).


(** X8. A pair that [createKeyValuePair] returns holds the copy of the key
    and the copy of the value: [getKey] and [getValue] return what the copy
    functions make of these copies, [isEqualKey] compares the copy of the
    key, and [destroyKeyValuePair] gives the copy of the key and then the
    copy of the value to their free functions and leaves the heap of pairs
    as it was before the pair was created. *)
Theorem createKeyValuePair_round_trip k v ck fk pk cv fv pv ek s p s' :
  createKeyValuePair (Some k) (Some v) (Some ck) (Some fk) (Some pk)
    (Some cv) (Some fv) (Some pv) (Some ek) s = Some (Some p, s') ->
  exists k' v' w1,
    ck (Some k) (user s) = Some (Some k', w1) /\
    cv (Some v) w1 = Some (Some v', user s') /\
    pairs s !! p = None /\
    getKey (Some p) s' = in_user (ck (Some k')) s' /\
    getValue (Some p) s' = in_user (cv (Some v')) s' /\
    (forall k2, isEqualKey (Some p) (Some k2) s'
                = ek (Some k') (Some k2) (user s')) /\
    destroyKeyValuePair (Some p) s'
    = match fk (Some k') (user s') with
      | Some (_, w2) =>
          match fv (Some v') w2 with
          | Some (_, w3) =>
              Some (success, mkKvstate (pairs s) w3 (kv_mallocs s'))
          | None => None
          end
      | None => None
      end.
Proof.
  unfold createKeyValuePair, KeyValuePair.malloc, bind, ret, in_user.
  destruct (malloc_outcome (kv_mallocs s)) as [[|] rest]; cbn;
    [|discriminate].
  destruct (ck (Some k) (user s)) as [[[k'|] w1]|]; cbn;
    [|discriminate|discriminate].
  destruct (cv (Some v) w1) as [[[v'|] w2]|] eqn:Hcv; cbn; [| |discriminate].
  2:{ by destruct (fk (Some k') w2) as [[r w3]|]. }
  intros [= <- <-]. exists k', v', w1.
  assert (Hfresh : pairs s !! fresh (dom (pairs s)) = None).
  { apply not_elem_of_dom. apply is_fresh. }
  split; [reflexivity|]. split; [exact Hcv|]. split; [exact Hfresh|].
  unfold getKey, getValue, isEqualKey, destroyKeyValuePair, get_pair, bind,
    ret, in_user.
  cbn. rewrite !lookup_insert_eq. cbn.
  split; [by destruct (ck (Some k') w2) as [[[r|] w3]|]|].
  split; [by destruct (cv (Some v') w2) as [[[r|] w3]|]|].
  split; [intros k2; by destruct (ek (Some k') (Some k2) w2) as [[|]|]|].
  destruct (fk (Some k') w2) as [[r w3]|]; [|reflexivity]. cbn.
  destruct (fv (Some v') w3) as [[r' w4]|]; [|reflexivity]. cbn.
  by rewrite delete_insert_id.
Qed.

End Behaviour.

Import Examples.


Lemma createKeyValuePair_round_trip_witness :
  createKeyValuePair (Some 5%nat) (Some 50%nat) (Some copy_nat)
    (Some free_nat) (Some print_nat) (Some copy_nat) (Some free_nat)
    (Some print_nat) (Some equal_nat) pair_s0
  = Some (Some 1%positive, pair_s1) /\
  exists k' v' w1,
    copy_nat (Some 5%nat) (user pair_s0) = Some (Some k', w1) /\
    copy_nat (Some 50%nat) w1 = Some (Some v', user pair_s1) /\
    pairs pair_s0 !! 1%positive = None /\
    getKey (Some 1%positive) pair_s1 = in_user (copy_nat (Some k')) pair_s1 /\
    getValue (Some 1%positive) pair_s1
    = in_user (copy_nat (Some v')) pair_s1 /\
    (forall k2, isEqualKey (Some 1%positive) (Some k2) pair_s1
                = equal_nat (Some k') (Some k2) (user pair_s1)) /\
    destroyKeyValuePair (Some 1%positive) pair_s1
    = match free_nat (Some k') (user pair_s1) with
      | Some (_, w2) =>
          match free_nat (Some v') w2 with
          | Some (_, w3) =>
              Some (success, mkKvstate (pairs pair_s0) w3
                                       (kv_mallocs pair_s1))
          | None => None
          end
      | None => None
      end.
Proof.
  assert (Hrun : createKeyValuePair (Some 5%nat) (Some 50%nat)
                   (Some copy_nat) (Some free_nat) (Some print_nat)
                   (Some copy_nat) (Some free_nat) (Some print_nat)
                   (Some equal_nat) pair_s0
                 = Some (Some 1%positive, pair_s1))
    by (vm_compute; reflexivity).
  split; [exact Hrun|].
  exact (createKeyValuePair_round_trip _ _ _ _ _ _ _ _ _ _ _ _ Hrun).
Defined.

End KeyValuePairBehaviour.

(** ** HashTable.c *)

Module HashTableBehaviour.
Import LinkedList KeyValuePair HashTable LinkedListFacts HashTableFacts.

Lemma find_app {A} (f : A -> bool) (l l' : list A) :
  List.find f (l ++ l')
  = match List.find f l with Some x => Some x | None => List.find f l' end.
Proof.
  induction l as [|x l IH]; [reflexivity|]. cbn. by destruct (f x).
Qed.

Lemma find_none_iff {A} (f : A -> bool) (l : list A) :
  List.find f l = None <-> Forall (fun x => f x = false) l.
Proof.
  induction l as [|x l IH]; cbn.
  - split; [constructor|done].
  - destruct (f x) eqn:Hx.
    + split; [discriminate|]. intros H. apply Forall_cons in H as [H _].
      congruence.
    + rewrite IH. split; [by constructor|]. intros H.
      by apply Forall_cons in H as [_ H].
Qed.

Lemma find_first {A} (f : A -> bool) (l1 l2 : list A) (x : A) :
  Forall (fun y => f y = false) l1 -> f x = true ->
  List.find f (l1 ++ x :: l2) = Some x.
Proof.
  intros Hall Hx. rewrite find_app.
  apply find_none_iff in Hall. rewrite Hall. cbn. by rewrite Hx.
Qed.

Lemma find_filter {A} (f g : A -> bool) (l : list A) :
  (forall x, f x = true -> g x = true) ->
  List.find f (List.filter g l) = List.find f l.
Proof.
  intros Hfg. induction l as [|x l IH]; [reflexivity|]. cbn.
  destruct (f x) eqn:Hf.
  - rewrite (Hfg x Hf). cbn. by rewrite Hf.
  - destruct (g x); [cbn; by rewrite Hf|exact IH].
Qed.

Lemma find_filter_none {A} (f g : A -> bool) (l : list A) :
  (forall x, f x = true -> g x = false) ->
  List.find f (List.filter g l) = None.
Proof.
  intros Hfg. induction l as [|x l IH]; [reflexivity|]. cbn.
  destruct (g x) eqn:Hg; [|exact IH]. cbn.
  destruct (f x) eqn:Hf; [|exact IH]. rewrite (Hfg x Hf) in Hg. discriminate.
Qed.

Lemma find_split {A} (f : A -> bool) (l : list A) (x : A) :
  List.find f l = Some x ->
  exists l1 l2, l = l1 ++ x :: l2 /\
                Forall (fun y => f y = false) l1 /\ f x = true.
Proof.
  induction l as [|y l IH]; [discriminate|]. cbn.
  destruct (f y) eqn:Hy.
  - intros [= ->]. exists [], l. by split_and!.
  - intros Hfind. destruct (IH Hfind) as (l1 & l2 & -> & Hall & Hx).
    exists (y :: l1), l2. split_and!; [done| |done]. by constructor.
Qed.

Section Map.
Context {K V W : Type}.
Variables (eqK : K -> K -> bool) (hashK : K -> Z).
Implicit Types (s : htstate K V W) (T : hashTable_s K V W).
Implicit Types (cont : list (list (@entry K V))) (m : list (K * V)).

(** The additions and removals that a program does on a table. *)
Inductive table_operation : Type :=
| Add (key : option K) (value : option V)
| Remove (key : option K).

Definition perform_on_table (HashTable : hashTable) (o : table_operation)
  : M (htstate K V W) status :=
  match o with
  | Add key value => addToHashTable HashTable key value
  | Remove key => removeFromHashTable HashTable key
  end.

Fixpoint perform_all_on_table (HashTable : hashTable)
    (os : list table_operation) : M (htstate K V W) (list status) :=
  match os with
  | [] => ret []
  | o :: os' =>
      let* r := perform_on_table HashTable o in
      let* rs := perform_all_on_table HashTable os' in
      ret (r :: rs)
  end.

(** The map that the operations build, as a list of keys with their
    values: an addition that returned [success] puts the key and the value
    at the end, a removal that returned [success] takes the key out, and
    the other calls change nothing. *)
Definition map_step (o : table_operation) (r : status) m : list (K * V) :=
  match o, r with
  | Add (Some k) (Some v), success => m ++ [(k, v)]
  | Remove (Some k), success => List.filter (fun p => negb (eqK p.1 k)) m
  | _, _ => m
  end.

Fixpoint map_after (os : list table_operation) (rs : list status) m
  : list (K * V) :=
  match os, rs with
  | o :: os', r :: rs' => map_after os' rs' (map_step o r m)
  | _, _ => m
  end.

Definition map_find (k : K) m : option V :=
  snd <$> List.find (fun p => eqK p.1 k) m.

(** The hash of a key is the same for keys that are equal. *)
Definition hash_respects_equality : Prop :=
  forall a b, eqK a b = true -> hashK a = hashK b.


Section Steps.
Variables (t : loc) (T : hashTable_s K V W).
Hypothesis Hpure : pure_callbacks eqK hashK T.
Hypothesis Hequiv : eqK_equivalence eqK.
Hypothesis Hhash : hash_respects_equality.
Hypothesis Hck : faithful (HashTable.copyKey T).
Hypothesis Hcv : faithful (HashTable.copyValue T).
Hypothesis Hsize : 1 <= tableSize T.
Hypothesis Hnonneg : forall k, 0 <= hashK k.

(** The buckets hold the map: the first entry of the bucket of a key that
    matches the key has the value that the map gives the key. *)
Definition holds cont m : Prop :=
  forall k es,
    cont !! Z.to_nat (bucket_index hashK T k) = Some es ->
    e_val <$> List.find (matches eqK k) es = map_find k m.

Definition table_inv s cont m (calls : nat) : Prop :=
  table_rep s t T cont /\ keys_unique eqK cont /\ holds cont m /\
  forall i es, cont !! i = Some es ->
               Z.of_nat (length es) + Z.of_nat calls <= INT_MAX.

Lemma eqK_congr a b c : eqK a b = true -> eqK c a = eqK c b.
Proof.
  destruct Hequiv as (Hrefl & Hsym & Htrans). intros Hab.
  destruct (eqK c a) eqn:Hca.
  - symmetry. by eapply Htrans.
  - destruct (eqK c b) eqn:Hcb; [|reflexivity].
    rewrite <- Hca. eapply Htrans; [exact Hcb|]. by rewrite Hsym.
Qed.

Lemma bucket_index_nonneg k : 0 <= bucket_index hashK T k.
Proof.
  unfold bucket_index. apply Z.rem_bound_pos; [apply Hnonneg|lia].
Qed.

Lemma same_bucket a b :
  eqK a b = true ->
  Z.to_nat (bucket_index hashK T a) = Z.to_nat (bucket_index hashK T b).
Proof. intros Hab. unfold bucket_index. by rewrite (Hhash a b Hab). Qed.

Lemma bucket_exists s cont k :
  table_rep s t T cont ->
  is_Some (cont !! Z.to_nat (bucket_index hashK T k)).
Proof.
  intros (_ & al & cells & _ & _ & Hlen & Hall & _).
  apply lookup_lt_is_Some. rewrite <- (Forall2_length _ _ _ Hall), Hlen.
  pose proof (Z.rem_bound_pos (hashK k) (tableSize T) (Hnonneg k)).
  unfold bucket_index. lia.
Qed.

Lemma removeFromHashTable_miss s cont k es :
  table_rep s t T cont ->
  cont !! Z.to_nat (bucket_index hashK T k) = Some es ->
  Forall (fun e => matches eqK k e = false) es ->
  removeFromHashTable (Some t) (Some k) s = Some (no_element, s).
Proof.
  intros Hrep Hes Hmiss.
  destruct (bucket_access eqK hashK s t T cont k es Hrep Hpure
              (bucket_index_nonneg k) Hes)
    as (al & cells & cell & _ & _ & _ & Hbucket & Hgo).
  destruct Hbucket as (bl & L & -> & Hbl & HL & Hw & Hpairs).
  unfold removeFromHashTable. rewrite Hgo. hrun.
  rewrite (deleteNode_miss bl k (buckets s) L (as_nodes es) Hbl HL).
  - rewrite decide_True by done. hrun. by rewrite htstate_eta.
  - eapply equal_entries; eassumption.
Qed.

(** What a lookup returns on a table that holds the map [m]. *)
Lemma lookup_in_map s cont m calls k :
  table_inv s cont m calls ->
  lookupInHashTable (Some t) (Some k) s
  = match map_find k m with
    | None => Some (None, s)
    | Some v => in_callback (HashTable.copyValue T (Some v)) s
    end.
Proof.
  intros (Hrep & _ & Hholds & _).
  destruct (bucket_exists s cont k Hrep) as [es Hes].
  rewrite <- (Hholds k es Hes).
  destruct (List.find (matches eqK k) es) as [e|] eqn:Hfind; cbn.
  - apply find_split in Hfind as (es1 & es2 & -> & Hmiss & Hhit).
    by eapply (lookup_hit eqK hashK s t T cont k _ es1 e es2 Hrep Hpure
                 (bucket_index_nonneg k) Hes).
  - apply find_none_iff in Hfind.
    by eapply (lookup_miss eqK hashK s t T cont k es Hrep Hpure
                 (bucket_index_nonneg k) Hes).
Qed.

Lemma add_in_map s cont m calls k v st s' :
  table_inv s cont m (S calls) ->
  addToHashTable (Some t) (Some k) (Some v) s = Some (st, s') ->
  exists cont',
    table_inv s' cont' (map_step (Add (Some k) (Some v)) st m) calls.
Proof.
  intros (Hrep & Huniq & Hholds & Hsmall) Hrun.
  assert (Hsmall' : forall i es, cont !! i = Some es ->
            Z.of_nat (length es) + Z.of_nat calls <= INT_MAX).
  { intros i es Hes. specialize (Hsmall i es Hes). lia. }
  destruct (add_inv eqK hashK _ _ _ _ _ _ _ _ Hrep Hpure Hrun)
    as (_ & es & Hes & Hcases).
  destruct Hcases
    as [(-> & -> & _)
       |(Hmiss & _ & _ & _ &
         [(-> & Hrep')
         |(-> & e & w1 & Hcopyk & Hcopyv & _ & Hrep')])].
  - exists cont. by split_and!.
  - exists cont. by split_and!.
  - apply Hck in Hcopyk. apply Hcv in Hcopyv.
    set (i := Z.to_nat (bucket_index hashK T k)) in *.
    exists (<[i := es ++ [e]]> cont). split; [exact Hrep'|].
    split; [|split].
    + apply keys_unique_insert; [exact Huniq|].
      apply unique_keys_snoc; [by eapply Huniq|]. by rewrite Hcopyk.
    + intros q es_q Hq. cbn [map_step]. unfold map_find.
      rewrite find_app. cbn [List.find fst].
      apply list_lookup_insert_Some in Hq as [(Hi & <- & _)|[Hne Hq]].
      * rewrite find_app. cbn [List.find].
        unfold matches at 2. rewrite Hcopyk.
        assert (Hold : e_val <$> List.find (matches eqK q) es
                       = map_find q m) by (apply Hholds; by rewrite <- Hi).
        unfold map_find in Hold.
        destruct (List.find (matches eqK q) es),
                 (List.find (fun p => eqK p.1 q) m);
          cbn in Hold |- *; try done.
        destruct (eqK k q); cbn; [by rewrite Hcopyv|done].
      * specialize (Hholds q es_q Hq). unfold map_find in Hholds.
        rewrite Hholds.
        destruct (List.find (fun p => eqK p.1 q) m); [done|].
        destruct (eqK k q) eqn:Hkq; [|done].
        exfalso. apply Hne. by apply same_bucket.
    + intros j es_j Hj.
      apply list_lookup_insert_Some in Hj as [(_ & <- & _)|[_ Hj]].
      * specialize (Hsmall i es Hes). rewrite length_app. cbn. lia.
      * by apply (Hsmall' j).
Qed.

Lemma remove_in_map s cont m calls k st s' :
  table_inv s cont m (S calls) ->
  removeFromHashTable (Some t) (Some k) s = Some (st, s') ->
  exists cont',
    table_inv s' cont' (map_step (Remove (Some k)) st m) calls.
Proof.
  intros (Hrep & Huniq & Hholds & Hsmall) Hrun.
  assert (Hsmall' : forall i es, cont !! i = Some es ->
            Z.of_nat (length es) + Z.of_nat calls <= INT_MAX).
  { intros i es Hes. specialize (Hsmall i es Hes). lia. }
  destruct (remove_inv eqK hashK _ _ _ _ _ _ _ Hrep Hpure Hrun)
    as (_ & es & Hes & Hcases).
  destruct Hcases
    as [(-> & -> & _)
       |(-> & es1 & e & es2 & r1 & w1 & r2 & -> & Hmiss & Hhit & _ & _ &
         _ & _ & Hrep')].
  - exists cont. by split_and!.
  - set (i := Z.to_nat (bucket_index hashK T k)) in *.
    pose proof (Hsmall i _ Hes) as Hlen. rewrite length_app in Hlen.
    cbn [length] in Hlen.
    rewrite after_delete_small in Hrep' by lia.
    pose proof (Huniq i _ Hes) as Hu.
    exists (<[i := es1 ++ es2]> cont). split; [exact Hrep'|].
    split; [|split].
    + apply keys_unique_insert; [exact Huniq|].
      by eapply unique_keys_remove.
    + intros q es_q Hq. cbn [map_step]. unfold map_find.
      destruct (eqK k q) eqn:Hkq.
      * (* the key that is removed *)
        rewrite find_filter_none.
        2:{ intros p Hp. rewrite (eqK_congr q k p.1) in Hp.
            - by rewrite Hp.
            - destruct Hequiv as (_ & Hsym & _). by rewrite Hsym. }
        rewrite <- (same_bucket k q Hkq) in Hq. fold i in Hq.
        rewrite list_lookup_insert_eq in Hq by (by eapply lookup_lt_Some).
        injection Hq as <-.
        assert (Hnone : Forall (fun x => matches eqK q x = false)
                          (after_delete es1 es2)).
        { eapply no_match_after_delete; [exact Hequiv|exact Hu| |].
          - eapply Forall_impl; [exact Hmiss|]. intros x Hx.
            unfold matches in *. by rewrite <- (eqK_congr k q).
          - unfold matches in *. by rewrite <- (eqK_congr k q). }
        rewrite after_delete_small in Hnone by lia.
        apply find_none_iff in Hnone. by rewrite Hnone.
      * (* another key *)
        assert (Hother : forall a, eqK a k = true -> eqK a q = false).
        { intros a Hak. destruct (eqK a q) eqn:Haq; [|reflexivity].
          destruct Hequiv as (_ & Hsym & Htrans).
          rewrite <- Hkq. symmetry. eapply Htrans; [|exact Haq].
          by rewrite Hsym. }
        rewrite find_filter.
        2:{ intros p Hp. destruct (eqK p.1 k) eqn:Hpk; [|done].
            rewrite (Hother _ Hpk) in Hp. discriminate. }
        change (snd <$> List.find (fun p => eqK p.1 q) m) with (map_find q m).
        apply list_lookup_insert_Some in Hq as [(Hi & <- & _)|[Hne Hq]].
        -- rewrite <- (Hholds q (es1 ++ e :: es2)) by (by rewrite <- Hi).
           rewrite !find_app. cbn [List.find].
           replace (matches eqK q e) with false; [reflexivity|].
           symmetry. by apply Hother.
        -- by apply Hholds.
    + intros j es_j Hj.
      apply list_lookup_insert_Some in Hj as [(_ & <- & _)|[_ Hj]].
      * rewrite length_app. lia.
      * by apply (Hsmall' j).
Qed.

Lemma table_inv_later s cont m calls :
  table_inv s cont m (S calls) -> table_inv s cont m calls.
Proof.
  intros (Hrep & Huniq & Hholds & Hsmall). split_and!; try done.
  intros i es Hes. specialize (Hsmall i es Hes). lia.
Qed.

Lemma perform_all_in_map os s cont m rs s' :
  table_inv s cont m (length os) ->
  perform_all_on_table (Some t) os s = Some (rs, s') ->
  exists cont', table_inv s' cont' (map_after os rs m) 0.
Proof.
  revert s cont m rs. induction os as [|o os IH]; intros s cont m rs Hinv Hrun.
  - injection Hrun as <- <-. by exists cont.
  - cbn [perform_all_on_table] in Hrun.
    apply MultiValueHashTableFacts.bind_inv in Hrun
      as (r & s1 & Hone & Hrun).
    apply MultiValueHashTableFacts.bind_inv in Hrun
      as (rs' & s2 & Hrest & Hrun).
    injection Hrun as <- <-. cbn [length] in Hinv. cbn [map_after].
    assert (exists cont1, table_inv s1 cont1 (map_step o r m) (length os))
      as [cont1 Hinv1].
    { destruct o as [[k|] [v|]|[k|]]; cbn [perform_on_table] in Hone.
      - by eapply add_in_map.
      - injection Hone as <- <-. exists cont. by apply table_inv_later.
      - injection Hone as <- <-. exists cont. by apply table_inv_later.
      - injection Hone as <- <-. exists cont. by apply table_inv_later.
      - by eapply remove_in_map.
      - injection Hone as <- <-. exists cont. by apply table_inv_later. }
    by eapply IH.
Qed.

Lemma remove_absent s cont m calls k :
  table_inv s cont m calls -> map_find k m = None ->
  removeFromHashTable (Some t) (Some k) s = Some (no_element, s).
Proof.
  intros (Hrep & _ & Hholds & _) Hnone.
  destruct (bucket_exists s cont k Hrep) as [es Hes].
  rewrite <- (Hholds k es Hes) in Hnone.
  destruct (List.find (matches eqK k) es) eqn:Hfind; [discriminate|].
  apply find_none_iff in Hfind. by eapply removeFromHashTable_miss.
Qed.

Lemma add_present s cont m calls k v :
  table_inv s cont m calls -> map_find k m <> None ->
  addToHashTable (Some t) (Some k) (Some v) s = Some (element_exist, s).
Proof.
  intros (Hrep & _ & Hholds & _) Hsome.
  destruct (bucket_exists s cont k Hrep) as [es Hes].
  rewrite <- (Hholds k es Hes) in Hsome.
  destruct (List.find (matches eqK k) es) as [e|] eqn:Hfind; [|done].
  apply find_split in Hfind as (es1 & es2 & -> & Hmiss & Hhit).
  by eapply (add_hit eqK hashK s t T cont k v _ es1 e es2 Hrep Hpure
               (bucket_index_nonneg k) Hes).
Qed.

End Steps.

(** X9. The table is a map from keys to values.  A table is created and
    additions and removals are done on it (fewer than 2^31), with an
    equality of keys that is an equivalence, a hash that is the same for
    equal keys and not negative, at least one bucket, and copies that are
    equal to what they copy.  Then [lookupInHashTable] of a key returns
    [NULL] when the key was never added with success or was removed since,
    and otherwise what the copy function makes of the value that the key
    was last added with; [removeFromHashTable] of a key without a value
    returns [no_element] and [addToHashTable] of a key with a value
    returns [element_exist], both without any change. *)
Theorem hash_table_is_a_map ck fk pk cv fv pv ek tn n s0 t s1 os rs s2 :
  (forall a b w, ek (Some a) (Some b) w = Some (eqK a b)) ->
  (forall k w, tn (Some k) w = Some (hashK k)) ->
  eqK_equivalence eqK -> hash_respects_equality ->
  faithful ck -> faithful cv ->
  1 <= n -> (forall k, 0 <= hashK k) ->
  Z.of_nat (length os) <= INT_MAX ->
  createHashTable (Some ck) (Some fk) (Some pk) (Some cv) (Some fv) (Some pv)
    (Some ek) (Some tn) n s0 = Some (Some t, s1) ->
  perform_all_on_table (Some t) os s1 = Some (rs, s2) ->
  forall k,
    lookupInHashTable (Some t) (Some k) s2
    = match map_find k (map_after os rs []) with
      | None => Some (None, s2)
      | Some v => in_callback (cv (Some v)) s2
      end /\
    (map_find k (map_after os rs []) = None ->
     removeFromHashTable (Some t) (Some k) s2 = Some (no_element, s2)) /\
    (map_find k (map_after os rs []) <> None ->
     forall v,
       addToHashTable (Some t) (Some k) (Some v) s2
       = Some (element_exist, s2)).
Proof.
  intros Hek Htn Hequiv Hhash Hck Hcv Hn Hnonneg Hlen Hcreate Hrun k.
  apply createHashTable_rep in Hcreate as (Hrep & _). cbv zeta in Hrep.
  match type of Hrep with
  | table_rep _ _ ?T0 _ => set (T := T0) in *
  end.
  assert (Hpure : pure_callbacks eqK hashK T) by (by split).
  assert (Hinv : table_inv t T s1 (replicate (Z.to_nat n) []) [] (length os)).
  { split; [exact Hrep|]. split; [|split].
    - intros i es Hes. by apply lookup_replicate in Hes as [-> _].
    - intros q es Hes. by apply lookup_replicate in Hes as [-> _].
    - intros i es Hes. apply lookup_replicate in Hes as [-> _]. cbn. lia. }
  destruct (perform_all_in_map t T Hpure Hequiv Hhash Hck Hcv os s1 _ [] rs
              s2 Hinv Hrun) as [cont Hinv2].
  split; [|split].
  - by apply (lookup_in_map t T Hpure Hn Hnonneg s2 cont _ 0%nat).
  - by apply (remove_absent t T Hpure Hn Hnonneg s2 cont _ 0%nat).
  - intros Hsome v.
    exact (add_present t T Hpure Hn Hnonneg s2 cont _ 0%nat k v Hinv2 Hsome).
Qed.

End Map.

Import Examples.

Lemma of_nat_respects_eqb : hash_respects_equality Nat.eqb Z.of_nat.
Proof. intros a b Hab. apply Nat.eqb_eq in Hab. by rewrite Hab. Defined.

Lemma hash_table_is_a_map_witness :
  createHashTable (Some copy_nat) (Some free_nat) (Some print_nat)
    (Some copy_nat) (Some free_nat) (Some print_nat) (Some equal_nat)
    (Some number_nat) 13 table_s0 = Some (Some table_t, table_s1) /\
  perform_all_on_table (Some table_t)
    [Add (Some 5%nat) (Some 50%nat); Add (Some 18%nat) (Some 180%nat);
     Remove (Some 5%nat); Add (Some 5%nat) (Some 51%nat);
     Add (Some 18%nat) (Some 181%nat)] table_s1
  = Some ([success; success; success; success; element_exist], table_s6) /\
  lookupInHashTable (Some table_t) (Some 5%nat) table_s6
  = in_callback (copy_nat (Some 51%nat)) table_s6 /\
  lookupInHashTable (Some table_t) (Some 18%nat) table_s6
  = in_callback (copy_nat (Some 180%nat)) table_s6 /\
  lookupInHashTable (Some table_t) (Some 31%nat) table_s6
  = Some (None, table_s6) /\
  removeFromHashTable (Some table_t) (Some 31%nat) table_s6
  = Some (no_element, table_s6).
Proof.
  assert (Hcreate : createHashTable (Some copy_nat) (Some free_nat)
                      (Some print_nat) (Some copy_nat) (Some free_nat)
                      (Some print_nat) (Some equal_nat) (Some number_nat) 13
                      table_s0 = Some (Some table_t, table_s1))
    by (vm_compute; reflexivity).
  assert (Hrun : perform_all_on_table (Some table_t)
                   [Add (Some 5%nat) (Some 50%nat);
                    Add (Some 18%nat) (Some 180%nat);
                    Remove (Some 5%nat); Add (Some 5%nat) (Some 51%nat);
                    Add (Some 18%nat) (Some 181%nat)] table_s1
                 = Some ([success; success; success; success; element_exist],
                         table_s6))
    by (vm_compute; reflexivity).
  assert (Hlen : Z.of_nat (length
                   [Add (K := nat) (V := nat) (Some 5%nat) (Some 50%nat);
                    Add (Some 18%nat) (Some 180%nat);
                    Remove (Some 5%nat); Add (Some 5%nat) (Some 51%nat);
                    Add (Some 18%nat) (Some 181%nat)]) <= INT_MAX)
    by (vm_compute; discriminate).
  pose proof (hash_table_is_a_map Nat.eqb Z.of_nat copy_nat free_nat
                print_nat copy_nat free_nat print_nat equal_nat number_nat 13
                table_s0 table_t table_s1 _ _ table_s6
                (fun a b w => eq_refl) (fun k w => eq_refl) eqb_equivalence
                of_nat_respects_eqb copy_nat_faithful copy_nat_faithful
                ltac:(lia) ltac:(lia) Hlen Hcreate Hrun) as Hmap.
  split; [exact Hcreate|]. split; [exact Hrun|].
  split; [exact (proj1 (Hmap 5%nat))|].
  split; [exact (proj1 (Hmap 18%nat))|].
  split; [exact (proj1 (Hmap 31%nat))|].
  exact (proj1 (proj2 (Hmap 31%nat)) eq_refl).
Defined.

End HashTableBehaviour.

(** ** The size of the tables (main program) *)

Module TableSizeBehaviour.
Import TableSize TableSizeFacts.

(** X10. [CheckPrimeNumber] returns [true] on the prime numbers and on
    nothing else: trying the divisors from 2 up to the square root misses
    no composite number, and 0, 1 and the negative numbers are refused. *)
Theorem CheckPrimeNumber_true_iff_prime (number : Z) :
  CheckPrimeNumber number = true <-> Z.prime number.
Proof. apply CheckPrimeNumber_prime. Qed.

End TableSizeBehaviour.

(** ** MultiValueHashTable.c *)

Module MultiValueBehaviour.
Import LinkedList KeyValuePair HashTable MultiValueHashTable.
Import LinkedListFacts HashTableFacts MultiValueHashTableFacts.

Section Behaviour.
Context {K V U : Type}.
Variables (eqK : K -> K -> bool) (hashK : K -> Z).
Variable ev : EqualFunction V V U.
Implicit Types (s : mstate K V U) (cont : list (list (@entry K loc))).

Section Reached.
Variables (m t : loc) (Mu : MultiHashTable_s K V U).
Variable T : hashTable_s K loc (values V U).
Hypothesis Hcb : multi_callbacks ev t Mu T.
Hypothesis Hpure : pure_keys eqK hashK Mu.

Lemma lookup_inv s cont k r :
  minv eqK ev m t Mu T s cont ->
  lookupInMultiValueHashTable (Some m) (Some k) s = Some (r, s) ->
  0 <= bucket_index hashK T k /\
  exists es,
    cont !! Z.to_nat (bucket_index hashK T k) = Some es /\
    ((r = None /\ Forall (fun e => matches eqK k e = false) es) \/
     exists es1 e es2,
       es = es1 ++ e :: es2 /\ r = Some (e_val e) /\
       Forall (fun e => matches eqK k e = false) es1 /\
       matches eqK k e = true).
Proof.
  intros [(Hm & Hrep & _) _] Hrun.
  pose proof Hcb as (HT & _).
  cbn [lookupInMultiValueHashTable] in Hrun.
  apply bind_inv in Hrun as (Mu' & s0 & Hget & Hrun).
  unfold get_multi in Hget. rewrite Hm in Hget. injection Hget as <- <-.
  rewrite HT in Hrun.
  apply bind_inv in Hrun as (r' & s1 & Hlook & Hrun).
  apply in_table_inv in Hlook as (h1 & Hlook & ->).
  destruct (lookup_defined eqK hashK ev t Mu T Hcb Hpure _ _ _ _ Hrep Hlook)
    as (Hidx & es & Hes).
  split; [exact Hidx|]. exists es. split; [exact Hes|].
  destruct (first_match_split (matches eqK k) es)
    as [Hmiss|(es1 & e & es2 & -> & Hmiss & Hhit)].
  - rewrite (lookup_miss eqK hashK _ _ _ _ _ _ Hrep
               (pure_T eqK hashK ev t Mu T Hcb Hpure) Hidx Hes Hmiss)
      in Hlook.
    injection Hlook as <- <-. left. split; [by injection Hrun|exact Hmiss].
  - rewrite (values_lookup_hit eqK hashK ev t Mu T Hcb Hpure _ _ _ _ _ _
               Hrep Hidx Hes Hmiss Hhit) in Hlook.
    injection Hlook as <- <-. right. exists es1, e, es2.
    split; [reflexivity|]. split; [by injection Hrun|by split].
Qed.

Lemma in_table_lookup_hit s cont k es1 e es2 :
  tinv eqK m t Mu T s cont -> 0 <= bucket_index hashK T k ->
  cont !! Z.to_nat (bucket_index hashK T k) = Some (es1 ++ e :: es2) ->
  Forall (fun e => matches eqK k e = false) es1 -> matches eqK k e = true ->
  in_table (lookupInHashTable (Some t) (Some k)) s = Some (Some (e_val e), s)
  /\
  lookupInMultiValueHashTable (Some m) (Some k) s = Some (Some (e_val e), s).
Proof.
  intros (Hm & Hrep & _) Hidx Hes Hmiss Hhit.
  pose proof (values_lookup_hit eqK hashK ev t Mu T Hcb Hpure _ _ _ _ _ _
                Hrep Hidx Hes Hmiss Hhit) as Hlook.
  split.
  - unfold in_table. rewrite Hlook. by destruct s.
  - by apply (multi_lookup_eq ev m t Mu T Hcb).
Qed.

Lemma in_values_run {A} (c : M (values V U) A) s :
  in_values c s
  = match c (vals (under s)) with
    | Some (a, w) => Some (a, touch w s)
    | None => None
    end.
Proof.
  unfold in_values, in_table. rewrite in_callback_eq.
  by destruct (c (vals (under s))) as [[a w]|].
Qed.


Lemma add_to_present_key s cont k v vl VL ys st s' :
  minv eqK ev m t Mu T s cont ->
  lookupInMultiValueHashTable (Some m) (Some k) s = Some (Some vl, s) ->
  lists (vals (under s)) !! vl = Some VL -> list_rep VL ys ->
  addToMultiValueHashTable (Some m) (Some k) (Some v) s = Some (st, s') ->
  lookupInMultiValueHashTable (Some m) (Some k) s' = Some (Some vl, s') /\
  ((st = success /\
    exists VL' x,
      copyElement VL (Some v) (world (vals (under s)))
      = Some (Some x, world (vals (under s'))) /\
      lists (vals (under s')) = <[vl := VL']> (lists (vals (under s))) /\
      list_rep VL' (ys ++ [(fresh (dom (nodes VL)), Some x)])) \/
   (st = Memory_Problem /\
    lists (vals (under s')) = lists (vals (under s)))).
Proof.
  intros Hinv Hlookup HVL Hys Hrun.
  destruct (lookup_inv s cont k _ Hinv Hlookup)
    as (Hidx & es & Hes &
        [[? _]|(es1 & e & es2 & -> & Hvl & Hmiss & Hhit)]); [discriminate|].
  injection Hvl as ->.
  pose proof Hinv as [Htinv _]. pose proof Htinv as (Hm & _).
  pose proof Hcb as (HT & _).
  destruct (in_table_lookup_hit s cont k es1 e es2 Htinv Hidx Hes Hmiss Hhit)
    as [Hfwd _].
  cbn [addToMultiValueHashTable] in Hrun.
  apply bind_inv in Hrun as (Mu' & s0 & Hget & Hrun).
  unfold get_multi in Hget. rewrite Hm in Hget. injection Hget as <- <-.
  rewrite HT in Hrun.
  apply bind_inv in Hrun as (r & s1 & Hlook & Hrun).
  rewrite Hfwd in Hlook. injection Hlook as <- <-.
  apply bind_inv in Hrun as (res & s1 & Happ & Hrun).
  apply in_values_inv in Happ as (w1 & Happ & ->).
  assert (Hafter : lookupInMultiValueHashTable (Some m) (Some k) (touch w1 s)
                   = Some (Some (e_val e), touch w1 s)).
  { by apply (in_table_lookup_hit (touch w1 s) cont k es1 e es2);
      [apply tinv_touch|..]. }
  pose proof (appendNode_spec (e_val e) v (vals (under s)) VL ys HVL Hys)
    as Hspec.
  destruct (malloc_outcome (mallocs (vals (under s)))) as [[|] rest].
  - destruct (copyElement VL (Some v) (world (vals (under s))))
      as [[[d|] u']|]; [| |congruence].
    + destruct Hspec as (L' & HL' & _ & Hspec).
      rewrite Hspec in Happ. injection Happ as <- <-.
      rewrite !decide_False in Hrun by done. injection Hrun as <- <-.
      split; [exact Hafter|]. left. split; [reflexivity|]. by exists L', d.
    + rewrite Hspec in Happ. injection Happ as <- <-.
      rewrite decide_True in Hrun by done. injection Hrun as <- <-.
      split; [exact Hafter|]. right. by split.
  - rewrite Hspec in Happ. injection Happ as <- <-.
    rewrite decide_True in Hrun by done. injection Hrun as <- <-.
    split; [exact Hafter|]. right. by split.
Qed.

Lemma remove_without_match s cont k v :
  minv eqK ev m t Mu T s cont ->
  (lookupInMultiValueHashTable (Some m) (Some k) s = Some (None, s) ->
   removeFromMultiValueHashTable (Some m) (Some k) (Some v) s
   = Some (no_element, s)) /\
  (forall vl VL ys,
     lookupInMultiValueHashTable (Some m) (Some k) s = Some (Some vl, s) ->
     lists (vals (under s)) !! vl = Some VL -> list_rep VL ys ->
     Forall (fun y => equal VL y.2 (Some v) (world (vals (under s)))
                      = Some false) ys ->
     removeFromMultiValueHashTable (Some m) (Some k) (Some v) s
     = Some (no_element, s)).
Proof.
  intros Hinv. pose proof Hinv as [Htinv _].
  pose proof Htinv as (Hm & Hrep & _). pose proof Hcb as (HT & _).
  split.
  - intros Hlookup.
    destruct (lookup_inv s cont k _ Hinv Hlookup)
      as (Hidx & es & Hes & [[_ Hmiss]|(es1 & e & es2 & _ & ? & _)]);
      [|discriminate].
    cbn [removeFromMultiValueHashTable]. unfold bind at 1, get_multi.
    rewrite Hm, HT. unfold bind at 1, in_table.
    rewrite (lookup_miss eqK hashK _ _ _ _ _ _ Hrep
               (pure_T eqK hashK ev t Mu T Hcb Hpure) Hidx Hes Hmiss).
    by destruct s.
  - intros vl VL ys Hlookup HVL Hys Hall.
    destruct (lookup_inv s cont k _ Hinv Hlookup)
      as (Hidx & es & Hes &
          [[? _]|(es1 & e & es2 & -> & Hvl & Hmiss & Hhit)]); [discriminate|].
    injection Hvl as ->.
    destruct (in_table_lookup_hit s cont k es1 e es2 Htinv Hidx Hes Hmiss
                Hhit) as [Hfwd _].
    cbn [removeFromMultiValueHashTable]. unfold bind at 1, get_multi.
    rewrite Hm, HT. unfold bind at 1. rewrite Hfwd.
    unfold bind at 1. rewrite in_values_run.
    rewrite (searchByKeyInList_miss (e_val e) v (vals (under s)) VL ys HVL
               Hys Hall).
    by rewrite touch_id.
Qed.

Lemma remove_one_of_several s cont k v vl VL ys1 c d ys2 st s' :
  minv eqK ev m t Mu T s cont ->
  lookupInMultiValueHashTable (Some m) (Some k) s = Some (Some vl, s) ->
  lists (vals (under s)) !! vl = Some VL ->
  list_rep VL (ys1 ++ (c, d) :: ys2) ->
  Z.of_nat (length (ys1 ++ (c, d) :: ys2)) <= INT_MAX ->
  ys1 ++ ys2 <> [] ->
  (forall a b u u', ev a b u = ev a b u') ->
  Forall (fun y => equal VL y.2 (Some v) (world (vals (under s)))
                   = Some false) ys1 ->
  equal VL d (Some v) (world (vals (under s))) = Some true ->
  removeFromMultiValueHashTable (Some m) (Some k) (Some v) s
  = Some (st, s') ->
  (st = no_element /\
   copyElement VL d (world (vals (under s)))
   = Some (None, world (vals (under s'))) /\
   lists (vals (under s')) = lists (vals (under s))) \/
  (st = success /\
   lookupInMultiValueHashTable (Some m) (Some k) s' = Some (Some vl, s') /\
   exists x u1 r VL',
     copyElement VL d (world (vals (under s))) = Some (Some x, u1) /\
     freeElement VL d u1 = Some (r, world (vals (under s'))) /\
     lists (vals (under s')) = <[vl := VL']> (lists (vals (under s))) /\
     list_rep VL' (ys1 ++ ys2)).
Proof.
  intros Hinv Hlookup HVL Hys Hlen Hrest Hpurev Hall Hd Hrun.
  destruct (lookup_inv s cont k _ Hinv Hlookup)
    as (Hidx & es & Hes &
        [[? _]|(es1 & e & es2 & -> & Hvl & Hmiss & Hhit)]); [discriminate|].
  injection Hvl as ->.
  pose proof Hinv as [Htinv Hvals]. pose proof Htinv as (Hm & _).
  pose proof Hcb as (HT & _).
  assert (He : e ∈ es1 ++ e :: es2) by (apply elem_of_app; right; left).
  destruct (proj1 Hvals _ _ e Hes He) as (VL0 & ys0 & HVL0 & _ & _ & HevL).
  rewrite HVL in HVL0. injection HVL0 as <-.
  destruct (in_table_lookup_hit s cont k es1 e es2 Htinv Hidx Hes Hmiss Hhit)
    as [Hfwd _].
  cbn [removeFromMultiValueHashTable] in Hrun.
  apply bind_inv in Hrun as (Mu' & s0 & Hget & Hrun).
  unfold get_multi in Hget. rewrite Hm in Hget. injection Hget as <- <-.
  rewrite HT in Hrun.
  apply bind_inv in Hrun as (r & s1 & Hlook & Hrun).
  rewrite Hfwd in Hlook. injection Hlook as <- <-.
  apply bind_inv in Hrun as (found & s1 & Hsearch & Hrun).
  rewrite in_values_run in Hsearch.
  rewrite (searchByKeyInList_hit (e_val e) v (vals (under s)) VL ys1 c d ys2
             HVL Hys Hall Hd) in Hsearch.
  destruct (copyElement VL d (world (vals (under s)))) as [[found' u1]|];
    [|discriminate].
  injection Hsearch as <- <-.
  destruct found' as [x|].
  2:{ injection Hrun as <- <-. left. by split_and!. }
  right.
  apply bind_inv in Hrun as (dres & s2 & Hdel & Hrun).
  rewrite in_values_run in Hdel. rewrite vals_touch in Hdel.
  match type of Hdel with
  | context [deleteNode _ _ ?w] => set (w1 := w) in *
  end.
  assert (Hall1 : Forall (fun y => equal VL y.2 (Some v) (world w1)
                                   = Some false) ys1).
  { eapply Forall_impl; [exact Hall|]. intros y Hy. cbn in Hy |- *.
    rewrite HevL in Hy |- *. by rewrite (Hpurev _ _ _ (world (vals (under s)))). }
  assert (Hd1 : equal VL d (Some v) (world w1) = Some true).
  { rewrite HevL in Hd |- *.
    by rewrite (Hpurev _ _ _ (world (vals (under s)))). }
  destruct (deleteNode_hit (e_val e) v w1 VL ys1 c d ys2 HVL Hys Hall1 Hd1)
    as (L' & HL' & _ & _ & Hgo).
  rewrite Hgo in Hdel. cbn [world w1] in Hdel.
  destruct (freeElement VL d u1) as [[rf u2]|] eqn:Hfree; [|discriminate].
  injection Hdel as <- <-. rewrite touch_touch in Hrun.
  rewrite decide_False in Hrun by done.
  apply bind_inv in Hrun as (len & s3 & Hlen' & Hrun).
  rewrite in_values_run in Hlen'. rewrite vals_touch in Hlen'.
  rewrite (getLengthList_spec _ _ L') in Hlen' by apply lookup_insert_eq.
  injection Hlen' as <- <-. rewrite touch_touch in Hrun.
  rewrite length_app in Hlen. cbn [length] in Hlen.
  rewrite after_delete_small in HL' by lia.
  assert (Hcount : (count_elements L' =? 0) = false).
  { destruct HL' as (_ & _ & ->). rewrite length_app.
    rewrite wrap_int_id by (unfold in_int, INT_MIN, INT_MAX in *; lia).
    apply Z.eqb_neq. intros Hz. apply Hrest.
    apply length_zero_iff_nil. rewrite length_app. lia. }
  rewrite Hcount in Hrun. injection Hrun as <- <-.
  split; [reflexivity|]. split.
  - by apply (in_table_lookup_hit (touch _ s) cont k es1 e es2);
      [apply tinv_touch|..].
  - exists x, u1, rf, L'.
    split; [reflexivity|]. split; [exact Hfree|].
    split; [reflexivity|exact HL'].
Qed.

Lemma add_to_present_key_succeeds s cont k v vl VL ys rest x u' :
  minv eqK ev m t Mu T s cont ->
  lookupInMultiValueHashTable (Some m) (Some k) s = Some (Some vl, s) ->
  lists (vals (under s)) !! vl = Some VL -> list_rep VL ys ->
  malloc_outcome (mallocs (vals (under s))) = (true, rest) ->
  copyElement VL (Some v) (world (vals (under s))) = Some (Some x, u') ->
  exists s',
    addToMultiValueHashTable (Some m) (Some k) (Some v) s
    = Some (success, s').
Proof.
  intros Hinv Hlookup HVL Hys Hmalloc Hcopy.
  destruct (lookup_inv s cont k _ Hinv Hlookup)
    as (Hidx & es & Hes &
        [[? _]|(es1 & e & es2 & -> & Hvl & Hmiss & Hhit)]); [discriminate|].
  injection Hvl as ->.
  pose proof Hinv as [Htinv _]. pose proof Htinv as (Hm & _).
  pose proof Hcb as (HT & _).
  destruct (in_table_lookup_hit s cont k es1 e es2 Htinv Hidx Hes Hmiss Hhit)
    as [Hfwd _].
  pose proof (appendNode_spec (e_val e) v (vals (under s)) VL ys HVL Hys)
    as Hspec.
  rewrite Hmalloc, Hcopy in Hspec. destruct Hspec as (L' & _ & _ & Hspec).
  cbn [addToMultiValueHashTable]. unfold bind at 1, get_multi.
  rewrite Hm, HT. unfold bind at 1. rewrite Hfwd.
  unfold bind at 1. rewrite in_values_run. rewrite Hspec.
  rewrite !decide_False by done. by eexists.
Qed.

Lemma remove_one_of_several_succeeds s cont k v vl VL ys1 c d ys2 x u1 rf u2 :
  minv eqK ev m t Mu T s cont ->
  lookupInMultiValueHashTable (Some m) (Some k) s = Some (Some vl, s) ->
  lists (vals (under s)) !! vl = Some VL ->
  list_rep VL (ys1 ++ (c, d) :: ys2) ->
  Z.of_nat (length (ys1 ++ (c, d) :: ys2)) <= INT_MAX ->
  ys1 ++ ys2 <> [] ->
  (forall a b u u', ev a b u = ev a b u') ->
  Forall (fun y => equal VL y.2 (Some v) (world (vals (under s)))
                   = Some false) ys1 ->
  equal VL d (Some v) (world (vals (under s))) = Some true ->
  copyElement VL d (world (vals (under s))) = Some (Some x, u1) ->
  freeElement VL d u1 = Some (rf, u2) ->
  exists s',
    removeFromMultiValueHashTable (Some m) (Some k) (Some v) s
    = Some (success, s').
Proof.
  intros Hinv Hlookup HVL Hys Hlen Hrest Hpurev Hall Hd Hcopy Hfree.
  destruct (lookup_inv s cont k _ Hinv Hlookup)
    as (Hidx & es & Hes &
        [[? _]|(es1 & e & es2 & -> & Hvl & Hmiss & Hhit)]); [discriminate|].
  injection Hvl as ->.
  pose proof Hinv as [Htinv Hvals]. pose proof Htinv as (Hm & _).
  pose proof Hcb as (HT & _).
  assert (He : e ∈ es1 ++ e :: es2) by (apply elem_of_app; right; left).
  destruct (proj1 Hvals _ _ e Hes He) as (VL0 & ys0 & HVL0 & _ & _ & HevL).
  rewrite HVL in HVL0. injection HVL0 as <-.
  destruct (in_table_lookup_hit s cont k es1 e es2 Htinv Hidx Hes Hmiss Hhit)
    as [Hfwd _].
  set (w1 := mkLstate (lists (vals (under s))) u1 (mallocs (vals (under s)))).
  assert (Hall1 : Forall (fun y => equal VL y.2 (Some v) (world w1)
                                   = Some false) ys1).
  { eapply Forall_impl; [exact Hall|]. intros y Hy. cbn in Hy |- *.
    rewrite HevL in Hy |- *. by rewrite (Hpurev _ _ _ (world (vals (under s)))). }
  assert (Hd1 : equal VL d (Some v) (world w1) = Some true).
  { rewrite HevL in Hd |- *.
    by rewrite (Hpurev _ _ _ (world (vals (under s)))). }
  destruct (deleteNode_hit (e_val e) v w1 VL ys1 c d ys2 HVL Hys Hall1 Hd1)
    as (L' & HL' & _ & _ & Hgo).
  cbn [world w1] in Hgo. rewrite Hfree in Hgo.
  rewrite length_app in Hlen. cbn [length] in Hlen.
  rewrite after_delete_small in HL' by lia.
  assert (Hcount : (count_elements L' =? 0) = false).
  { destruct HL' as (_ & _ & ->). rewrite length_app.
    rewrite wrap_int_id by (unfold in_int, INT_MIN, INT_MAX in *; lia).
    apply Z.eqb_neq. intros Hz. apply Hrest.
    apply length_zero_iff_nil. rewrite length_app. lia. }
  cbn [removeFromMultiValueHashTable]. unfold bind at 1, get_multi.
  rewrite Hm, HT. unfold bind at 1. rewrite Hfwd.
  unfold bind at 1. rewrite in_values_run.
  rewrite (searchByKeyInList_hit (e_val e) v (vals (under s)) VL ys1 c d ys2
             HVL Hys Hall Hd).
  rewrite Hcopy. unfold bind at 1. rewrite in_values_run, vals_touch.
  fold w1. rewrite Hgo. rewrite touch_touch.
  rewrite decide_False by done.
  unfold bind at 1. rewrite in_values_run, vals_touch.
  rewrite (getLengthList_spec _ _ L') by apply lookup_insert_eq.
  rewrite touch_touch. rewrite Hcount. by eexists.
Qed.

Lemma lookup_absent s cont k es :
  tinv eqK m t Mu T s cont -> 0 <= bucket_index hashK T k ->
  cont !! Z.to_nat (bucket_index hashK T k) = Some es ->
  Forall (fun e => matches eqK k e = false) es ->
  lookupInMultiValueHashTable (Some m) (Some k) s = Some (None, s).
Proof.
  intros (Hm & Hrep & _) Hidx Hes Hmiss.
  apply (multi_lookup_eq ev m t Mu T Hcb); [exact Hm|].
  exact (lookup_miss eqK hashK _ _ _ _ _ _ Hrep
           (pure_T eqK hashK ev t Mu T Hcb Hpure) Hidx Hes Hmiss).
Qed.

Lemma destroy_new_list_lists s1 cont vl (st0 st : status) s' :
  tinv eqK m t Mu T s1 cont ->
  (let* _ := in_values (destroyList (Some vl)) in ret st0) s1
  = Some (st, s') ->
  st = st0 /\ tinv eqK m t Mu T s' cont /\
  lists (vals (under s')) = delete vl (lists (vals (under s1))).
Proof.
  intros Htinv Hrun.
  apply bind_inv in Hrun as (r & s2 & Hdestroy & Hrun).
  apply in_values_inv in Hdestroy as (w' & Hdestroy & ->).
  apply destroyList_frame in Hdestroy. injection Hrun as <- <-.
  split; [reflexivity|]. split; [by apply tinv_touch|].
  by rewrite vals_touch.
Qed.

Lemma add_new_key s cont k v st s' :
  minv eqK ev m t Mu T s cont ->
  lookupInMultiValueHashTable (Some m) (Some k) s = Some (None, s) ->
  faithful (MultiValueHashTable.copyKey Mu) -> (forall a, eqK a a = true) ->
  addToMultiValueHashTable (Some m) (Some k) (Some v) s = Some (st, s') ->
  (st = success /\
   exists vl VL a x u',
     lists (vals (under s)) !! vl = None /\
     MultiValueHashTable.copyValue Mu (Some v) (world (vals (under s)))
     = Some (Some x, u') /\
     lookupInMultiValueHashTable (Some m) (Some k) s' = Some (Some vl, s') /\
     lists (vals (under s')) = <[vl := VL]> (lists (vals (under s))) /\
     list_rep VL [(a, Some x)]) \/
  ((st = failure \/ st = Memory_Problem) /\
   lookupInMultiValueHashTable (Some m) (Some k) s' = Some (None, s') /\
   lists (vals (under s')) = lists (vals (under s))).
Proof.
  intros Hinv Hlookup Hfaithful Hrefl Hrun.
  destruct (lookup_inv s cont k _ Hinv Hlookup)
    as (Hidx & es & Hes & [[_ Hmiss]|(es1 & e & es2 & _ & ? & _)]);
    [|discriminate].
  pose proof Hinv as [Htinv Hvals].
  pose proof Htinv as (Hm & Hrep & Huniq).
  pose proof Hcb as (HT & Hck & Hfk & Hcv & Hfv & Hek & Htn & Hev).
  pose proof (pure_T eqK hashK ev t Mu T Hcb Hpure) as HpureT.
  cbn [addToMultiValueHashTable] in Hrun.
  apply bind_inv in Hrun as (Mu' & s0 & Hget & Hrun).
  unfold get_multi in Hget. rewrite Hm in Hget. injection Hget as <- <-.
  rewrite HT in Hrun.
  apply bind_inv in Hrun as (r & s1 & Hlook & Hrun).
  apply in_table_inv in Hlook as (h1 & Hlook & ->).
  rewrite (lookup_miss eqK hashK _ _ _ _ _ _ Hrep HpureT Hidx Hes Hmiss)
    in Hlook.
  injection Hlook as <- <-. rewrite set_under_id in Hrun.
  apply bind_inv in Hrun as (vl' & s1 & Hcreate & Hrun).
  apply in_values_inv in Hcreate as (w1 & Hcreate & ->).
  rewrite createLinkedList_spec in Hcreate.
  destruct (malloc_outcome (mallocs (vals (under s)))) as [[|] rest];
    injection Hcreate as <- <-.
  2:{ injection Hrun as <- <-. right. split; [by left|]. split; [|done].
      by apply (lookup_absent _ cont k es); [apply tinv_touch|..]. }
  set (ls := lists (vals (under s))) in *. set (vl := fresh (dom ls)) in *.
  assert (Hfresh : ls !! vl = None).
  { apply not_elem_of_dom. apply is_fresh. }
  match type of Hrun with
  | context [<[vl := ?L]> ls] => set (VL0 := L) in *
  end.
  assert (Hback : forall VL, delete vl (<[vl := VL]> ls) = ls).
  { intros VL. rewrite delete_insert_eq. by apply delete_id. }
  assert (Hfail : forall u b (st0 : status),
            st0 = Memory_Problem ->
            (let* _ := in_values (destroyList (Some vl)) in ret st0)
              (touch (mkLstate (<[vl := VL0]> ls) u b) s) = Some (st, s') ->
            (st = failure \/ st = Memory_Problem) /\
            lookupInMultiValueHashTable (Some m) (Some k) s'
            = Some (None, s') /\
            lists (vals (under s')) = ls).
  { intros u b st0 -> Hrun'.
    destruct (destroy_new_list_lists _ cont vl Memory_Problem st s'
                (tinv_touch eqK m t Mu T _ s cont Htinv) Hrun')
      as (-> & Htinv' & Hlists).
    split; [by right|]. split; [by apply (lookup_absent _ cont k es)|].
    rewrite Hlists, vals_touch. apply Hback. }
  apply bind_inv in Hrun as (result & s2 & Happ & Hrun).
  apply in_values_inv in Happ as (w2 & Happ & ->).
  rewrite touch_touch in Hrun. rewrite vals_touch in Happ.
  match type of Happ with
  | appendNode _ _ ?w1 = _ =>
      pose proof (appendNode_spec vl v w1 VL0 [] (lookup_insert_eq _ _ _)
                    (list_rep_new _ _ _ _)) as Hspec
  end.
  cbn [mallocs world lists] in Hspec.
  destruct (malloc_outcome rest) as [[|] rest'].
  2:{ rewrite Hspec in Happ. injection Happ as <- <-.
      rewrite decide_True in Hrun by done. right. by eapply Hfail. }
  destruct (copyElement VL0 (Some v) (world (vals (under s))))
    as [[[d|] u']|] eqn:Hcopy; [| |congruence].
  2:{ rewrite Hspec in Happ. injection Happ as <- <-.
      rewrite decide_True in Hrun by done. right. by eapply Hfail. }
  destruct Hspec as (VL1 & HVL1 & _ & Hspec).
  rewrite Hspec in Happ. injection Happ as <- <-.
  rewrite !decide_False in Hrun by done.
  rewrite insert_insert_eq in Hrun.
  set (w2 := mkLstate (<[vl := VL1]> ls) u' rest') in *.
  apply bind_inv in Hrun as (addResult & s3 & Hadd & Hrun).
  apply in_table_inv in Hadd as (h3 & Hadd & ->).
  destruct (tinv_touch eqK m t Mu T w2 s cont Htinv) as (_ & Hrep2 & _).
  destruct (add_inv eqK hashK _ _ _ _ _ _ _ _ Hrep2 HpureT Hadd)
    as (_ & es' & Hes' & Hcases).
  rewrite Hes in Hes'. injection Hes' as <-.
  destruct Hcases
    as [(_ & _ & es1 & e & es2 & -> & _ & Hhit)
       |(_ & Hstep & Htabs & Harrs &
         [(-> & Hrep3)
         |(-> & e & wk & Hcopyk & Hcopyv & Hfreshp & Hrep3)])].
  - apply Forall_app in Hmiss as [_ Hmiss].
    apply Forall_cons in Hmiss as [Hmiss _]. congruence.
  - rewrite decide_True in Hrun by done. right.
    apply (callbacks_keep_lists ev t Mu T Hcb) in Hstep.
    destruct (destroy_new_list_lists (set_under h3 (touch w2 s)) cont vl
                Memory_Problem st s') as (-> & Htinv' & Hlists);
      [by split|exact Hrun|].
    split; [by right|]. split; [by apply (lookup_absent _ cont k es)|].
    rewrite Hlists. cbn [under set_under]. unfold vals at 1. rewrite Hstep.
    apply Hback.
  - rewrite !decide_False in Hrun by done. injection Hrun as <- <-.
    apply (callbacks_keep_lists ev t Mu T Hcb) in Hstep.
    rewrite Hcv in Hcopyv. injection Hcopyv as Hval _.
    rewrite Hck in Hcopyk. unfold key_copy, in_world in Hcopyk.
    destruct (MultiValueHashTable.copyKey Mu (Some k)
                (world (user (world (buckets (under (touch w2 s)))))))
      as [[kc u1]|] eqn:Hkc; [|discriminate].
    injection Hcopyk as -> _.
    apply Hfaithful in Hkc.
    left. split; [reflexivity|].
    exists vl, VL1, (fresh (dom (nodes VL0))), d, u'.
    split; [exact Hfresh|]. split; [exact Hcopy|]. split; [|split].
    + rewrite Hval.
      apply (in_table_lookup_hit _
               (<[Z.to_nat (bucket_index hashK T k) := es ++ [e]]> cont)
               k es e []).
      * split; [exact Hm|]. split; [exact Hrep3|]. intros Hf.
        apply keys_unique_insert; [exact (Huniq Hf)|].
        apply unique_keys_snoc; [by eapply (Huniq Hf)|]. by rewrite Hkc.
      * exact Hidx.
      * apply list_lookup_insert_eq. by eapply lookup_lt_Some.
      * exact Hmiss.
      * unfold matches. rewrite Hkc. apply Hrefl.
    + cbn [under set_under]. unfold vals at 1. by rewrite Hstep.
    + exact HVL1.
Qed.
End Reached.

(** X11. A table is created and any additions and removals are done on it
    (the equality and the number of a key depend on the key alone).  A value
    is then added to a key that the table holds, whose list of values is
    [ys].  When there is memory for the node and the copy function returns a
    copy, [addToMultiValueHashTable] returns [success].  Whatever it returns,
    a lookup of the key still returns the same list; on [success] the copy
    of the value has been appended at the end of this list, in a new node,
    and no other list has changed; otherwise the result is [Memory_Problem]
    and every list is as it was. *)
Theorem add_to_present_key_appends ck fk pk cv fv pv ek tn n s0 m s1 os rs s2
    k v vl VL ys :
  (forall a b u, ek (Some a) (Some b) u = Some (eqK a b)) ->
  (forall k u, tn (Some k) u = Some (hashK k)) ->
  createMultiValueHashTable (Some ck) (Some fk) (Some pk) (Some cv) (Some fv)
    (Some pv) (Some ek) (Some ev) (Some tn) n s0 = Some (Some m, s1) ->
  perform_all (Some m) os s1 = Some (rs, s2) ->
  lookupInMultiValueHashTable (Some m) (Some k) s2 = Some (Some vl, s2) ->
  lists (vals (under s2)) !! vl = Some VL -> list_rep VL ys ->
  (forall rest x u',
     malloc_outcome (mallocs (vals (under s2))) = (true, rest) ->
     copyElement VL (Some v) (world (vals (under s2))) = Some (Some x, u') ->
     exists s3,
       addToMultiValueHashTable (Some m) (Some k) (Some v) s2
       = Some (success, s3)) /\
  (forall st s3,
     addToMultiValueHashTable (Some m) (Some k) (Some v) s2 = Some (st, s3) ->
     lookupInMultiValueHashTable (Some m) (Some k) s3 = Some (Some vl, s3) /\
     ((st = success /\
       exists VL' x,
         copyElement VL (Some v) (world (vals (under s2)))
         = Some (Some x, world (vals (under s3))) /\
         lists (vals (under s3)) = <[vl := VL']> (lists (vals (under s2))) /\
         list_rep VL' (ys ++ [(fresh (dom (nodes VL)), Some x)])) \/
      (st = Memory_Problem /\
       lists (vals (under s3)) = lists (vals (under s2))))).
Proof.
  intros Hek Htn Hcreate Hrun Hlookup HVL Hys.
  destruct (createMultiValueHashTable_inv eqK ev _ _ _ _ _ _ _ _ _ _ _ _ Hcreate)
    as (t & T & Hcb & Hsize & Hinv1).
  assert (Hpure : pure_keys eqK hashK
                    (mkMulti (Some t) tn ck fk pk cv fv pv ek ev))
    by (by split).
  destruct (perform_all_step eqK hashK ev m t _ T Hcb Hpure os s1 _ rs s2
              Hinv1 Hrun) as [cont Hinv2].
  split.
  - intros rest x u'.
    by apply (add_to_present_key_succeeds m t _ T Hcb Hpure s2 cont k v vl VL
                ys).
  - intros st s3.
    by apply (add_to_present_key m t _ T Hcb Hpure s2 cont k v vl VL ys).
Qed.

(** X12. A table is created and any additions and removals are done on it
    (the equality and the number of a key depend on the key alone).  Then
    [removeFromMultiValueHashTable] returns [no_element] and changes nothing
    when the table does not hold the key, and also when it holds the key and
    no value of the key's list is equal to the given value. *)
Theorem remove_without_match_changes_nothing ck fk pk cv fv pv ek tn n s0 m s1
    os rs s2 k v :
  (forall a b u, ek (Some a) (Some b) u = Some (eqK a b)) ->
  (forall k u, tn (Some k) u = Some (hashK k)) ->
  createMultiValueHashTable (Some ck) (Some fk) (Some pk) (Some cv) (Some fv)
    (Some pv) (Some ek) (Some ev) (Some tn) n s0 = Some (Some m, s1) ->
  perform_all (Some m) os s1 = Some (rs, s2) ->
  (lookupInMultiValueHashTable (Some m) (Some k) s2 = Some (None, s2) ->
   removeFromMultiValueHashTable (Some m) (Some k) (Some v) s2
   = Some (no_element, s2)) /\
  (forall vl VL ys,
     lookupInMultiValueHashTable (Some m) (Some k) s2 = Some (Some vl, s2) ->
     lists (vals (under s2)) !! vl = Some VL -> list_rep VL ys ->
     Forall (fun y => equal VL y.2 (Some v) (world (vals (under s2)))
                      = Some false) ys ->
     removeFromMultiValueHashTable (Some m) (Some k) (Some v) s2
     = Some (no_element, s2)).
Proof.
  intros Hek Htn Hcreate Hrun.
  destruct (createMultiValueHashTable_inv eqK ev _ _ _ _ _ _ _ _ _ _ _ _ Hcreate)
    as (t & T & Hcb & Hsize & Hinv1).
  assert (Hpure : pure_keys eqK hashK
                    (mkMulti (Some t) tn ck fk pk cv fv pv ek ev))
    by (by split).
  destruct (perform_all_step eqK hashK ev m t _ T Hcb Hpure os s1 _ rs s2
              Hinv1 Hrun) as [cont Hinv2].
  exact (remove_without_match m t _ T Hcb Hpure s2 cont k v Hinv2).
Qed.

(** X13. A table is created and any additions and removals are done on it
    (the equality and the number of a key depend on the key alone, the
    equality of values does not depend on the memory).  A key has a list of
    at most INT_MAX values, of which [d] is the first one equal to [v], and
    it has another value besides.  When the copy function returns a copy of
    [d] and the free function is defined on [d],
    [removeFromMultiValueHashTable] returns [success].  Whatever it returns,
    either the result is [no_element], the copy function returned [NULL] and
    no list has changed, or the result is [success], a lookup of the key
    still returns the same list, [d] has been given to the free function and
    the list holds the other values, in the order they had. *)
Theorem remove_one_of_several_keeps_key ck fk pk cv fv pv ek tn n s0 m s1 os
    rs s2 k v vl VL ys1 c d ys2 :
  (forall a b u, ek (Some a) (Some b) u = Some (eqK a b)) ->
  (forall k u, tn (Some k) u = Some (hashK k)) ->
  (forall a b u u', ev a b u = ev a b u') ->
  createMultiValueHashTable (Some ck) (Some fk) (Some pk) (Some cv) (Some fv)
    (Some pv) (Some ek) (Some ev) (Some tn) n s0 = Some (Some m, s1) ->
  perform_all (Some m) os s1 = Some (rs, s2) ->
  lookupInMultiValueHashTable (Some m) (Some k) s2 = Some (Some vl, s2) ->
  lists (vals (under s2)) !! vl = Some VL ->
  list_rep VL (ys1 ++ (c, d) :: ys2) ->
  Z.of_nat (length (ys1 ++ (c, d) :: ys2)) <= INT_MAX ->
  ys1 ++ ys2 <> [] ->
  Forall (fun y => equal VL y.2 (Some v) (world (vals (under s2)))
                   = Some false) ys1 ->
  equal VL d (Some v) (world (vals (under s2))) = Some true ->
  (forall x u1 rf u2,
     copyElement VL d (world (vals (under s2))) = Some (Some x, u1) ->
     freeElement VL d u1 = Some (rf, u2) ->
     exists s3,
       removeFromMultiValueHashTable (Some m) (Some k) (Some v) s2
       = Some (success, s3)) /\
  (forall st s3,
     removeFromMultiValueHashTable (Some m) (Some k) (Some v) s2
     = Some (st, s3) ->
     (st = no_element /\
      copyElement VL d (world (vals (under s2)))
      = Some (None, world (vals (under s3))) /\
      lists (vals (under s3)) = lists (vals (under s2))) \/
     (st = success /\
      lookupInMultiValueHashTable (Some m) (Some k) s3 = Some (Some vl, s3) /\
      exists x u1 r VL',
        copyElement VL d (world (vals (under s2))) = Some (Some x, u1) /\
        freeElement VL d u1 = Some (r, world (vals (under s3))) /\
        lists (vals (under s3)) = <[vl := VL']> (lists (vals (under s2))) /\
        list_rep VL' (ys1 ++ ys2))).
Proof.
  intros Hek Htn Hpurev Hcreate Hrun Hlookup HVL Hys Hlen Hrest Hall Hd.
  destruct (createMultiValueHashTable_inv eqK ev _ _ _ _ _ _ _ _ _ _ _ _ Hcreate)
    as (t & T & Hcb & Hsize & Hinv1).
  assert (Hpure : pure_keys eqK hashK
                    (mkMulti (Some t) tn ck fk pk cv fv pv ek ev))
    by (by split).
  destruct (perform_all_step eqK hashK ev m t _ T Hcb Hpure os s1 _ rs s2
              Hinv1 Hrun) as [cont Hinv2].
  split.
  - intros x u1 rf u2.
    by apply (remove_one_of_several_succeeds m t _ T Hcb Hpure s2 cont k v vl
                VL ys1 c d ys2).
  - intros st s3.
    by apply (remove_one_of_several m t _ T Hcb Hpure s2 cont k v vl VL ys1 c
                d ys2).
Qed.

(** X14. A table is created and any additions and removals are done on it
    (the equality and the number of a key depend on the key alone, a key is
    equal to itself and the copy of a key is the key).  A value is then
    added to a key that the table does not hold.  When
    [addToMultiValueHashTable] returns [success], a lookup of the key
    returns a list that did not exist before and that holds one value, the
    copy of the given value, and no other list has changed.  Otherwise it
    returns [failure] or [Memory_Problem], the table still does not hold the
    key, and the lists are as they were: the list made for the key has been
    destroyed. *)
Theorem add_new_key_makes_list ck fk pk cv fv pv ek tn n s0 m s1 os rs s2 k v
    st s3 :
  (forall a b u, ek (Some a) (Some b) u = Some (eqK a b)) ->
  (forall k u, tn (Some k) u = Some (hashK k)) ->
  (forall a, eqK a a = true) -> faithful ck ->
  createMultiValueHashTable (Some ck) (Some fk) (Some pk) (Some cv) (Some fv)
    (Some pv) (Some ek) (Some ev) (Some tn) n s0 = Some (Some m, s1) ->
  perform_all (Some m) os s1 = Some (rs, s2) ->
  lookupInMultiValueHashTable (Some m) (Some k) s2 = Some (None, s2) ->
  addToMultiValueHashTable (Some m) (Some k) (Some v) s2 = Some (st, s3) ->
  (st = success /\
   exists vl VL a x u',
     lists (vals (under s2)) !! vl = None /\
     cv (Some v) (world (vals (under s2))) = Some (Some x, u') /\
     lookupInMultiValueHashTable (Some m) (Some k) s3 = Some (Some vl, s3) /\
     lists (vals (under s3)) = <[vl := VL]> (lists (vals (under s2))) /\
     list_rep VL [(a, Some x)]) \/
  ((st = failure \/ st = Memory_Problem) /\
   lookupInMultiValueHashTable (Some m) (Some k) s3 = Some (None, s3) /\
   lists (vals (under s3)) = lists (vals (under s2))).
Proof.
  intros Hek Htn Hrefl Hfaithful Hcreate Hrun Hlookup Hadd.
  destruct (createMultiValueHashTable_inv eqK ev _ _ _ _ _ _ _ _ _ _ _ _
              Hcreate) as (t & T & Hcb & Hsize & Hinv1).
  assert (Hpure : pure_keys eqK hashK
                    (mkMulti (Some t) tn ck fk pk cv fv pv ek ev))
    by (by split).
  destruct (perform_all_step eqK hashK ev m t _ T Hcb Hpure os s1 _ rs s2
              Hinv1 Hrun) as [cont Hinv2].
  exact (add_new_key m t _ T Hcb Hpure s2 cont k v st s3 Hinv2 Hlookup
           Hfaithful Hrefl Hadd).
Qed.
End Behaviour.

Import Examples.

Lemma multi_VL50_rep : list_rep multi_VL50 [(1%positive, Some 50%nat)].
Proof.
  split; [|split].
  - split; [reflexivity|]. exists None. by split.
  - apply NoDup_singleton.
  - reflexivity.
Defined.

Lemma multi_VL2_rep :
  list_rep multi_VL2 [(1%positive, Some 50%nat); (2%positive, Some 51%nat)].
Proof.
  split; [|split].
  - split; [reflexivity|]. exists (Some 2%positive). split; [reflexivity|].
    split; [reflexivity|]. exists None. by split.
  - apply NoDup_cons_2; [|apply NoDup_singleton].
    intros H. by apply list_elem_of_singleton in H.
  - reflexivity.
Defined.

Lemma multi_created :
  createMultiValueHashTable (Some copy_nat) (Some free_nat) (Some print_nat)
    (Some copy_nat) (Some free_nat) (Some print_nat) (Some equal_nat)
    (Some equal_nat) (Some number_nat) 13 multi_s0
  = Some (Some multi_m, multi_s1).
Proof. vm_compute. reflexivity. Defined.

Lemma multi_one_added :
  perform_all (Some multi_m) [Add (Some 5%nat) (Some 50%nat)] multi_s1
  = Some ([success], multi_s2).
Proof. vm_compute. reflexivity. Defined.

Lemma multi_two_added :
  perform_all (Some multi_m)
    [Add (Some 5%nat) (Some 50%nat); Add (Some 5%nat) (Some 51%nat)] multi_s1
  = Some ([success; success], multi_s3).
Proof. vm_compute. reflexivity. Defined.

Lemma add_to_present_key_appends_witness :
  (exists s3,
     addToMultiValueHashTable (Some multi_m) (Some 5%nat) (Some 51%nat)
       multi_s2 = Some (success, s3)) /\
  lookupInMultiValueHashTable (Some multi_m) (Some 5%nat) multi_s3
  = Some (Some multi_vl, multi_s3).
Proof.
  assert (Hlookup :
            lookupInMultiValueHashTable (Some multi_m) (Some 5%nat) multi_s2
            = Some (Some multi_vl, multi_s2))
    by (vm_compute; reflexivity).
  assert (HVL : lists (vals (under multi_s2)) !! multi_vl = Some multi_VL50)
    by (vm_compute; reflexivity).
  assert (Hadd :
            addToMultiValueHashTable (Some multi_m) (Some 5%nat)
              (Some 51%nat) multi_s2 = Some (success, multi_s3))
    by (vm_compute; reflexivity).
  destruct (add_to_present_key_appends Nat.eqb Z.of_nat equal_nat
              copy_nat free_nat print_nat copy_nat free_nat print_nat
              equal_nat number_nat 13 multi_s0 multi_m multi_s1 _ _ multi_s2
              5%nat 51%nat multi_vl multi_VL50 _
              (fun a b u => eq_refl) (fun k u => eq_refl)
              multi_created multi_one_added Hlookup HVL multi_VL50_rep)
    as [Hsucceeds Hany].
  split.
  - apply (Hsucceeds [] 51%nat 3); vm_compute; reflexivity.
  - exact (proj1 (Hany success multi_s3 Hadd)).
Defined.

Lemma remove_without_match_changes_nothing_witness :
  removeFromMultiValueHashTable (Some multi_m) (Some 7%nat) (Some 50%nat)
    multi_s2 = Some (no_element, multi_s2) /\
  removeFromMultiValueHashTable (Some multi_m) (Some 5%nat) (Some 99%nat)
    multi_s2 = Some (no_element, multi_s2).
Proof.
  assert (Hseven :
            lookupInMultiValueHashTable (Some multi_m) (Some 7%nat) multi_s2
            = Some (None, multi_s2))
    by (vm_compute; reflexivity).
  assert (Hfive :
            lookupInMultiValueHashTable (Some multi_m) (Some 5%nat) multi_s2
            = Some (Some multi_vl, multi_s2))
    by (vm_compute; reflexivity).
  assert (HVL : lists (vals (under multi_s2)) !! multi_vl = Some multi_VL50)
    by (vm_compute; reflexivity).
  split.
  - exact (proj1 (remove_without_match_changes_nothing Nat.eqb Z.of_nat
                    equal_nat copy_nat free_nat print_nat copy_nat free_nat
                    print_nat equal_nat number_nat 13 multi_s0 multi_m
                    multi_s1 _ _ multi_s2 7%nat 50%nat
                    (fun a b u => eq_refl) (fun k u => eq_refl)
                    multi_created multi_one_added) Hseven).
  - apply (proj2 (remove_without_match_changes_nothing Nat.eqb Z.of_nat
                    equal_nat copy_nat free_nat print_nat copy_nat free_nat
                    print_nat equal_nat number_nat 13 multi_s0 multi_m
                    multi_s1 _ _ multi_s2 5%nat 99%nat
                    (fun a b u => eq_refl) (fun k u => eq_refl)
                    multi_created multi_one_added)
             multi_vl multi_VL50 _ Hfive HVL multi_VL50_rep).
    constructor; [reflexivity|constructor].
Defined.

Lemma remove_one_of_several_keeps_key_witness :
  (exists s3,
     removeFromMultiValueHashTable (Some multi_m) (Some 5%nat) (Some 51%nat)
       multi_s3 = Some (success, s3)) /\
  lookupInMultiValueHashTable (Some multi_m) (Some 5%nat) multi_s4b
  = Some (Some multi_vl, multi_s4b).
Proof.
  assert (Hlookup :
            lookupInMultiValueHashTable (Some multi_m) (Some 5%nat) multi_s3
            = Some (Some multi_vl, multi_s3))
    by (vm_compute; reflexivity).
  assert (HVL : lists (vals (under multi_s3)) !! multi_vl = Some multi_VL2)
    by (vm_compute; reflexivity).
  assert (Hremove :
            removeFromMultiValueHashTable (Some multi_m) (Some 5%nat)
              (Some 51%nat) multi_s3 = Some (success, multi_s4b))
    by (vm_compute; reflexivity).
  assert (Hlen : Z.of_nat (length ([(1%positive, Some 50%nat)]
                                   ++ [(2%positive, Some 51%nat)]))
                 <= INT_MAX)
    by (vm_compute; discriminate).
  assert (Hother : [(1%positive, Some 50%nat)] ++ [] <> [])
    by discriminate.
  assert (Hfirst : Forall (fun y => equal multi_VL2 y.2 (Some 51%nat)
                                      (world (vals (under multi_s3)))
                                    = Some false)
                     [(1%positive, Some 50%nat)])
    by (constructor; [reflexivity|constructor]).
  destruct (remove_one_of_several_keeps_key Nat.eqb Z.of_nat equal_nat
              copy_nat free_nat print_nat copy_nat free_nat print_nat
              equal_nat number_nat 13 multi_s0 multi_m multi_s1 _ _ multi_s3
              5%nat 51%nat multi_vl multi_VL2 [(1%positive, Some 50%nat)]
              2%positive (Some 51%nat) []
              (fun a b u => eq_refl) (fun k u => eq_refl)
              (fun a b u u' => eq_refl)
              multi_created multi_two_added Hlookup HVL multi_VL2_rep Hlen
              Hother Hfirst eq_refl)
    as [Hsucceeds Hany].
  split.
  - apply (Hsucceeds 51%nat 4 success 3); vm_compute; reflexivity.
  - destruct (Hany success multi_s4b Hremove)
      as [[Hno _]|(_ & Hkept & _)]; [discriminate|exact Hkept].
Defined.

Lemma add_new_key_makes_list_witness :
  exists vl VL a x,
    lookupInMultiValueHashTable (Some multi_m) (Some 18%nat) multi_s3c
    = Some (Some vl, multi_s3c) /\
    lists (vals (under multi_s3c)) !! vl = Some VL /\
    list_rep VL [(a, Some x)].
Proof.
  assert (Hlookup :
            lookupInMultiValueHashTable (Some multi_m) (Some 18%nat) multi_s2
            = Some (None, multi_s2))
    by (vm_compute; reflexivity).
  assert (Hadd :
            addToMultiValueHashTable (Some multi_m) (Some 18%nat)
              (Some 180%nat) multi_s2 = Some (success, multi_s3c))
    by (vm_compute; reflexivity).
  destruct (add_new_key_makes_list Nat.eqb Z.of_nat equal_nat
              copy_nat free_nat print_nat copy_nat free_nat print_nat
              equal_nat number_nat 13 multi_s0 multi_m multi_s1 _ _ multi_s2
              18%nat 180%nat success multi_s3c
              (fun a b u => eq_refl) (fun k u => eq_refl)
              Nat.eqb_refl copy_nat_faithful
              multi_created multi_one_added Hlookup Hadd)
    as [(_ & vl & VL & a & x & u' & _ & _ & Hfound & Hlists & Hrep)
       |([Hst|Hst] & _)]; [|discriminate..].
  exists vl, VL, a, x. split; [exact Hfound|]. split; [|exact Hrep].
  rewrite Hlists. apply lookup_insert_eq.
Defined.
End MultiValueBehaviour.

(** ** Keys that are strings *)

Module StringKeysBehaviour.
Import LinkedList KeyValuePair HashTable StringKeys.
Import HashTableFacts.

(** The sum of the characters of a string, as [int]s. *)
Definition code_sum (char_is_signed : bool) (str : list Ascii.ascii) : Z :=
  foldr (fun c acc => char_to_int char_is_signed c + acc) 0 str.

Lemma code_bounds c : 0 <= code c < 256.
Proof.
  unfold code. pose proof (Ascii.N_ascii_bounded c). lia.
Qed.

Lemma code_inj c1 c2 : code c1 = code c2 -> c1 = c2.
Proof.
  unfold code. intros H. apply N2Z.inj in H.
  rewrite <- (Ascii.ascii_N_embedding c1), <- (Ascii.ascii_N_embedding c2).
  by rewrite H.
Qed.

Lemma strlen_strcpy str : strlen str = Z.of_nat (length (strcpy str)).
Proof.
  induction str as [|c rest IH]; [reflexivity|]. cbn [strlen strcpy].
  destruct (code c =? 0); [reflexivity|]. cbn [length]. lia.
Qed.

Lemma strcpy_lookup str (j : nat) :
  (j < length (strcpy str))%nat -> str !! j = strcpy str !! j.
Proof.
  revert j. induction str as [|c rest IH]; intros j Hj; [reflexivity|].
  cbn [strcpy] in Hj |- *. destruct (code c =? 0); [cbn in Hj; lia|].
  destruct j as [|j]; [reflexivity|]. cbn in Hj |- *. apply IH. lia.
Qed.

Lemma strcpy_no_zero str : Forall (fun c => code c <> 0) (strcpy str).
Proof.
  induction str as [|c rest IH]; [constructor|]. cbn [strcpy].
  destruct (Z.eqb_spec (code c) 0); [constructor|by constructor].
Qed.

Lemma strcpy_id str : Forall (fun c => code c <> 0) str -> strcpy str = str.
Proof.
  induction 1 as [|c rest Hc _ IH]; [reflexivity|]. cbn [strcpy].
  destruct (Z.eqb_spec (code c) 0); [done|by rewrite IH].
Qed.

Lemma strcmp_zero s1 s2 : strcmp s1 s2 = 0 <-> strcpy s1 = strcpy s2.
Proof.
  revert s2. induction s1 as [|c1 r1 IH]; intros [|c2 r2]; cbn [strcmp strcpy].
  - done.
  - pose proof (code_bounds c2).
    destruct (Z.eqb_spec (code c2) 0); split; (done || lia).
  - pose proof (code_bounds c1).
    destruct (Z.eqb_spec (code c1) 0); split; (done || lia).
  - destruct (Z.eqb_spec (code c1) (code c2)) as [Heq|Hne].
    + rewrite <- Heq. apply code_inj in Heq as <-.
      destruct (Z.eqb_spec (code c1) 0); [done|].
      rewrite IH. split; [by intros ->|by intros [= ->]].
    + split; [lia|].
      destruct (Z.eqb_spec (code c1) 0), (Z.eqb_spec (code c2) 0);
        try done; [lia|].
      intros [= -> _]. done.
Qed.

Lemma char_to_int_bounds b c : -128 <= char_to_int b c < 256.
Proof.
  unfold char_to_int. pose proof (code_bounds c).
  destruct b; cbn [andb]; [|lia].
  destruct (Z.leb_spec 128 (code c)); lia.
Qed.

Lemma code_sum_bounds b str :
  -128 * Z.of_nat (length str) <= code_sum b str
  <= 255 * Z.of_nat (length str).
Proof.
  induction str as [|c rest IH]; [cbn; lia|].
  cbn [code_sum foldr length] in *. fold (code_sum b rest) in *.
  pose proof (char_to_int_bounds b c). lia.
Qed.


Lemma code_sum_negative str :
  str <> [] -> Forall (fun c => 128 <= code c) str -> code_sum true str < 0.
Proof.
  intros Hne Hall.
  assert (Hle : code_sum true str <= - Z.of_nat (length str)).
  { clear Hne. induction Hall as [|c rest Hc _ IH]; [done|].
    cbn [code_sum foldr length]. fold (code_sum true rest).
    unfold char_to_int. pose proof (code_bounds c).
    destruct (Z.leb_spec 128 (code c)); [|lia]. cbn [andb]. lia. }
  destruct str; [done|]. cbn [length] in Hle. lia.
Qed.


(** The loop from the character [j] on. *)
Lemma transStrToInt_for_spec b str fuel (j : nat) acc :
  strlen str <= INT_MAX -> in_int acc ->
  Z.of_nat j <= strlen str -> strlen str - Z.of_nat j < Z.of_nat fuel ->
  transStrToInt_for b fuel str (Z.of_nat j) acc
  = Some (wrap_int (acc + code_sum b (drop j (strcpy str)))).
Proof.
  intros Hlen. revert j acc.
  induction fuel as [|fuel IH]; intros j acc Hacc Hj Hfuel; [lia|].
  assert (Hsize : to_size_t (Z.of_nat j) = Z.of_nat j).
  { unfold to_size_t. apply Z.mod_small. unfold INT_MAX in Hlen. lia. }
  cbn [transStrToInt_for]. rewrite Hsize.
  destruct (Z.ltb_spec (Z.of_nat j) (strlen str)) as [Hlt|Hge].
  - replace (0 <=? Z.of_nat j) with true by (symmetry; apply Z.leb_le; lia).
    rewrite Nat2Z.id.
    assert (Hjn : (j < length (strcpy str))%nat)
      by (rewrite strlen_strcpy in Hlt; lia).
    rewrite (strcpy_lookup str j Hjn).
    destruct (lookup_lt_is_Some_2 _ _ Hjn) as [c Hc]. rewrite Hc.
    rewrite (wrap_int_id (Z.of_nat j + 1))
      by (unfold in_int, INT_MIN, INT_MAX in *; lia).
    replace (Z.of_nat j + 1) with (Z.of_nat (S j)) by lia.
    rewrite IH; [| |lia|lia].
    + rewrite wrap_int_add_l, (drop_S _ _ _ Hc). cbn [code_sum foldr].
      by rewrite Z.add_assoc.
    + unfold wrap_int, in_int, INT_MIN, INT_MAX.
      pose proof (Z.mod_pos_bound (acc + char_to_int b c + 2 ^ 31) (2 ^ 32)).
      lia.
  - rewrite drop_ge by (rewrite strlen_strcpy in Hj, Hge; lia).
    cbn [code_sum foldr]. rewrite Z.add_0_r. by rewrite wrap_int_id.
Qed.

Lemma transStrToInt_spec {W} b str (w : W) :
  strlen str <= INT_MAX ->
  transStrToInt b (Some str) w = Some (wrap_int (code_sum b (strcpy str))).
Proof.
  intros Hlen. cbn [transStrToInt].
  pose proof (strlen_strcpy str) as Hnonneg.
  rewrite (transStrToInt_for_spec b str _ 0 0 Hlen).
  - by rewrite drop_0.
  - unfold in_int, INT_MIN, INT_MAX. lia.
  - lia.
  - lia.
Qed.

Lemma transStrToInt_small {W} b str (w : W) :
  strlen str <= 2 ^ 23 ->
  transStrToInt b (Some str) w = Some (code_sum b (strcpy str)).
Proof.
  intros Hlen. rewrite transStrToInt_spec by (unfold INT_MAX; lia).
  rewrite wrap_int_id; [reflexivity|].
  pose proof (code_sum_bounds b (strcpy str)) as Hsum.
  rewrite <- strlen_strcpy in Hsum.
  unfold in_int, INT_MIN, INT_MAX. lia.
Qed.

(** Two strings are equal for [EqualKeyString] when [strcmp] returns 0. *)
Definition string_eq (a b : list Ascii.ascii) : bool := strcmp a b =? 0.

Lemma string_eq_strcpy a b : string_eq a b = true <-> strcpy a = strcpy b.
Proof.
  unfold string_eq. rewrite <- strcmp_zero. apply Z.eqb_eq.
Qed.

Lemma strcpy_strcpy str : strcpy (strcpy str) = strcpy str.
Proof. apply strcpy_id, strcpy_no_zero. Qed.

Lemma wrap_int_in_int z : in_int (wrap_int z).
Proof.
  unfold wrap_int, in_int, INT_MIN, INT_MAX.
  pose proof (Z.mod_pos_bound (z + 2 ^ 31) (2 ^ 32)). lia.
Qed.

(** The loop reads the characters before the first zero only. *)
Lemma transStrToInt_for_ext b fuel a a' i acc :
  strcpy a = strcpy a' -> in_int i ->
  transStrToInt_for b fuel a i acc = transStrToInt_for b fuel a' i acc.
Proof.
  intros Heq. revert i acc.
  assert (Hlen : strlen a = strlen a') by (by rewrite !strlen_strcpy, Heq).
  induction fuel as [|fuel IH]; intros i acc Hi; [reflexivity|].
  cbn [transStrToInt_for]. rewrite <- Hlen.
  destruct (Z.ltb_spec (to_size_t i) (strlen a)) as [Hlt|]; [|reflexivity].
  destruct (Z.leb_spec 0 i) as [Hpos|]; [|reflexivity].
  assert (Hsize : to_size_t i = i).
  { unfold to_size_t. apply Z.mod_small.
    unfold in_int, INT_MAX in Hi. lia. }
  rewrite Hsize in Hlt.
  rewrite (strcpy_lookup a (Z.to_nat i))
    by (rewrite strlen_strcpy in Hlt; lia).
  rewrite (strcpy_lookup a' (Z.to_nat i))
    by (rewrite strlen_strcpy, Heq in Hlt; lia).
  rewrite Heq. destruct (strcpy a' !! Z.to_nat i); [|reflexivity].
  apply IH, wrap_int_in_int.
Qed.


(** X16. When [char] has a sign, a string of at most 2^23 characters that
    are all 128 or more (and at least one) is given a negative number by
    [transStrToInt].  In a table that uses it as its hash and has
    [tableSize >= 1] buckets, unless [tableSize] divides that number, the
    bucket index is negative and [addToHashTable], [lookupInHashTable] and
    [removeFromHashTable] of this key are undefined: they read before the
    array of buckets. *)
Theorem transStrToInt_negative_for_signed_char {V W} str
    (s : htstate (list Ascii.ascii) V W) t T :
  strlen str <= 2 ^ 23 -> strcpy str <> [] ->
  Forall (fun c => 128 <= code c) (strcpy str) ->
  exists h,
    (forall U (u : U), transStrToInt true (Some str) u = Some h) /\
    h < 0 /\
    (tables s !! t = Some T ->
     transIntoNumber T = transStrToInt true ->
     1 <= tableSize T -> Z.rem h (tableSize T) <> 0 ->
     (forall v, addToHashTable (Some t) (Some str) (Some v) s = None) /\
     lookupInHashTable (Some t) (Some str) s = None /\
     removeFromHashTable (Some t) (Some str) s = None).
Proof.
  intros Hsmall Hne Hall. exists (code_sum true (strcpy str)).
  split; [intros U u; by apply transStrToInt_small|].
  pose proof (code_sum_negative _ Hne Hall) as Hneg.
  split; [exact Hneg|].
  intros Ht Htn Hsize Hrem.
  assert (Hbad : tableSize T = 0
                 \/ Z.rem (code_sum true (strcpy str)) (tableSize T) < 0).
  { right.
    pose proof (Z.rem_nonpos (code_sum true (strcpy str)) (tableSize T)).
    lia. }
  assert (Hh : transIntoNumber T (Some str) (user (world (buckets s)))
               = Some (code_sum true (strcpy str))).
  { rewrite Htn. by apply transStrToInt_small. }
  split; [intros v|split];
    eapply bucket_index_undefined; eassumption.
Qed.

(** X17. The equality of strings that [EqualKeyString] tests is an
    equivalence, equal strings are given the same number by
    [transStrToInt], and [CopyKeyString] always returns: either [NULL],
    when [malloc] fails (or the string is too long for an object), or a
    string that is equal to the one copied, and is that very list of
    characters when no character of it is zero. *)
Theorem string_keys_equality_and_copy :
  (forall W a b (w : W),
     EqualKeyString (Some a) (Some b) w = Some (string_eq a b)) /\
  eqK_equivalence string_eq /\
  (forall char_is_signed W a b (w : W),
     string_eq a b = true ->
     transStrToInt char_is_signed (Some a) w
     = transStrToInt char_is_signed (Some b) w) /\
  (forall str schedule,
     exists r rest,
       CopyKeyString (Some str) schedule = Some (r, rest) /\
       rest = snd (malloc_outcome schedule) /\
       match r with
       | Some copy =>
           string_eq copy str = true /\
           (Forall (fun c => code c <> 0) str -> copy = str)
       | None =>
           fst (malloc_outcome schedule) = false \/
           PTRDIFF_MAX <= strlen str
       end).
Proof.
  split; [reflexivity|]. split; [|split].
  - split; [|split].
    + intros a. by apply string_eq_strcpy.
    + intros a b. apply eq_true_iff_eq.
      rewrite !string_eq_strcpy. by split.
    + intros a b c. rewrite !string_eq_strcpy. congruence.
  - intros b W a a' w Heq. apply string_eq_strcpy in Heq.
    cbn [transStrToInt].
    replace (strlen a') with (strlen a) by (by rewrite !strlen_strcpy, Heq).
    apply transStrToInt_for_ext; [exact Heq|].
    unfold in_int, INT_MIN, INT_MAX. lia.
  - intros str schedule. cbn [CopyKeyString].
    destruct (malloc_outcome schedule) as [ok rest]. cbn [fst snd].
    pose proof (strlen_strcpy str) as Hlen.
    destruct ok; cbn [andb].
    + destruct (Z.leb_spec (to_size_t ((strlen str + 1) * 1)) PTRDIFF_MAX)
        as [Hfits|Hlarge].
      * exists (Some (strcpy str)), rest. split; [reflexivity|].
        split; [reflexivity|]. split; [|apply strcpy_id].
        apply string_eq_strcpy, strcpy_strcpy.
      * exists None, rest. split; [reflexivity|]. split; [reflexivity|].
        right. unfold to_size_t, PTRDIFF_MAX in *.
        destruct (Z.lt_ge_cases (strlen str) (2 ^ 63 - 1)); [|lia].
        rewrite Z.mod_small in Hlarge; lia.
    + exists None, rest. split; [reflexivity|]. split; [reflexivity|].
      by left.
Qed.

Import Examples.


Lemma strings_s1_table : tables strings_s1 !! strings_t = Some strings_T.
Proof. reflexivity. Defined.

Lemma transStrToInt_negative_for_signed_char_witness :
  transStrToInt true (Some string_high) 0 = Some (-148) /\
  lookupInHashTable (Some strings_t) (Some string_high) strings_s1 = None.
Proof.
  assert (Hsmall : strlen string_high <= 2 ^ 23) by (vm_compute; discriminate).
  assert (Hne : strcpy string_high <> []) by discriminate.
  assert (Hall : Forall (fun c => 128 <= code c) (strcpy string_high)).
  { change (strcpy string_high)
      with (Ascii.ascii_of_nat <$> [195; 169]%nat).
    repeat constructor; vm_compute; discriminate. }
  destruct (transStrToInt_negative_for_signed_char (V := nat) string_high
              strings_s1 strings_t strings_T Hsmall Hne Hall)
    as (h & Hh & Hneg & Hundefined).
  assert (Hvalue : h = -148).
  { pose proof (Hh Z 0) as Hrun. vm_compute in Hrun. congruence. }
  split; [rewrite Hh; by rewrite Hvalue|].
  assert (Hsize : 1 <= tableSize strings_T) by (vm_compute; discriminate).
  assert (Hrem : Z.rem h (tableSize strings_T) <> 0)
    by (rewrite Hvalue; vm_compute; discriminate).
  exact (proj1 (proj2 (Hundefined strings_s1_table eq_refl Hsize Hrem))).
Defined.

Lemma string_keys_equality_and_copy_witness :
  string_eq string_cat (Ascii.ascii_of_nat <$> [99; 97; 116]%nat) = true /\
  transStrToInt true (Some string_cat) 0
  = transStrToInt true (Some (Ascii.ascii_of_nat <$> [99; 97; 116]%nat)) 0 /\
  exists r rest, CopyKeyString (Some string_act) [] = Some (r, rest).
Proof.
  assert (Heq : string_eq string_cat
                  (Ascii.ascii_of_nat <$> [99; 97; 116]%nat) = true)
    by (vm_compute; reflexivity).
  destruct string_keys_equality_and_copy as (_ & _ & Hnumber & Hcopy).
  split; [exact Heq|]. split; [exact (Hnumber true Z _ _ 0 Heq)|].
  destruct (Hcopy string_act []) as (r & rest & Hrun & _).
  by exists r, rest.
Defined.
End StringKeysBehaviour.

(** ** The end of a table *)

Module HashTableDestruction.
Import LinkedList KeyValuePair HashTable LinkedListFacts HashTableFacts.
Import LinkedListBehaviour.

Section Destruction.
Context {K V W : Type}.
Implicit Types (s : htstate K V W) (T : hashTable_s K V W).
Implicit Types (es : list (@entry K V)) (cont : list (list (@entry K V))).
Implicit Types (kv : kvstate K V W) (bs : lstate loc K (kvstate K V W)).

(** The key and then the value of an entry are given to the free
    functions of the table; [free_entries] does so for one entry after the
    other. *)
Definition free_entry T (e : @entry K V) (w : W) : option W :=
  match HashTable.freeKey T (Some (e_key e)) w with
  | Some (_, w1) =>
      match HashTable.freeValue T (Some (e_val e)) w1 with
      | Some (_, w2) => Some w2
      | None => None
      end
  | None => None
  end.

Fixpoint free_entries T es (w : W) : option W :=
  match es with
  | [] => Some w
  | e :: es' =>
      match free_entry T e w with
      | Some w' => free_entries T es' w'
      | None => None
      end
  end.

(** The heap once the objects at [ps] are freed, one after the other. *)
Definition delete_all {A} (ps : list loc) (m : gmap loc A) : gmap loc A :=
  foldl (fun m p => delete p m) m ps.

Lemma delete_all_lookup {A} (ps : list loc) (m : gmap loc A) p :
  delete_all ps m !! p = if decide (p ∈ ps) then None else m !! p.
Proof.
  revert m. induction ps as [|q ps IH]; intros m; cbn [delete_all foldl].
  - by rewrite decide_False by apply not_elem_of_nil.
  - fold (delete_all ps (delete q m)). rewrite IH.
    destruct (decide (p ∈ ps)) as [Hin|Hout].
    + rewrite decide_True; [done|by right].
    + destruct (decide (p = q)) as [->|Hne].
      * rewrite decide_True by left. apply lookup_delete_eq.
      * rewrite decide_False; [by apply lookup_delete_ne|].
        intros Hin. apply elem_of_cons in Hin as [?|?]; done.
Qed.

Lemma delete_all_app {A} (ps qs : list loc) (m : gmap loc A) :
  delete_all (ps ++ qs) m = delete_all qs (delete_all ps m).
Proof. apply foldl_app. Qed.

Lemma free_entries_app T es es' w :
  free_entries T (es ++ es') w
  = match free_entries T es w with
    | Some w' => free_entries T es' w'
    | None => None
    end.
Proof.
  revert w. induction es as [|e es IH]; intros w; [reflexivity|].
  cbn [app free_entries]. by destruct (free_entry T e w).
Qed.

(** One pair of the table is destroyed. *)
Lemma destroyKeyValuePairhash_entry T e kv :
  pairs kv !! e_pair e = Some (the_pair T e) ->
  destroyKeyValuePairhash (Some (e_pair e)) kv
  = match free_entry T e (user kv) with
    | Some w' =>
        Some (success,
              mkKvstate (delete (e_pair e) (pairs kv)) w' (kv_mallocs kv))
    | None => None
    end.
Proof.
  intros Hp. unfold destroyKeyValuePairhash, destroyKeyValuePair, free_entry.
  unfold bind, get_pair, in_user, ret. rewrite Hp. cbn.
  destruct (HashTable.freeKey T (Some (e_key e)) (user kv)) as [[r1 w1]|];
    [|reflexivity].
  cbn. by destruct (HashTable.freeValue T (Some (e_val e)) w1) as [[r2 w2]|].
Qed.

(** The pairs of a bucket are destroyed, from the head of its list on. *)
Lemma destroy_entries T es kv :
  NoDup (e_pair <$> es) ->
  Forall (fun e => pairs kv !! e_pair e = Some (the_pair T e)) es ->
  call_all destroyKeyValuePairhash (as_nodes es).*2 kv
  = match free_entries T es (user kv) with
    | Some w' =>
        Some (mkKvstate (delete_all (e_pair <$> es) (pairs kv)) w'
                        (kv_mallocs kv))
    | None => None
    end.
Proof.
  revert kv. induction es as [|e es IH]; intros kv Hnd Hall.
  - by destruct kv.
  - rewrite fmap_cons in Hnd. apply NoDup_cons in Hnd as [Hnotin Hnd].
    apply Forall_cons in Hall as [He Hall].
    unfold as_nodes. rewrite !fmap_cons. cbn [snd call_all free_entries].
    rewrite (destroyKeyValuePairhash_entry T e kv He).
    destruct (free_entry T e (user kv)) as [w'|]; [|reflexivity].
    fold (as_nodes es). rewrite IH; [reflexivity|exact Hnd|].
    cbn [pairs]. rewrite Forall_forall in Hall |- *. intros e' He'.
    rewrite lookup_delete_ne; [by apply Hall|].
    intros Heq. apply Hnotin. rewrite Heq. by apply list_elem_of_fmap_2.
Qed.

(** The list of a bucket is destroyed with the pairs that it holds. *)
Lemma destroy_bucket T bs bl es :
  bucket_rep T bs (Some bl) es -> NoDup (e_pair <$> es) ->
  destroyList (Some bl) bs
  = match free_entries T es (user (world bs)) with
    | Some w' =>
        Some (success,
              mkLstate (delete bl (lists bs))
                (mkKvstate (delete_all (e_pair <$> es) (pairs (world bs))) w'
                           (kv_mallocs (world bs)))
                (mallocs bs))
    | None => None
    end.
Proof.
  intros (bl' & L & [= <-] & Hbl & Hrep & (_ & Hfree & _) & Hpairs) Hnd.
  pose proof Hrep as (Hseg & HndL & _).
  pose proof (destroyList_while_spec (size (nodes L)) L (world bs)
                (mallocs bs) (as_nodes es) None (head L) (tail L) Hseg HndL
                (list_rep_length_le_size _ _ Hrep)) as Hwhile.
  rewrite Hfree, (destroy_entries T es (world bs) Hnd Hpairs) in Hwhile.
  unfold destroyList, with_list. unfold bind at 1. rewrite Hbl. run.
  destruct (free_entries T es (user (world bs))) as [w'|].
  - destruct Hwhile as (ns' & ->). run. by rewrite delete_insert_eq.
  - by rewrite Hwhile.
Qed.

Lemma elem_of_concat {A} (x : A) (ls : list (list A)) :
  x ∈ concat ls <-> exists l, x ∈ l /\ l ∈ ls.
Proof.
  induction ls as [|l ls IH]; cbn [concat].
  - split; [by intros ?%elem_of_nil|by intros (l & _ & ?%elem_of_nil)].
  - rewrite elem_of_app, IH. split.
    + intros [Hx|(l' & Hx & Hl')]; [exists l; split; [done|left]|].
      exists l'. split; [done|by right].
    + intros (l' & Hx & Hl'). apply elem_of_cons in Hl' as [->|Hl'];
        [by left|right; by exists l'].
Qed.

(** No pair is held twice: the pairs of the buckets, one bucket after the
    other, are all different. *)
Lemma pairs_distinct_NoDup cont :
  pairs_distinct cont -> NoDup (e_pair <$> concat cont).
Proof.
  induction cont as [|es cont IH]; intros [Heach Hacross]; [constructor|].
  cbn [concat]. rewrite fmap_app. apply NoDup_app. split; [|split].
  - exact (Heach 0%nat es eq_refl).
  - intros p Hp Hp'.
    apply list_elem_of_fmap in Hp as (e & -> & He).
    apply list_elem_of_fmap in Hp' as (e' & Heq & He').
    apply elem_of_concat in He' as (es' & He' & Hes').
    apply list_elem_of_lookup in Hes' as [j Hj].
    by specialize (Hacross 0%nat (S j) es es' e e' eq_refl Hj He He' Heq).
  - apply IH. split.
    + intros i es' Hi. exact (Heach (S i) es' Hi).
    + intros i j es1 es2 e e' Hi Hj He He' Heq.
      by specialize (Hacross (S i) (S j) es1 es2 e e' Hi Hj He He' Heq)
        as [= ->].
Qed.

(** The bucket lists that an array refers to. *)
Definition bucket_lists (cells : list LinkedList) : list loc :=
  omap id cells.

(** [for (int i = 0; i < HashTable->tableSize; i++)] of
    [destroyHashTable], from the bucket [length done] on. *)
Lemma destroyHashTable_for_spec T al cells cont (done : list LinkedList) s :
  arrays s !! al = Some (done ++ cells) ->
  Forall2 (bucket_rep T (buckets s)) cells cont ->
  NoDup cells -> NoDup (e_pair <$> concat cont) ->
  destroyHashTable_for (length cells) (Some al) (Z.of_nat (length done)) s
  = match free_entries T (concat cont) (user (world (buckets s))) with
    | Some w' =>
        Some (tt,
              mkHtstate (tables s) (arrays s) (ht_mallocs s)
                (mkLstate
                   (delete_all (bucket_lists cells) (lists (buckets s)))
                   (mkKvstate
                      (delete_all (e_pair <$> concat cont)
                                  (pairs (world (buckets s))))
                      w' (kv_mallocs (world (buckets s))))
                   (mallocs (buckets s))))
    | None => None
    end.
Proof.
  intros Harr Hall. revert done s Harr Hall.
  revert cont. induction cells as [|cell cells IH];
    intros cont done s Harr Hall Hnd Hpairs.
  - apply Forall2_nil_inv_l in Hall as ->.
    cbn. by destruct s as [? ? ? [? [? ? ?] ?]].
  - apply Forall2_cons_inv_l in Hall as (es & cont' & Hcell & Hall & ->).
    apply NoDup_cons in Hnd as [Hnotin Hnd].
    cbn [concat] in Hpairs |- *. rewrite fmap_app in Hpairs |- *.
    apply NoDup_app in Hpairs as (Hes & Hdisjoint & Hrest).
    pose proof Hcell as (bl & L & -> & Hbl & _).
    cbn [length destroyHashTable_for]. unfold bind at 1, array_read.
    rewrite Harr.
    replace ((0 <=? Z.of_nat (length done))
             && (Z.of_nat (length done)
                 <? Z.of_nat (length (done ++ Some bl :: cells))))
      with true
      by (symmetry; apply andb_true_iff; rewrite length_app; cbn [length];
          split; [apply Z.leb_le|apply Z.ltb_lt]; lia).
    rewrite Nat2Z.id, list_lookup_middle by reflexivity.
    unfold bind at 1, in_buckets.
    rewrite (destroy_bucket T (buckets s) bl es Hcell Hes).
    rewrite free_entries_app.
    destruct (free_entries T es (user (world (buckets s)))) as [w1|];
      [|reflexivity].
    replace (Z.of_nat (length done) + 1)
      with (Z.of_nat (length (done ++ [Some bl])))
      by (rewrite length_app; cbn [length]; lia).
    rewrite (IH cont' (done ++ [Some bl])).
    + cbn [tables arrays ht_mallocs buckets lists world mallocs pairs user
           kv_mallocs].
      destruct (free_entries T (concat cont') w1) as [w2|]; [|reflexivity].
      by rewrite delete_all_app.
    + cbn [arrays]. by rewrite <- app_assoc.
    + cbn [buckets]. apply Forall2_same_length_lookup.
      apply Forall2_same_length_lookup in Hall as [Hlen Hall].
      split; [exact Hlen|]. intros i cell' es' Hi Hi'.
      eapply bucket_rep_frame; [by eapply Hall|..]; cbn [lists world pairs].
      * intros bl' ->. apply lookup_delete_ne. intros <-.
        apply Hnotin. by eapply list_elem_of_lookup_2.
      * intros e He. rewrite delete_all_lookup.
        rewrite decide_False; [reflexivity|]. intros Hin.
        apply (Hdisjoint _ Hin). apply list_elem_of_fmap_2.
        apply elem_of_concat. exists es'.
        split; [exact He|by eapply list_elem_of_lookup_2].
    + exact Hnd.
    + exact Hrest.
Qed.

Lemma destroyHashTable_spec s t T cont al cells :
  tables s !! t = Some T -> table T = Some al ->
  arrays s !! al = Some cells -> length cells = Z.to_nat (tableSize T) ->
  Forall2 (bucket_rep T (buckets s)) cells cont ->
  NoDup cells -> pairs_distinct cont ->
  destroyHashTable (Some t) s
  = match free_entries T (concat cont) (user (world (buckets s))) with
    | Some w' =>
        Some (success,
              mkHtstate (delete t (tables s)) (delete al (arrays s))
                (ht_mallocs s)
                (mkLstate
                   (delete_all (bucket_lists cells) (lists (buckets s)))
                   (mkKvstate
                      (delete_all (e_pair <$> concat cont)
                                  (pairs (world (buckets s))))
                      w' (kv_mallocs (world (buckets s))))
                   (mallocs (buckets s))))
    | None => None
    end.
Proof.
  intros Ht Hal Hcells Hlen Hall Hnd Hdist.
  cbn [destroyHashTable]. unfold bind at 1, get_table. rewrite Ht.
  unfold bind at 1. rewrite Hal, <- Hlen.
  pose proof (destroyHashTable_for_spec T al cells cont [] s Hcells Hall
                Hnd (pairs_distinct_NoDup cont Hdist)) as Hfor.
  change (Z.of_nat (length [])) with 0 in Hfor. rewrite Hfor.
  unfold bind, deref.
  by destruct (free_entries T (concat cont) (user (world (buckets s)))).
Qed.

Lemma elem_of_bucket_lists (cells : list LinkedList) l :
  l ∈ bucket_lists cells <-> Some l ∈ cells.
Proof.
  unfold bucket_lists. rewrite list_elem_of_omap. split.
  - by intros ([l'|] & Hin & [= ->]).
  - intros Hin. by exists (Some l).
Qed.

(** X18. [destroyHashTable] gives the key and then the value of every
    entry of the table to the free functions of the table, bucket after
    bucket and in each bucket from the head of the list on, and it is
    undefined only when one of these calls is.  Otherwise it returns
    [success] and has freed the table, its array, the lists of the buckets
    and the pairs of the entries, and nothing else: every other table,
    array, list and pair is as it was. *)
Theorem destroyHashTable_frees_the_table s t T cont :
  table_rep s t T cont ->
  exists al cells,
    table T = Some al /\ arrays s !! al = Some cells /\
    (destroyHashTable (Some t) s = None <->
     free_entries T (concat cont) (user (world (buckets s))) = None) /\
    (forall st s',
       destroyHashTable (Some t) s = Some (st, s') ->
       st = success /\
       free_entries T (concat cont) (user (world (buckets s)))
       = Some (user (world (buckets s'))) /\
       tables s' = delete t (tables s) /\
       arrays s' = delete al (arrays s) /\
       (forall l,
          lists (buckets s') !! l
          = if decide (Some l ∈ cells) then None
            else lists (buckets s) !! l) /\
       (forall p,
          pairs (world (buckets s')) !! p
          = if decide (p ∈ e_pair <$> concat cont) then None
            else pairs (world (buckets s)) !! p)).
Proof.
  intros (Ht & al & cells & Hal & Hcells & Hlen & Hall & Hnd & Hdist).
  exists al, cells. split; [exact Hal|]. split; [exact Hcells|].
  rewrite (destroyHashTable_spec s t T cont al cells Ht Hal Hcells Hlen Hall
             Hnd Hdist).
  destruct (free_entries T (concat cont) (user (world (buckets s))))
    as [w'|]; [|by split].
  split; [by split|]. intros st s' [= <- <-]. cbn.
  split; [reflexivity|]. split; [reflexivity|]. split; [reflexivity|].
  split; [reflexivity|]. split.
  - intros l. rewrite delete_all_lookup.
    destruct (decide (Some l ∈ cells)) as [Hin|Hout].
    + by rewrite decide_True by by apply elem_of_bucket_lists.
    + rewrite decide_False; [reflexivity|].
      by rewrite elem_of_bucket_lists.
  - intros p. apply delete_all_lookup.
Qed.

Section Leak.
Variables (eqK : K -> K -> bool) (hashK : K -> Z).

(** X19. When [addToHashTable] returns [Memory_Problem] the table holds
    what it held.  Either no pair was made and the heap of pairs is as it
    was, or the pair was made, with the copies of the key and of the value,
    and there was no memory for the node of the bucket's list: then the
    pair stays allocated though no entry of the table refers to it, the
    copies are not given to the free functions, and [destroyHashTable] of
    the table does not free the pair either. *)
Theorem addToHashTable_memory_problem_keeps_pair s t T cont k v s' :
  table_rep s t T cont -> pure_callbacks eqK hashK T ->
  addToHashTable (Some t) (Some k) (Some v) s = Some (Memory_Problem, s') ->
  table_rep s' t T cont /\
  lists (buckets s') = lists (buckets s) /\
  (pairs (world (buckets s')) = pairs (world (buckets s)) \/
   exists p n k1 v1 w1,
     (malloc_outcome (mallocs (buckets s))).1 = false /\
     pairs (world (buckets s)) !! p = None /\
     HashTable.copyKey T (Some k) (user (world (buckets s)))
     = Some (Some k1, w1) /\
     HashTable.copyValue T (Some v) w1
     = Some (Some v1, user (world (buckets s'))) /\
     pairs (world (buckets s'))
     = <[p := the_pair T (mkEntry n p k1 v1)]> (pairs (world (buckets s))) /\
     (forall es e, es ∈ cont -> e ∈ es -> e_pair e <> p) /\
     (forall st s'',
        destroyHashTable (Some t) s' = Some (st, s'') ->
        pairs (world (buckets s'')) !! p
        = Some (the_pair T (mkEntry n p k1 v1)))).
Proof.
  intros Hrep Hpure Hrun. unfold addToHashTable in Hrun.
  destruct (bucket_access_inv eqK hashK _ _ _ _ _ _ _ _ Hrep Hpure Hrun)
    as (Hidx & es & Hes).
  destruct (bucket_access eqK hashK s t T cont k es Hrep Hpure Hidx Hes)
    as (al & cells & cell & Hal & Hcells & Hcell & Hbucket & Hgo).
  rewrite Hgo in Hrun. clear Hgo.
  destruct Hbucket as (bl & L & -> & Hbl & HL & Hw & Hpairs).
  hrun in Hrun.
  destruct (first_match_split (matches eqK k) es)
    as [Hmiss|(es1 & e & es2 & -> & Hmiss & Hhit)].
  2:{ (* the key is in the bucket *)
      unfold as_nodes in HL. rewrite fmap_app, fmap_cons in HL.
      apply Forall_app in Hpairs as [Hpairs1 Hpairs2].
      apply Forall_cons in Hpairs2 as [Hpe Hpairs2].
      rewrite (searchByKeyInList_hit bl k (buckets s) L _ _ _ _ Hbl HL)
        in Hrun.
      - destruct Hw as (Hcopy & _). rewrite Hcopy in Hrun.
        unfold copyKeyValuePairs in Hrun. hrun in Hrun. discriminate.
      - eapply (equal_entries eqK hashK); eassumption.
      - rewrite (equal_entry eqK hashK T) by auto. by rewrite Hhit. }
  rewrite (searchByKeyInList_miss bl k (buckets s) L (as_nodes es) Hbl HL)
    in Hrun by (eapply (equal_entries eqK hashK); eassumption).
  hrun in Hrun. unfold createKeyValuePair, KeyValuePair.malloc in Hrun.
  hrun in Hrun.
  assert (Hframe : forall u' km' ps' ms',
            (forall j es_j e, cont !! j = Some es_j -> e ∈ es_j ->
               ps' !! e_pair e = pairs (world (buckets s)) !! e_pair e) ->
            table_rep
              (mkHtstate (tables s) (arrays s) (ht_mallocs s)
                 (mkLstate (lists (buckets s)) (mkKvstate ps' u' km') ms'))
              t T cont).
  { intros u' km' ps' ms' Hsame. eapply table_rep_frame; try done. }
  destruct (malloc_outcome (kv_mallocs (world (buckets s)))) as [[|] km'];
    hrun in Hrun.
  2:{ injection Hrun as <-. hrun. split; [by apply Hframe|]. by split; [|left]. }
  destruct (HashTable.copyKey T (Some k) (user (world (buckets s))))
    as [[[k1|] w1]|] eqn:Hck; hrun in Hrun; [| |discriminate].
  2:{ injection Hrun as <-. hrun. split; [by apply Hframe|]. by split; [|left]. }
  destruct (HashTable.copyValue T (Some v) w1) as [[[v1|] w2]|] eqn:Hcv;
    hrun in Hrun; [| |discriminate].
  2:{ destruct (HashTable.freeKey T (Some k1) w2) as [[r w3]|] eqn:Hfk;
        [|discriminate].
      hrun in Hrun. injection Hrun as <-. hrun.
      split; [by apply Hframe|]. by split; [|left]. }
  set (p := fresh (dom (pairs (world (buckets s))))) in *.
  assert (Hp : pairs (world (buckets s)) !! p = None).
  { apply not_elem_of_dom. apply is_fresh. }
  assert (Hother : forall es' e', es' ∈ cont -> e' ∈ es' -> e_pair e' <> p).
  { intros es' e' Hes' He' Heq. apply list_elem_of_lookup in Hes' as [j Hj].
    rewrite <- Heq, (entry_allocated s t T cont j es' e') in Hp by done.
    discriminate. }
  assert (Hold : forall pr j es_j e', cont !! j = Some es_j -> e' ∈ es_j ->
            <[p := pr]> (pairs (world (buckets s))) !! e_pair e'
            = pairs (world (buckets s)) !! e_pair e').
  { intros pr j es_j e' Hes_j He'. apply lookup_insert_ne. intros Heq.
    eapply Hother; [|exact He'|by symmetry].
    by eapply list_elem_of_lookup_2. }
  match type of Hrun with
  | context [appendNode (Some bl) (Some p) ?bs] =>
      pose proof (appendNode_spec bl p bs L (as_nodes es) Hbl HL) as Happ
  end.
  cbn [mallocs world] in Happ.
  destruct Hw as (Hcopy & Hw2 & Hw3 & Hw4).
  rewrite Hcopy in Happ. unfold copyKeyValuePairs in Happ. hrun in Happ.
  destruct (malloc_outcome (mallocs (buckets s))) as [[|] ms'] eqn:Hnode.
  { destruct Happ as (L' & _ & _ & Happ).
    rewrite Happ in Hrun. hrun in Hrun. discriminate. }
  rewrite Happ in Hrun. hrun in Hrun. injection Hrun as <-. hrun.
  match goal with
  | |- table_rep ?s1 _ _ _ /\ _ => assert (Hrep' : table_rep s1 t T cont)
  end.
  { apply Hframe. apply Hold. }
  split; [exact Hrep'|]. split; [reflexivity|]. right.
  exists p, (fresh (dom (nodes L))), k1, v1, w1.
  split; [reflexivity|]. split; [exact Hp|].
  split; [first [exact Hck|reflexivity]|].
  split; [first [exact Hcv|reflexivity]|].
  split; [reflexivity|]. split; [exact Hother|].
  intros st s'' Hdestroy.
  pose proof Hrep' as (Ht' & al' & cells' & Hal' & Hcells' & Hlen' & Hall'
                       & Hnd' & Hdist').
  rewrite (destroyHashTable_spec _ t T cont al' cells' Ht' Hal' Hcells' Hlen'
             Hall' Hnd' Hdist') in Hdestroy.
  hrun in Hdestroy.
  destruct (free_entries T (concat cont) w2) as [w3|]; [|discriminate].
  injection Hdestroy as <- <-. hrun.
  rewrite delete_all_lookup, decide_False; [apply lookup_insert_eq|].
  intros Hin. apply list_elem_of_fmap in Hin as (e' & Heq & He').
  apply elem_of_concat in He' as (es' & He' & Hes').
  by eapply Hother.
Qed.
End Leak.
End Destruction.

Import Examples.

Lemma table_s2_rep : exists cont, table_rep table_s2 table_t table_T cont.
Proof.
  assert (Hadd : addToHashTable (Some table_t) (Some 5%nat) (Some 50%nat)
                   table_s1 = Some (success, table_s2))
    by (vm_compute; reflexivity).
  destruct (add_inv Nat.eqb Z.of_nat _ _ _ _ _ _ _ _ table_s1_rep
              table_T_pure Hadd)
    as (_ & es & _ &
        [(? & _)
        |(_ & _ & _ & _ & [(? & _)|(_ & e & w1 & _ & _ & _ & Hrep)])]);
    [discriminate|discriminate|].
  by eexists.
Defined.

Lemma destroyHashTable_frees_the_table_witness :
  destroyHashTable (Some table_t) table_s2
  = Some (success, table_s2_destroyed) /\
  tables table_s2_destroyed = delete table_t (tables table_s2).
Proof.
  assert (Hrun : destroyHashTable (Some table_t) table_s2
                 = Some (success, table_s2_destroyed))
    by (vm_compute; reflexivity).
  split; [exact Hrun|].
  destruct table_s2_rep as [cont Hrep].
  destruct (destroyHashTable_frees_the_table table_s2 table_t table_T cont
              Hrep) as (al & cells & _ & _ & _ & Hfreed).
  exact (proj1 (proj2 (proj2 (Hfreed success table_s2_destroyed Hrun)))).
Defined.

Lemma table_no_node_rep :
  table_rep table_no_node table_t table_T (replicate 13 []).
Proof.
  apply (table_rep_frame table_s1 table_no_node table_t table_T _
           table_s1_rep); reflexivity.
Defined.

Lemma addToHashTable_memory_problem_keeps_pair_witness :
  addToHashTable (Some table_t) (Some 5%nat) (Some 50%nat) table_no_node
  = Some (Memory_Problem, table_leaked) /\
  exists p pr,
    pairs (world (buckets table_no_node)) !! p = None /\
    pairs (world (buckets table_leaked)) !! p = Some pr /\
    forall st s'',
      destroyHashTable (Some table_t) table_leaked = Some (st, s'') ->
      pairs (world (buckets s'')) !! p = Some pr.
Proof.
  assert (Hrun : addToHashTable (Some table_t) (Some 5%nat) (Some 50%nat)
                   table_no_node = Some (Memory_Problem, table_leaked))
    by (vm_compute; reflexivity).
  split; [exact Hrun|].
  destruct (addToHashTable_memory_problem_keeps_pair Nat.eqb Z.of_nat
              table_no_node table_t table_T _ 5%nat 50%nat table_leaked
              table_no_node_rep table_T_pure Hrun)
    as (_ & _ & [Hsame|(p & n & k1 & v1 & w1 & _ & Hfresh & _ & _ & Hpairs
                        & _ & Hkept)]).
  - apply (f_equal size) in Hsame. vm_compute in Hsame. discriminate.
  - exists p, (the_pair table_T (mkEntry n p k1 v1)).
    split; [exact Hfresh|]. split; [|exact Hkept].
    rewrite Hpairs. apply lookup_insert_eq.
Defined.
End HashTableDestruction.
